(** * StrokeApp persistence layer: a shallow embedding

  The development follows the client sources under [client/src]:
  - [utils/database.js], the Dexie database 'StrokeAppDB' (module
    [Database]);
  - [utils/initialDataLoader.js], seeding and reset (module
    [InitialDataLoader]);
  - the IndexedDB utilities of the 'EmergencyAppDB' image store, which the
    components import as [utils/indexedDB] and which are found in
    [utils/web-vitals.js] from [initDB] to [getImageSource] (module
    [IndexedDB]);
  - the upload component [FileSystemImageUpload], found in
    [components/ImageDisplay.jsx] from [validateImageFile] to [handleFile]
    (module [ImageUpload]);
  - the reads by category of [utils/database.js] (module [Queries]), the
    enum helpers that follow the loader in [utils/initialDataLoader.js]
    (module [EnumUtils]), the rest of the IndexedDB utilities (module
    [ImageStore]), and the components [ImageDisplay], [StorageManager] and
    [ImageUpload] (module [Components]).

  JavaScript values, the Dexie table semantics and the host environment
  (clock, random source, bundled seed file, canvas) come first.  The
  facts about the model follow the definitions; the specification is then
  taken claim by claim, and further properties of the code close the
  development. *)

From Stdlib Require Import ZArith String Ascii List Permutation Lia.
From stdpp Require Import base option list gmap strings pretty sorting.

Local Open Scope Z_scope.
Local Open Scope string_scope.

(** ** JavaScript values *)

Module JS.

(** Numbers are the doubles that hold an integer, and [VNaN]; what the
    code computes with them is sums, which [add] rounds as doubles are
    rounded.  Fractions, the negative zero and the infinities are outside
    the model.  Strings are sequences of 8-bit code units. *)
#[warnings="-register-all"]
Inductive value : Type :=
  | VUndef
  | VNull
  | VNaN
  | VBool (b : bool)
  | VNum (n : Z)
  | VStr (s : string)
  | VArr (elems : list value)
  | VObj (props : list (string * value)).

(** A stored record or an object literal: own properties by name. *)
Abbreviation obj := (gmap string value).

(** [o.k]: a missing property reads as [undefined]. *)
Definition prop (o : obj) (k : string) : value := default VUndef (o !! k).

Fixpoint join (sep : string) (l : list string) : string :=
  match l with
  | [] => ""
  | [s] => s
  | s :: rest => s +:+ sep +:+ join sep rest
  end.

(** ToString, as used by template literals and by [+] on strings. *)
Fixpoint to_string (v : value) : string :=
  match v with
  | VUndef => "undefined"
  | VNull => "null"
  | VNaN => "NaN"
  | VBool true => "true"
  | VBool false => "false"
  | VNum n => pretty n
  | VStr s => s
  | VArr l =>
      join "," (List.map (fun e => match e with
                                   | VUndef | VNull => ""
                                   | _ => to_string e
                                   end) l)
  | VObj _ => "[object Object]"
  end.

(** ToBoolean. *)
Definition truthy (v : value) : bool :=
  match v with
  | VUndef | VNull | VNaN => false
  | VBool b => b
  | VNum n => negb (Z.eqb n 0)
  | VStr s => negb (String.eqb s "")
  | VArr _ | VObj _ => true
  end.

(** [a || b], [a && b], [!a]. *)
Definition or (a b : value) : value := if truthy a then a else b.
Definition and (a b : value) : value := if truthy a then b else a.
Definition not (a : value) : value := VBool (negb (truthy a)).

Definition to_primitive (v : value) : value :=
  match v with
  | VArr _ | VObj _ => VStr (to_string v)
  | _ => v
  end.

(** ToNumber on the primitives that are not strings; [None] is NaN. *)
Definition to_number (v : value) : option Z :=
  match v with
  | VNull => Some 0
  | VBool b => Some (if b then 1 else 0)
  | VNum n => Some n
  | _ => None
  end.

(** The double nearest to the integer [z], ties going to the even
    significand: an integer of at most 53 bits is a double, a longer one
    loses its low bits.  (Beyond 2^1024, where a double is infinite, the
    model goes on rounding.) *)
Definition to_double (z : Z) : Z :=
  let m := Z.abs z in
  let excess := Z.log2 m + 1 - 53 in
  if (excess <=? 0)%Z then z
  else
    let q := Z.shiftr m excess in
    let r := Z.land m (Z.ones excess) in
    let half := Z.shiftl 1 (excess - 1) in
    let q' := if (half <? r)%Z || ((r =? half)%Z && Z.odd q) then q + 1 else q in
    Z.sgn z * Z.shiftl q' excess.

(** [a + b]: concatenation as soon as one operand is a string after
    ToPrimitive, numeric addition otherwise. *)
Definition add (a b : value) : value :=
  match to_primitive a, to_primitive b with
  | VStr s, pb => VStr (s +:+ to_string pb)
  | pa, VStr s => VStr (to_string pa +:+ s)
  | pa, pb =>
      match to_number pa, to_number pb with
      | Some x, Some y => VNum (to_double (x + y))
      | _, _ => VNaN
      end
  end.

(** [s.startsWith(p)] *)
Definition startsWith (p s : string) : bool := String.prefix p s.

(** White space removed by [String.prototype.trim] (8-bit range). *)
Definition is_white (c : ascii) : bool :=
  match nat_of_ascii c with
  | 9 | 10 | 11 | 12 | 13 | 32 | 160 => true
  | _ => false
  end%nat.

Fixpoint drop_white (s : string) : string :=
  match s with
  | String c rest => if is_white c then drop_white rest else s
  | EmptyString => EmptyString
  end.

Definition trim (s : string) : string :=
  String.rev (drop_white (String.rev (drop_white s))).

(** Thrown values. *)
Inductive exn : Type :=
  | Error (message : string)          (* throw new Error(message) *)
  | TypeError (message : string)      (* raised by the engine *)
  | ConstraintError                   (* IndexedDB: key already present *)
  | DataError                         (* IndexedDB: not a valid key *)
  | BulkError (failures : nat)        (* Dexie: some records of a bulk call failed *)
  | ModifyError (failures : nat)      (* Dexie: some records of an update failed *)
  | HostError (message : string).     (* a failure reported by the host *)

Inductive outcome (A : Type) : Type :=
  | Ok (a : A)
  | Threw (e : exn).
Global Arguments Ok {A} a.
Global Arguments Threw {A} e.

(** The character [c] does not occur in [s]. *)
Fixpoint lacks (c : ascii) (s : string) : bool :=
  match s with
  | EmptyString => true
  | String x rest => negb (Ascii.eqb x c) && lacks c rest
  end.

End JS.
Import JS.

(** ** Dexie tables

    The schema of [database.js] declares every table as ['++id, ...']: an
    auto-incremented primary key stored in the record itself under [id]
    (an inbound key), and secondary indexes on the other listed fields.
    What follows is the IndexedDB behaviour those calls rely on, and
    what Dexie (3.2 and later) makes of the calls. *)

Module Dexie.

(** Keys.  A number, a string, or an array of keys is a valid key;
    IndexedDB orders numbers before strings and strings before arrays.
    Dates and binary data, which are keys too, are not values of the
    model. *)
#[warnings="-register-all"]
Inductive ikey : Type :=
  | KNum (n : Z)
  | KStr (s : string)
  | KArr (elems : list ikey).

Global Instance ikey_eq_dec : EqDecision ikey.
Proof.
  refine (fix go (a b : ikey) {struct a} : Decision (a = b) :=
            match a, b with
            | KNum x, KNum y => cast_if (decide (x = y))
            | KStr s, KStr t => cast_if (decide (s = t))
            | KArr l, KArr m =>
                cast_if ((fix all (l m : list ikey) {struct l}
                            : Decision (l = m) :=
                            match l, m with
                            | [], [] => left eq_refl
                            | x :: l', y :: m' =>
                                cast_if_and (go x y) (all l' m')
                            | _, _ => right _
                            end) l m)
            | _, _ => right _
            end); congruence.
Defined.

(** Keys as trees, for counting them. *)
Fixpoint key_tree (k : ikey) : gen_tree (Z + string) :=
  match k with
  | KNum n => GenLeaf (inl n)
  | KStr s => GenLeaf (inr s)
  | KArr l => GenNode 0 (List.map key_tree l)
  end.

Fixpoint tree_key (t : gen_tree (Z + string)) : ikey :=
  match t with
  | GenLeaf (inl n) => KNum n
  | GenLeaf (inr s) => KStr s
  | GenNode _ ts => KArr (List.map tree_key ts)
  end.

Global Instance ikey_countable : Countable ikey.
Proof.
  refine (inj_countable'
            (fun k => match k with
                      | KNum n => inl (inl n)
                      | KStr s => inl (inr s)
                      | KArr l => inr (key_tree (KArr l))
                      end)
            (fun x => match x with
                      | inl (inl n) => KNum n
                      | inl (inr s) => KStr s
                      | inr t => tree_key t
                      end) _).
  intros k.
  assert (Htree : forall k, tree_key (key_tree k) = k).
  { fix go 1. intros [n|s|l]; simpl; [reflexivity|reflexivity|].
    f_equal. induction l as [|x l IH]; simpl; [reflexivity|].
    rewrite (go x), IH. reflexivity. }
  destruct k as [n|s|l]; [reflexivity|reflexivity|apply Htree].
Defined.

(** The key a value stands for, if it is a valid key. *)
Fixpoint as_key (v : value) : option ikey :=
  match v with
  | VNum n => Some (KNum n)
  | VStr s => Some (KStr s)
  | VArr l =>
      option_map KArr
        ((fix all (l : list value) : option (list ikey) :=
            match l with
            | [] => Some []
            | x :: rest =>
                match as_key x, all rest with
                | Some k, Some ks => Some (k :: ks)
                | _, _ => None
                end
            end) l)
  | _ => None
  end.

Fixpoint key_value (k : ikey) : value :=
  match k with
  | KNum n => VNum n
  | KStr s => VStr s
  | KArr l => VArr (List.map key_value l)
  end.

(** The order of keys: by type first, numbers by size, strings by code
    units, arrays element by element with the shorter one first. *)
Fixpoint key_cmp (a b : ikey) : comparison :=
  match a, b with
  | KNum x, KNum y => (x ?= y)%Z
  | KNum _, _ => Lt
  | KStr _, KNum _ => Gt
  | KStr s, KStr t => String.compare s t
  | KStr _, KArr _ => Lt
  | KArr l, KArr m =>
      (fix lex (l m : list ikey) {struct l} : comparison :=
         match l, m with
         | [], [] => Eq
         | [], _ :: _ => Lt
         | _ :: _, [] => Gt
         | x :: l', y :: m' =>
             match key_cmp x y with
             | Eq => lex l' m'
             | c => c
             end
         end) l m
  | KArr _, _ => Gt
  end.

Definition key_le (a b : ikey) : Prop := key_cmp a b <> Gt.

Global Instance key_le_dec : RelDecision key_le.
Proof.
  intros a b; unfold key_le.
  destruct (key_cmp a b); [left|left|right]; congruence.
Defined.

(** A table: the records by primary key, and the key generator's
    current number (IndexedDB starts it at 1 and never lowers it). *)
Record table : Type := Table {
  rows : gmap ikey obj;
  next_key : Z
}.

Definition empty_table : table := Table ∅ 1.

(** An explicit numeric key at or above the generator's number moves the
    generator past it.  (IndexedDB stops the generator at 2^53; the
    results that depend on the generator say so.) *)
Definition bump (k : ikey) (next : Z) : Z :=
  match k with
  | KNum n => Z.max next (n + 1)
  | _ => next
  end.

(** [table.add(o)]: with no [id] (or [id: undefined]) the generator
    supplies the key and it is written into the record; otherwise the
    record's own [id] is the key.  Adding under a key already present
    fails with ConstraintError, an [id] that is not a key with DataError. *)
Definition add (o : obj) (t : table) : outcome ikey * table :=
  match o !! "id" with
  | None | Some VUndef =>
      let k := KNum (next_key t) in
      match rows t !! k with
      | Some _ => (Threw ConstraintError, t)
      | None =>
          (Ok k, Table (<[k := <["id" := VNum (next_key t)]> o]> (rows t))
                       (next_key t + 1))
      end
  | Some v =>
      match as_key v with
      | None => (Threw DataError, t)
      | Some k =>
          match rows t !! k with
          | Some _ => (Threw ConstraintError, t)
          | None => (Ok k, Table (<[k := o]> (rows t)) (bump k (next_key t)))
          end
      end
  end.

(** [table.bulkAdd(os)]: the records are added in order.  A record whose
    key is already present fails its own request only: it is counted and
    the rest is still added.  A record whose [id] is not a valid key
    makes the store's [add] throw on the spot: the call rejects with that
    DataError and the records after it are not attempted. *)
Fixpoint bulkAdd_go (os : list obj) (failed : nat) (t : table)
  : outcome nat * table :=
  match os with
  | [] => (Ok failed, t)
  | o :: rest =>
      match add o t with
      | (Ok _, t') => bulkAdd_go rest failed t'
      | (Threw DataError, t') => (Threw DataError, t')
      | (Threw _, t') => bulkAdd_go rest (S failed) t'
      end
  end.

Definition bulkAdd (os : list obj) (t : table) : outcome unit * table :=
  match bulkAdd_go os 0 t with
  | (Ok O, t') => (Ok tt, t')
  | (Ok (S n), t') => (Threw (BulkError (S n)), t')
  | (Threw e, t') => (Threw e, t')
  end.

(** [table.get(k)]: the record, or [undefined]. *)
Definition get (k : ikey) (t : table) : option obj := rows t !! k.

(** *** Key paths

    [table.update(k, changes)] reads every property name of [changes] as
    a key path: the names between the periods address nested
    properties, and a path that ends in a period addresses the property
    before it. *)

(** [keyPath.split('.')] *)
Fixpoint segments (s : string) : list string :=
  match s with
  | EmptyString => [""]
  | String c rest =>
      if Ascii.eqb c "." then "" :: segments rest
      else match segments rest with
           | seg :: more => String c seg :: more
           | [] => [String c ""]
           end
  end.

(** The name that a key path starts at. *)
Definition head_name (keyPath : string) : string :=
  hd "" (segments keyPath).

Fixpoint digits_value (s : string) (acc : N) : option N :=
  match s with
  | EmptyString => Some acc
  | String c rest =>
      let d := N_of_ascii c in
      if ((48 <=? d) && (d <=? 57))%N
      then digits_value rest (10 * acc + (d - 48))%N
      else None
  end.

(** The array index that a property name denotes: a decimal numeral
    without leading zeros. *)
Definition index_of (name : string) : option nat :=
  match name with
  | EmptyString => None
  | _ =>
      match digits_value name 0 with
      | Some n => if String.eqb (pretty n) name then Some (N.to_nat n) else None
      | None => None
      end
  end.

Fixpoint assoc (name : string) (props : list (string * value)) : option value :=
  match props with
  | [] => None
  | (k, x) :: rest => if String.eqb k name then Some x else assoc name rest
  end.

Fixpoint char_at (i : nat) (s : string) : option string :=
  match s, i with
  | EmptyString, _ => None
  | String c _, O => Some (String c "")
  | String _ rest, S j => char_at j rest
  end.

(** The own property [name] of a value: of an object, of an array (its
    elements and [length]), of a string (its characters and [length]).
    Inherited properties are outside the model. *)
Definition own (name : string) (v : value) : option value :=
  match v with
  | VObj props => assoc name props
  | VArr elems =>
      match index_of name with
      | Some i => elems !! i
      | None => if String.eqb name "length"
                then Some (VNum (Z.of_nat (length elems))) else None
      end
  | VStr s =>
      match index_of name with
      | Some i => VStr <$> char_at i s
      | None => if String.eqb name "length"
                then Some (VNum (Z.of_nat (String.length s))) else None
      end
  | _ => None
  end.

(** [a === b].  An object or an array of a patch is never the one held
    by a stored record. *)
Definition same (a b : value) : bool :=
  match a, b with
  | VUndef, VUndef | VNull, VNull => true
  | VBool x, VBool y => Bool.eqb x y
  | VNum x, VNum y => (x =? y)%Z
  | VStr s, VStr t => String.eqb s t
  | _, _ => false
  end.

(** [Dexie.getByKeyPath(v, keyPath)] below the record, with the path
    given by its segments: an own property named by the whole path wins;
    otherwise the first segment is followed. *)
Fixpoint get_in (segs : list string) (v : value) : value :=
  match own (join "." segs) v with
  | Some x => x
  | None =>
      match segs with
      | [] => VUndef
      | [name] => if String.eqb name "" then v else VUndef
      | name :: rest =>
          match own name v with
          | None | Some VUndef | Some VNull => VUndef
          | Some inner => get_in rest inner
          end
      end
  end.

Fixpoint set_assoc (name : string) (x : value) (props : list (string * value))
  : list (string * value) :=
  match props with
  | [] => [(name, x)]
  | (k, y) :: rest =>
      if String.eqb k name then (k, x) :: rest
      else (k, y) :: set_assoc name x rest
  end.

Fixpoint del_assoc (name : string) (props : list (string * value))
  : list (string * value) :=
  match props with
  | [] => []
  | (k, y) :: rest =>
      if String.eqb k name then rest else (k, y) :: del_assoc name rest
  end.

(** The last step of [Dexie.setByKeyPath] on a nested value:
    [undefined] removes the property (splicing an array), any other
    value is assigned.  A primitive is left as it is.  The assignments
    that the model does not follow leave the value as it is too: to
    [__proto__] where it is not an own property (it replaces the
    prototype), to an array beyond its end or under a name that is not
    an index. *)
Definition assign (name : string) (x : value) (v : value) : value :=
  match v with
  | VObj props =>
      match x with
      | VUndef => VObj (del_assoc name props)
      | _ =>
          if String.eqb name "__proto__" && negb (bool_decide (is_Some (assoc name props)))
          then v
          else VObj (set_assoc name x props)
      end
  | VArr elems =>
      match index_of name with
      | Some i =>
          match x with
          | VUndef => VArr (base.delete i elems)
          | _ =>
              if (i <? length elems)%nat then VArr (<[i := x]> elems)
              else if (i =? length elems)%nat then VArr (elems ++ [x])
              else v
          end
      | None => v
      end
  | _ => v
  end.

(** [Dexie.setByKeyPath(v, keyPath, x)] below the record: a segment that
    leads to no own property, or to a falsy one, makes a fresh object
    there; a path that ends in a period stops at the property before
    it. *)
Fixpoint set_in (segs : list string) (x : value) (v : value) : value :=
  match v with
  | VObj _ | VArr _ =>
      match segs with
      | [] => v
      | [name] => assign name x v
      | name :: ((next :: more) as rest) =>
          match next, more with
          | EmptyString, [] => assign name x v
          | _, _ =>
              let inner := match own name v with
                           | Some y => if truthy y then y else VObj []
                           | None => VObj []
                           end in
              assign name (set_in rest x inner) v
          end
      end
  | _ => v
  end.

(** The same two functions on a record. *)
Definition getByKeyPath (o : obj) (keyPath : string) : option value :=
  match o !! keyPath with
  | Some x => Some x
  | None =>
      match segments keyPath with
      | [] => Some VUndef
      | [name] => if String.eqb name "" then None else Some VUndef
      | name :: rest =>
          match o !! name with
          | None | Some VUndef | Some VNull => Some VUndef
          | Some inner => Some (get_in rest inner)
          end
      end
  end.

Definition assign_top (name : string) (x : value) (o : obj) : obj :=
  match x with
  | VUndef => base.delete name o
  | _ =>
      if String.eqb name "__proto__" && negb (bool_decide (is_Some (o !! name)))
      then o
      else <[name := x]> o
  end.

Definition setByKeyPath (keyPath : string) (x : value) (o : obj) : obj :=
  match segments keyPath with
  | [] => o
  | [name] => assign_top name x o
  | name :: ((next :: more) as rest) =>
      match next, more with
      | EmptyString, [] => assign_top name x o
      | _, _ =>
          let inner := match o !! name with
                       | Some y => if truthy y then y else VObj []
                       | None => VObj []
                       end in
          assign_top name (set_in rest x inner) o
      end
  end.

(** The changes of an update: the own properties of the object passed,
    in the order [Object.keys] lists them. *)
Definition changes := list (string * value).

(** One property of the changes: where the record already holds the
    value, nothing is written. *)
Definition change (o : obj) (c : string * value) : obj :=
  match getByKeyPath o c.1 with
  | Some y => if same y c.2 then o else setByKeyPath c.1 c.2 o
  | None => setByKeyPath c.1 c.2 o
  end.

Definition modify (cs : changes) (o : obj) : obj := fold_left change cs o.

Definition delete (k : ikey) (t : table) : table :=
  Table (base.delete k (rows t)) (next_key t).

(** [table.update(k, changes)]: nothing happens when [k] is absent.
    Otherwise the changes are made on the record.  When its [id] is
    still the same key (or is no key before and after), the record is
    put back under [k].  When its [id] has become another key, the
    record is added anew and the old one is deleted: if the new key is
    taken the call fails with a ModifyError, if the new [id] is not a
    valid key with DataError, and the table is then as before.  The
    number of modified records that Dexie resolves to is discarded at
    every call site. *)
Definition update (k : ikey) (cs : changes) (t : table) : outcome unit * table :=
  match rows t !! k with
  | None => (Ok tt, t)
  | Some o =>
      let o' := modify cs o in
      if bool_decide (as_key (prop o' "id") = as_key (prop o "id"))
      then (Ok tt, Table (<[k := o']> (rows t)) (next_key t))
      else
        match add o' t with
        | (Ok _, t') => (Ok tt, delete k t')
        | (Threw ConstraintError, _) => (Threw (ModifyError 1), t)
        | (Threw e, _) => (Threw e, t)
        end
  end.

(** [table.clear()] removes the records; the key generator keeps its
    number. *)
Definition clear (t : table) : table := Table ∅ (next_key t).

Definition pk_le (a b : ikey * obj) : Prop := key_le a.1 b.1.

Global Instance pk_le_dec : RelDecision pk_le.
Proof. intros a b; unfold pk_le; apply _. Defined.

(** [table.toArray()]: the records in primary-key order. *)
Definition toArray (t : table) : list obj :=
  (merge_sort pk_le (map_to_list (rows t))).*2.

(** The entries of the secondary index on [field].  IndexedDB gives a
    record an entry in an index only when evaluating the index's key path
    on the record yields a valid key; a record without the field, or with
    [undefined], [null], a boolean or NaN in it, has no entry. *)
Definition index_entries (field : string) (t : table)
  : list (ikey * (ikey * obj)) :=
  omap (fun r => match as_key (prop r.2 field) with
                 | Some ik => Some (ik, r)
                 | None => None
                 end) (map_to_list (rows t)).

(** Index order: by index key, then by primary key. *)
Definition entry_le (a b : ikey * (ikey * obj)) : Prop :=
  if decide (a.1 = b.1) then key_le a.2.1 b.2.1 else key_le a.1 b.1.

Global Instance entry_le_dec : RelDecision entry_le.
Proof. intros a b; unfold entry_le; destruct (decide (a.1 = b.1)); apply _. Defined.

(** [table.orderBy(field)]: a collection walking the index on [field]
    upwards, so that it yields the indexed records only;
    [collection.reverse()] walks it downwards; [collection.toArray()]
    materialises it. *)
Definition orderBy (field : string) (t : table) : list obj :=
  (merge_sort entry_le (index_entries field t)).*2.*2.

Definition reverse (c : list obj) : list obj := List.rev c.

End Dexie.



(** ** The host environment and the state of the two databases *)

Module Host.

(** A [File] or [Blob]: only the MIME type and the size are inspected by
    the code; [data] stands for the bytes. *)
Record blob : Type := Blob {
  blob_name : string;
  blob_type : string;
  blob_size : Z;
  blob_data : string
}.

(** The seed document [/emergency.json]. *)
Record symptom : Type := Symptom {
  s_type : value;
  s_description : value;
  s_symptomImage : value;
  s_icon : value
}.

Record body_part : Type := BodyPart {
  bp_name : value;
  bp_description : value;
  bp_bodyPartImage : value;
  bp_icon : value;
  bp_symptoms : list symptom
}.

(** What [fetch('/emergency.json')] followed by [response.json()] gives. *)
Inductive fetched : Type :=
  | Rejected (e : exn)
  | Response (ok : bool) (json : outcome (list body_part)).

(** Everything the code obtains from the browser. *)
Record host : Type := Host_ {
  clock : nat -> Z;                      (* the k-th reading of the clock, in ms *)
  toISOString : Z -> string;             (* Date.prototype.toISOString *)
  random36 : nat -> string;              (* the k-th Math.random().toString(36).substring(2, 15) *)
  emergency_json : fetched;
  idb_open : option exn;                 (* why indexedDB.open fails, if it does *)
  idb_get : option exn;                  (* why a get request fails, if it does *)
  idb_put : obj -> option exn;           (* why a put request fails, if it does *)
  compress : blob -> outcome blob;       (* canvas resize and toBlob('image/jpeg', 0.85) *)
  readAsDataURL : blob -> outcome string (* FileReader *)
}.

Inductive tname : Type :=
  | Emergencies | Foods | Contacts | Phrases | Orders | Activities.

Global Instance tname_eq_dec : EqDecision tname.
Proof. solve_decision. Defined.

(** The Dexie database 'StrokeAppDB'. *)
Record DB : Type := Db {
  emergencies : Dexie.table;
  foods : Dexie.table;
  contacts : Dexie.table;
  phrases : Dexie.table;
  orders : Dexie.table;
  activities : Dexie.table
}.

Definition tbl (n : tname) (d : DB) : Dexie.table :=
  match n with
  | Emergencies => emergencies d
  | Foods => foods d
  | Contacts => contacts d
  | Phrases => phrases d
  | Orders => orders d
  | Activities => activities d
  end.

Definition set_tbl (n : tname) (t : Dexie.table) (d : DB) : DB :=
  match n with
  | Emergencies => Db t (foods d) (contacts d) (phrases d) (orders d) (activities d)
  | Foods => Db (emergencies d) t (contacts d) (phrases d) (orders d) (activities d)
  | Contacts => Db (emergencies d) (foods d) t (phrases d) (orders d) (activities d)
  | Phrases => Db (emergencies d) (foods d) (contacts d) t (orders d) (activities d)
  | Orders => Db (emergencies d) (foods d) (contacts d) (phrases d) t (activities d)
  | Activities => Db (emergencies d) (foods d) (contacts d) (phrases d) (orders d) t
  end.

(** Both databases, and how often the clock and the random source have
    been consulted. *)
Record world : Type := World {
  db : DB;
  userImages : gmap Dexie.ikey obj;      (* object store 'userImages' of 'EmergencyAppDB' *)
  reads : nat;
  draws : nat
}.

Definition empty_db : DB :=
  Db Dexie.empty_table Dexie.empty_table Dexie.empty_table
     Dexie.empty_table Dexie.empty_table Dexie.empty_table.

Definition initial : world := World empty_db ∅ 0 0.

Definition set_db (d : DB) (w : world) : world :=
  World d (userImages w) (reads w) (draws w).

(** One more reading of the clock; one more draw from the random source. *)
Definition tick (w : world) : world :=
  World (db w) (userImages w) (S (reads w)) (draws w).

Definition draw (w : world) : world :=
  World (db w) (userImages w) (reads w) (S (draws w)).

(** Asynchronous functions, run to completion one after the other: a
    computation ends in a value or in a thrown error, and leaves a world
    behind in both cases. *)
Definition M (A : Type) : Type := world -> outcome A * world.

Definition ret {A} (a : A) : M A := fun w => (Ok a, w).

Definition throw {A} (e : exn) : M A := fun w => (Threw e, w).

Definition bind {A B} (m : M A) (k : A -> M B) : M B :=
  fun w => match m w with
           | (Ok a, w') => k a w'
           | (Threw e, w') => (Threw e, w')
           end.

(** [try { m } catch (error) { handler }] *)
Definition try_catch {A} (m : M A) (handler : exn -> M A) : M A :=
  fun w => match m w with
           | (Ok a, w') => (Ok a, w')
           | (Threw e, w') => handler e w'
           end.

Definition lift {A} (o : outcome A) : M A := fun w => (o, w).

End Host.
Import Host.

Declare Scope js_scope.
Delimit Scope js_scope with js.
Notation "x <- m ;; k" := (bind m (fun x => k))
  (at level 100, m at next level, right associativity) : js_scope.
Notation "m ;;; k" := (bind m (fun _ => k))
  (at level 100, right associativity) : js_scope.

(** ** [utils/database.js] *)

Module Database.

Import Dexie.
Local Open Scope js_scope.

(** [db.<table>.<method>(...)] on the shared database. *)
Definition table_add (n : tname) (o : obj) : M ikey :=
  fun w => let (r, t') := Dexie.add o (tbl n (db w)) in
           (r, set_db (set_tbl n t' (db w)) w).

Definition table_bulkAdd (n : tname) (os : list obj) : M unit :=
  fun w => let (r, t') := Dexie.bulkAdd os (tbl n (db w)) in
           (r, set_db (set_tbl n t' (db w)) w).

Definition table_get (n : tname) (k : ikey) : M (option obj) :=
  fun w => (Ok (Dexie.get k (tbl n (db w))), w).

Definition table_update (n : tname) (k : ikey) (cs : changes) : M unit :=
  fun w => let (r, t') := Dexie.update k cs (tbl n (db w)) in
           (r, set_db (set_tbl n t' (db w)) w).

Definition table_delete (n : tname) (k : ikey) : M unit :=
  fun w => (Ok tt, set_db (set_tbl n (Dexie.delete k (tbl n (db w))) (db w)) w).

Definition table_clear (n : tname) : M unit :=
  fun w => (Ok tt, set_db (set_tbl n (Dexie.clear (tbl n (db w))) (db w)) w).

Definition table_toArray (n : tname) : M (list obj) :=
  fun w => (Ok (Dexie.toArray (tbl n (db w))), w).

(** [db.<table>.orderBy(field).reverse().toArray()] *)
Definition table_orderBy_reverse (n : tname) (field : string) : M (list obj) :=
  fun w => (Ok (Dexie.reverse (Dexie.orderBy field (tbl n (db w)))), w).

(** [db.transaction('rw', tables, body)]: when the body throws, the
    writes it made to the database are rolled back and the error is
    passed on. *)
Definition transaction {A} (body : M A) : M A :=
  fun w => match body w with
           | (Ok a, w') => (Ok a, w')
           | (Threw e, w') => (Threw e, set_db (db w) w')
           end.

(** [try { ... } catch (error) { console.error(...); throw error; }],
    the frame around every operation of the file. *)
Definition logged {A} (m : M A) : M A := try_catch m throw.

(** [record.field] where [record] is what [get] resolved to: reading a
    property of [undefined] raises a TypeError. *)
Definition member (record : option obj) (field : string) : M value :=
  match record with
  | Some o => ret (prop o field)
  | None =>
      throw (TypeError ("Cannot read properties of undefined (reading '"
                          +:+ field +:+ "')"))
  end.

Definition CONTACT_RELATIONSHIPS : list string :=
  ["family"; "friend"; "recently_mentioned"; "known_person"].
Definition CONTACT_GENDER : list string := ["male"; "female"].
Definition FOOD_CATEGORIES : list string :=
  ["breakfast"; "lunch"; "dinner"; "snack"; "drink"; "dessert"].
Definition PHRASE_CATEGORIES : list string :=
  ["common"; "greeting"; "emergency"; "food"; "health"; "transport";
   "shopping"; "specific"; "nickname"; "other"].
Definition ORDER_STATUS : list string :=
  ["pending"; "confirmed"; "preparing"; "ready"; "delivered"; "cancelled"].
Definition ACTIVITY_CATEGORIES : list string :=
  ["health"; "exercise"; "entertainment"; "personal_care"; "other"].
Definition ACTIVITY_FREQUENCY : list string :=
  ["daily"; "weekly"; "monthly"; "custom"].

(** [enumArray.includes(value)]: only a string can be found in an array
    of strings. *)
Definition validateEnum (v : value) (enumArray : list string) : bool :=
  match v with
  | VStr s => bool_decide (s ∈ enumArray)
  | _ => false
  end.

(** [v?.trim()]: [undefined] for [undefined] and [null], the trimmed
    string for a string, and a TypeError for anything else, which has no
    [trim] method. *)
Definition optional_trim (v : value) : outcome value :=
  match v with
  | VUndef | VNull => Ok VUndef
  | VStr s => Ok (VStr (trim s))
  | _ => Threw (TypeError "trim is not a function")
  end.

(** [if (cond) errors.push(message)] *)
Definition push_if (cond : bool) (message : string) (errors : list string)
  : list string :=
  if cond then errors ++ [message] else errors.

Definition validateContactData (data : obj) : outcome (list string) :=
  match optional_trim (prop data "name") with
  | Threw e => Threw e
  | Ok name =>
      let errors := [] in
      let errors := push_if (negb (truthy name)) "Name is required" errors in
      let errors := push_if (negb (validateEnum (prop data "relationship") CONTACT_RELATIONSHIPS))
                            "Invalid relationship" errors in
      let errors := push_if (negb (validateEnum (prop data "gender") CONTACT_GENDER))
                            "Invalid gender" errors in
      Ok errors
  end.

Definition validateFoodData (data : obj) : outcome (list string) :=
  match optional_trim (prop data "name") with
  | Threw e => Threw e
  | Ok name =>
      let errors := [] in
      let errors := push_if (negb (truthy name)) "Name is required" errors in
      let errors := push_if (negb (validateEnum (prop data "category") FOOD_CATEGORIES))
                            "Invalid category" errors in
      Ok errors
  end.

Definition validatePhraseData (data : obj) : outcome (list string) :=
  match optional_trim (prop data "text") with
  | Threw e => Threw e
  | Ok text =>
      let errors := [] in
      let errors := push_if (negb (truthy text)) "Text is required" errors in
      let errors := push_if (negb (validateEnum (prop data "category") PHRASE_CATEGORIES))
                            "Invalid category" errors in
      Ok errors
  end.

Definition validateOrderData (data : obj) : outcome (list string) :=
  match optional_trim (prop data "orderNumber") with
  | Threw e => Threw e
  | Ok number =>
      let errors := [] in
      let errors := push_if (negb (truthy number)) "Order number is required" errors in
      let errors := push_if (negb (validateEnum (prop data "status") ORDER_STATUS))
                            "Invalid status" errors in
      Ok errors
  end.

Definition validateActivityData (data : obj) : outcome (list string) :=
  match optional_trim (prop data "name") with
  | Threw e => Threw e
  | Ok name =>
      let errors := [] in
      let errors := push_if (negb (truthy name)) "Name is required" errors in
      let errors := push_if (negb (validateEnum (prop data "category") ACTIVITY_CATEGORIES))
                            "Invalid category" errors in
      let errors := push_if (truthy (prop data "isRecurring")
                             && negb (validateEnum (prop data "frequency") ACTIVITY_FREQUENCY))
                            "Invalid frequency" errors in
      Ok errors
  end.

Section Operations.

Variable h : host.

(** [new Date().toISOString()] *)
Definition now : M string :=
  fun w => (Ok (toISOString h (clock h (reads w))), tick w).

(** The shape shared by the six [add] operations:
    [{ ...data, createdAt: now }] or [{ ...data, createdAt: now,
    updatedAt: now }], then [add], then [{ id, ...record }]. *)
Definition stamp (with_updatedAt : bool) (t : string) (data : obj) : obj :=
  let record := <["createdAt" := VStr t]> data in
  if with_updatedAt then <["updatedAt" := VStr t]> record else record.

(** [{ id, ...record }]; after [add], Dexie has written the key into
    [record.id] as well. *)
Definition with_id (id : ikey) (record : obj) : obj :=
  <["id" := key_value id]> record.

(** *** Emergency *)

Definition addEmergency (emergencyData : obj) : M obj :=
  logged (t <- now ;;
          let emergency := stamp false t emergencyData in
          id <- table_add Emergencies emergency ;;
          ret (with_id id emergency)).

Definition getAllEmergencies : M (list obj) :=
  logged (table_orderBy_reverse Emergencies "createdAt").

Definition getEmergencyById (id : ikey) : M (option obj) :=
  logged (table_get Emergencies id).

Definition updateEmergency (id : ikey) (emergencyData : changes) : M (option obj) :=
  logged (table_update Emergencies id emergencyData ;;;
          table_get Emergencies id).

Definition deleteEmergency (id : ikey) : M bool :=
  logged (table_delete Emergencies id ;;; ret true).

(** *** Food *)

Definition addFood (foodData : obj) : M obj :=
  logged (t <- now ;;
          let food := stamp false t foodData in
          id <- table_add Foods food ;;
          ret (with_id id food)).

Definition getAllFoods : M (list obj) :=
  logged (table_orderBy_reverse Foods "createdAt").

Definition updateFoodUsageCount (id : ikey) : M (option obj) :=
  logged (food <- table_get Foods id ;;
          count <- member food "usageCount" ;;
          table_update Foods id
            [("usageCount", JS.add (JS.or count (VNum 0)) (VNum 1))] ;;;
          table_get Foods id).

Definition toggleFavorite (id : ikey) : M (option obj) :=
  logged (food <- table_get Foods id ;;
          favorite <- member food "isFavorite" ;;
          table_update Foods id [("isFavorite", JS.not favorite)] ;;;
          table_get Foods id).

(** *** Contact *)

Definition addContact (contactData : obj) : M obj :=
  logged (t <- now ;;
          let contact := stamp true t contactData in
          id <- table_add Contacts contact ;;
          ret (with_id id contact)).

Definition getAllContacts : M (list obj) :=
  logged (table_orderBy_reverse Contacts "usageCount").

Definition updateContactUsageCount (id : ikey) : M (option obj) :=
  logged (contact <- table_get Contacts id ;;
          t <- now ;;
          count <- member contact "usageCount" ;;
          table_update Contacts id
            [("usageCount", JS.add (JS.or count (VNum 0)) (VNum 1));
             ("updatedAt", VStr t)] ;;;
          table_get Contacts id).

(** *** Phrase *)

Definition addPhrase (phraseData : obj) : M obj :=
  logged (t <- now ;;
          let phrase := stamp true t phraseData in
          id <- table_add Phrases phrase ;;
          ret (with_id id phrase)).

Definition getAllPhrases : M (list obj) :=
  logged (table_orderBy_reverse Phrases "usageCount").

Definition updatePhraseUsageCount (id : ikey) : M (option obj) :=
  logged (phrase <- table_get Phrases id ;;
          t <- now ;;
          count <- member phrase "usageCount" ;;
          table_update Phrases id
            [("usageCount", JS.add (JS.or count (VNum 0)) (VNum 1));
             ("updatedAt", VStr t)] ;;;
          table_get Phrases id).

(** *** Order *)

Definition addOrder (orderData : obj) : M obj :=
  logged (t <- now ;;
          let order := stamp true t orderData in
          id <- table_add Orders order ;;
          ret (with_id id order)).

Definition getAllOrders : M (list obj) :=
  logged (table_orderBy_reverse Orders "orderDate").

Definition updateOrderStatus (id : ikey) (status : value) : M (option obj) :=
  logged (t <- now ;;
          table_update Orders id
            [("status", status); ("updatedAt", VStr t)] ;;;
          table_get Orders id).

(** *** Activity *)

Definition addActivity (activityData : obj) : M obj :=
  logged (t <- now ;;
          let activity := stamp false t activityData in
          id <- table_add Activities activity ;;
          ret (with_id id activity)).

Definition getAllActivities : M (list obj) :=
  logged (table_orderBy_reverse Activities "createdAt").

Definition updateActivityUsageCount (id : ikey) : M (option obj) :=
  logged (activity <- table_get Activities id ;;
          count <- member activity "usageCount" ;;
          table_update Activities id
            [("usageCount", JS.add (JS.or count (VNum 0)) (VNum 1))] ;;;
          table_get Activities id).

Definition toggleActivityActive (id : ikey) : M (option obj) :=
  logged (activity <- table_get Activities id ;;
          active <- member activity "isActive" ;;
          table_update Activities id [("isActive", JS.not active)] ;;;
          table_get Activities id).

(** *** Backup, restore, clear *)

(** The export file: six arrays. *)
Record snapshot : Type := Snapshot {
  x_emergencies : list obj;
  x_foods : list obj;
  x_contacts : list obj;
  x_phrases : list obj;
  x_orders : list obj;
  x_activities : list obj
}.

(** The argument of [importData]: for each collection, the array found
    at that property, or [None] when the property is missing, falsy or
    not an array. *)
Record import_file : Type := ImportFile {
  i_emergencies : option (list obj);
  i_foods : option (list obj);
  i_contacts : option (list obj);
  i_phrases : option (list obj);
  i_orders : option (list obj);
  i_activities : option (list obj)
}.

Definition of_snapshot (s : snapshot) : import_file :=
  ImportFile (Some (x_emergencies s)) (Some (x_foods s)) (Some (x_contacts s))
             (Some (x_phrases s)) (Some (x_orders s)) (Some (x_activities s)).

Definition exportData : M snapshot :=
  logged (emergencies <- table_toArray Emergencies ;;
          foods <- table_toArray Foods ;;
          contacts <- table_toArray Contacts ;;
          phrases <- table_toArray Phrases ;;
          orders <- table_toArray Orders ;;
          activities <- table_toArray Activities ;;
          ret (Snapshot emergencies foods contacts phrases orders activities)).

(** [if (data.x && Array.isArray(data.x)) await db.x.bulkAdd(data.x)] *)
Definition import_into (n : tname) (records : option (list obj)) : M unit :=
  match records with
  | Some os => table_bulkAdd n os
  | None => ret tt
  end.

Definition importData (data : import_file) : M bool :=
  logged (transaction
            (import_into Emergencies (i_emergencies data) ;;;
             import_into Foods (i_foods data) ;;;
             import_into Contacts (i_contacts data) ;;;
             import_into Phrases (i_phrases data) ;;;
             import_into Orders (i_orders data) ;;;
             import_into Activities (i_activities data)) ;;;
          ret true).

Definition clearAllData : M bool :=
  logged (table_clear Emergencies ;;;
          table_clear Foods ;;;
          table_clear Contacts ;;;
          table_clear Phrases ;;;
          table_clear Orders ;;;
          table_clear Activities ;;;
          ret true).

End Operations.

End Database.

(** ** [utils/initialDataLoader.js] *)

Module InitialDataLoader.

Import Dexie Database.
Local Open Scope js_scope.

Section Loader.

Variable h : host.

(** [fetch('/emergency.json')], the [response.ok] test and
    [response.json()]. *)
Definition fetch_emergency_json : M (list body_part) :=
  match emergency_json h with
  | Rejected e => throw e
  | Response ok json =>
      if ok then lift json else throw (Error "Failed to load emergency.json")
  end.

(** One element of [bodyPart.symptoms.map(...)]. *)
Definition symptom_item (s : symptom) : M value :=
  t <- now h ;;
  ret (VObj [("type", s_type s);
             ("description", s_description s);
             ("symptomImage", s_symptomImage s);
             ("icon", s_icon s);
             ("usageCount", VNum 0);
             ("createdAt", VStr t)]).

Fixpoint map_M {A B} (f : A -> M B) (l : list A) : M (list B) :=
  match l with
  | [] => ret []
  | a :: rest => b <- f a ;; bs <- map_M f rest ;; ret (b :: bs)
  end.

Definition emergency_item (bodyPart : body_part) (symptoms : list value) : obj :=
  <["name" := bp_name bodyPart]>
    (<["description" := bp_description bodyPart]>
       (<["bodyPartImage" := bp_bodyPartImage bodyPart]>
          (<["icon" := bp_icon bodyPart]>
             {[ "symptoms" := VArr symptoms ]}))).

(** The body of [for (const bodyPart of emergencyData.body_parts)]. *)
Definition load_body_part (bodyPart : body_part) : M unit :=
  symptoms <- map_M symptom_item (bp_symptoms bodyPart) ;;
  addEmergency h (emergency_item bodyPart symptoms) ;;;
  ret tt.

Fixpoint for_of {A} (l : list A) (body : A -> M unit) : M unit :=
  match l with
  | [] => ret tt
  | a :: rest => body a ;;; for_of rest body
  end.

Definition loadInitialEmergencyData : M unit :=
  logged (existingEmergencies <- getAllEmergencies ;;
          if (0 <? length existingEmergencies)%nat then ret tt
          else
            body_parts <- fetch_emergency_json ;;
            for_of body_parts load_body_part).

Definition loadAllInitialData : M unit :=
  logged loadInitialEmergencyData.

(** The error of a failed check is logged and dropped. *)
Definition checkAndLoadInitialData : M unit :=
  try_catch
    (emergencies <- getAllEmergencies ;;
     foods <- getAllFoods ;;
     contacts <- getAllContacts ;;
     phrases <- getAllPhrases ;;
     activities <- getAllActivities ;;
     if ((length emergencies =? 0) && (length foods =? 0) && (length contacts =? 0)
         && (length phrases =? 0) && (length activities =? 0))%nat
     then loadAllInitialData
     else ret tt)
    (fun _ => ret tt).

Definition resetAndReloadData : M unit :=
  logged (clearAllData ;;; loadAllInitialData).

End Loader.

End InitialDataLoader.

(** ** [utils/web-vitals.js], IndexedDB utilities: the store of
    user-uploaded images *)

Module IndexedDB.

Import Dexie Database.
Local Open Scope js_scope.

Section ImageStore.

Variable h : host.

(** [initDB()]: the store and its indexes are created on the first
    opening; opening may fail. *)
Definition initDB : M unit :=
  match idb_open h with
  | Some e => throw e
  | None => ret tt
  end.

(** [store.put(record)] on a store with key path [id]: a record whose
    [id] is not a key is refused with DataError; otherwise the record
    replaces whatever was stored under that key. *)
Definition store_put (record : obj) : M unit :=
  match as_key (prop record "id") with
  | None => throw DataError
  | Some k =>
      match idb_put h record with
      | Some e => throw e
      | None =>
          fun w => (Ok tt, World (db w) (<[k := record]> (userImages w))
                                 (reads w) (draws w))
      end
  end.

(** [store.get(id)], resolved as [request.result] or [null]. *)
Definition store_get (imageId : value) : M (option obj) :=
  match as_key imageId with
  | None => throw DataError
  | Some k =>
      match idb_get h with
      | Some e => throw e
      | None => fun w => (Ok (userImages w !! k), w)
      end
  end.

Definition storeUserImage (imageData : obj) : M value :=
  logged (initDB ;;;
          uploadDate <- now h ;;
          let imageRecord : obj :=
            <["id" := prop imageData "id"]>
            (<["type" := prop imageData "type"]>
            (<["base64Data" := prop imageData "base64Data"]>
            (<["originalName" := prop imageData "originalName"]>
            (<["uploadDate" := VStr uploadDate]>
            (<["size" := prop imageData "size"]>
            (<["bodyPartId" := prop imageData "bodyPartId"]>
            (<["symptomId" := prop imageData "symptomId"]>
            (<["contactId" := prop imageData "contactId"]>
            (<["foodId" := prop imageData "foodId"]>
            {[ "phraseId" := prop imageData "phraseId" ]}))))))))) in
          store_put imageRecord ;;;
          ret (prop imageData "id")).

(** Resolves to the record, or to [null] ([None]) when there is none. *)
Definition getUserImage (imageId : value) : M (option obj) :=
  logged (initDB ;;; store_get imageId).

(** [Date.now()] *)
Definition Date_now : M Z :=
  fun w => (Ok (clock h (reads w)), tick w).

(** [Math.random().toString(36).substring(2, 15)] *)
Definition random_suffix : M string :=
  fun w => (Ok (random36 h (draws w)), draw w).

Definition generateImageId (type identifier : value) : M string :=
  timestamp <- Date_now ;;
  random <- random_suffix ;;
  ret ("user_upload_" +:+ to_string type +:+ "_" +:+ to_string identifier
         +:+ "_" +:+ pretty timestamp +:+ "_" +:+ random).

(** [imagePath && imagePath.startsWith('user_upload_')] *)
Definition isUserUploadedImage (imagePath : value) : outcome value :=
  if truthy imagePath then
    match imagePath with
    | VStr s => Ok (VBool (startsWith "user_upload_" s))
    | _ => Threw (TypeError "imagePath.startsWith is not a function")
    end
  else Ok imagePath.

Definition getImageSource (imagePath : value) : M value :=
  uploaded <- lift (isUserUploadedImage imagePath) ;;
  if truthy uploaded then
    try_catch
      (imageData <- getUserImage imagePath ;;
       ret (match imageData with
            | Some record => prop record "base64Data"
            | None => VNull
            end))
      (fun _ => ret VNull)
  else ret imagePath.

End ImageStore.

End IndexedDB.

(** ** [components/ImageDisplay.jsx], [FileSystemImageUpload]: the upload
    pipeline *)

Module ImageUpload.

Import Dexie Database IndexedDB.
Local Open Scope js_scope.

Record validation : Type := Validation {
  isValid : bool;
  errors : list string
}.

Definition validateImageFile (file : blob) : validation :=
  let errors := [] in
  let errors := push_if (negb (startsWith "image/" (blob_type file)))
                        "File must be an image" errors in
  let maxSize := 5 * 1024 * 1024 in
  let errors := push_if (maxSize <? blob_size file)%Z
                        "File size must be less than 5MB" errors in
  Validation (length errors =? 0)%nat errors.

(** [v === 'literal'] *)
Definition is_string (v : value) (literal : string) : bool :=
  match v with
  | VStr s => String.eqb s literal
  | _ => false
  end.

(** What [processAndStoreImage] resolves to; the [compressionRatio]
    string, a rounded quotient, is left out. *)
Record stored : Type := Stored {
  imageId : string;
  data : string;
  originalSize : Z;
  compressedSize : Z
}.

Section Pipeline.

Variable h : host.

Definition processAndStoreImage (file : blob) (imageType identifier : value)
  : M stored :=
  logged (
    (if negb (startsWith "image/" (blob_type file))
     then throw (Error "File must be an image") else ret tt) ;;;
    let maxFileSize := 5 * 1024 * 1024 in
    (if (maxFileSize <? blob_size file)%Z
     then throw (Error ("File size must be less than "
                          +:+ pretty (maxFileSize / (1024 * 1024)) +:+ "MB"))
     else ret tt) ;;;
    processedFile <- (if (1 * 1024 * 1024 <? blob_size file)%Z
                      then lift (compress h file) else ret file) ;;
    base64Data <- lift (readAsDataURL h processedFile) ;;
    imageId <- generateImageId h imageType identifier ;;
    let owner (kind : string) : value :=
      if is_string imageType kind then identifier else VNull in
    let imageData : obj :=
      <["id" := VStr imageId]>
      (<["type" := imageType]>
      (<["base64Data" := VStr base64Data]>
      (<["originalName" := VStr (blob_name file)]>
      (<["size" := VNum (blob_size processedFile)]>
      (<["bodyPartId" := owner "bodypart"]>
      (<["symptomId" := owner "symptom"]>
      (<["contactId" := owner "contact"]>
      (<["foodId" := owner "food"]>
      {[ "phraseId" := owner "phrase" ]})))))))) in
    storeUserImage h imageData ;;;
    ret (Stored imageId base64Data (blob_size file) (blob_size processedFile))).

(** [error.message] *)
Definition message_of (e : exn) : string :=
  match e with
  | Error m | TypeError m | HostError m => m
  | ConstraintError => "ConstraintError"
  | DataError => "DataError"
  | BulkError _ => "BulkError"
  | ModifyError _ => "ModifyError"
  end.

(** [handleFile]: the component's handler.  It resolves to the id handed
    to [onChange], or to the message put into the error state. *)
Definition handleFile (file : blob) (imageType identifier : value)
  : M (string + string) :=
  try_catch
    (let validation := validateImageFile file in
     (if negb (isValid validation)
      then throw (Error (join ", " (errors validation))) else ret tt) ;;;
     (if negb (truthy imageType) || negb (truthy identifier)
      then throw (Error "Missing image type or identifier") else ret tt) ;;;
     result <- processAndStoreImage file imageType identifier ;;
     ret (inl (imageId result)))
    (fun error => ret (inr (message_of error))).

End Pipeline.

End ImageUpload.

(** ** [utils/database.js]: the reads by category *)

Module Queries.

Import Dexie Database.
Local Open Scope js_scope.

(** [table.where(field).equals(key).toArray()]: the records whose entry
    in the index on [field] has the key [key], in index order, which for
    one index key is the order of the primary keys.  The argument is a
    key; [getFavoriteFoods] and [getActiveActivities], which pass the
    boolean [true], are left out. *)
Definition where_equals (field : string) (key : ikey) (t : table) : list obj :=
  (filter (fun e : ikey * (ikey * obj) => e.1 = key)
          (merge_sort entry_le (index_entries field t))).*2.*2.

Definition table_where_equals (n : tname) (field : string) (key : ikey)
  : M (list obj) :=
  fun w => (Ok (where_equals field key (tbl n (db w))), w).

Definition getFoodsByCategory (category : ikey) : M (list obj) :=
  logged (table_where_equals Foods "category" category).

Definition getContactsByRelationship (relationship : ikey) : M (list obj) :=
  logged (table_where_equals Contacts "relationship" relationship).

Definition getPhrasesByCategory (category : ikey) : M (list obj) :=
  logged (table_where_equals Phrases "category" category).

Definition getOrdersByStatus (status : ikey) : M (list obj) :=
  logged (table_where_equals Orders "status" status).

Definition getActivitiesByCategory (category : ikey) : M (list obj) :=
  logged (table_where_equals Activities "category" category).

(** The read by category of each collection that has one, and the field
    it queries. *)
Definition byCategory (n : tname) : option (string * (ikey -> M (list obj))) :=
  match n with
  | Foods => Some ("category", getFoodsByCategory)
  | Contacts => Some ("relationship", getContactsByRelationship)
  | Phrases => Some ("category", getPhrasesByCategory)
  | Orders => Some ("status", getOrdersByStatus)
  | Activities => Some ("category", getActivitiesByCategory)
  | Emergencies => None
  end.

End Queries.

(** ** [utils/initialDataLoader.js], second part: the enum helpers *)

Module EnumUtils.

Import Database.

(** [s.replace(c, d)] with a one-character pattern: the first occurrence
    only. *)
Fixpoint replace_first (c d : ascii) (s : string) : string :=
  match s with
  | EmptyString => EmptyString
  | String x rest =>
      if Ascii.eqb x c then String d rest else String x (replace_first c d rest)
  end.

(** The class [\w]: ASCII letters, digits and the underscore. *)
Definition is_word (c : ascii) : bool :=
  let n := nat_of_ascii c in
  ((48 <=? n) && (n <=? 57) || (65 <=? n) && (n <=? 90)
   || (97 <=? n) && (n <=? 122) || (n =? 95))%nat.

(** [l.toUpperCase()] on a character matched by [\w]. *)
Definition upper (c : ascii) : ascii :=
  let n := nat_of_ascii c in
  if ((97 <=? n) && (n <=? 122))%nat then ascii_of_nat (n - 32) else c.

(** [s.replace(/\b\w/g, l => l.toUpperCase())]: a word character that
    follows the start of the text or a character that is not a word
    character is put in upper case.  [inside] tells whether the previous
    character was a word character. *)
Fixpoint capitalize_words (inside : bool) (s : string) : string :=
  match s with
  | EmptyString => EmptyString
  | String x rest =>
      String (if is_word x && negb inside then upper x else x)
             (capitalize_words (is_word x) rest)
  end.

Definition getDisplayName (value : string) : string :=
  capitalize_words false (replace_first "_" " " value).

(** An entry of a select component. *)
Record option_entry : Type := OptionEntry {
  o_value : string;
  o_label : string
}.

Definition getEnumOptions (enumArray : list string) (includeEmpty : bool)
  : list option_entry :=
  let options := List.map (fun v => OptionEntry v (getDisplayName v)) enumArray in
  if includeEmpty then OptionEntry "" "Select..." :: options else options.

Definition getContactRelationshipOptions (includeEmpty : bool) :=
  getEnumOptions CONTACT_RELATIONSHIPS includeEmpty.
Definition getContactGenderOptions (includeEmpty : bool) :=
  getEnumOptions CONTACT_GENDER includeEmpty.
Definition getFoodCategoryOptions (includeEmpty : bool) :=
  getEnumOptions FOOD_CATEGORIES includeEmpty.
Definition getPhraseCategoryOptions (includeEmpty : bool) :=
  getEnumOptions PHRASE_CATEGORIES includeEmpty.
Definition getOrderStatusOptions (includeEmpty : bool) :=
  getEnumOptions ORDER_STATUS includeEmpty.
Definition getActivityCategoryOptions (includeEmpty : bool) :=
  getEnumOptions ACTIVITY_CATEGORIES includeEmpty.
Definition getActivityFrequencyOptions (includeEmpty : bool) :=
  getEnumOptions ACTIVITY_FREQUENCY includeEmpty.

(** [enumArray.includes(value)], as [validateEnum] of [database.js]. *)
Definition isValidEnumValue (v : value) (enumArray : list string) : bool :=
  match v with
  | VStr s => bool_decide (s ∈ enumArray)
  | _ => false
  end.

End EnumUtils.

(** ** [utils/web-vitals.js], IndexedDB utilities: listing, deleting and
    measuring the image store *)

Module ImageStore.

Import Dexie Database IndexedDB.
Local Open Scope js_scope.

(** Why a delete, getAll or clear request fails, if it does. *)
Record faults : Type := Faults {
  idb_delete : option exn;
  idb_getAll : option exn;
  idb_clear : option exn
}.

Definition no_faults : faults := Faults None None None.

(** What [getStorageInfo] resolves to; [totalSizeMB], a rounded quotient
    rendered with two decimals, is left out. *)
Record storage_info : Type := StorageInfo {
  totalImages : nat;
  totalSize : value
}.

(** The object store seen as a table; its key generator is not used. *)
Definition as_table (images : gmap ikey obj) : table := Table images 0.

Section Store.

Variable h : host.
Variable f : faults.

(** [store.delete(key)]: a value that is not a key is refused with
    DataError; deleting under a key that is not present changes nothing. *)
Definition store_delete (imageId : value) : M unit :=
  match as_key imageId with
  | None => throw DataError
  | Some k =>
      match idb_delete f with
      | Some e => throw e
      | None =>
          fun w => (Ok tt, World (db w) (base.delete k (userImages w))
                                 (reads w) (draws w))
      end
  end.

(** [store.getAll()]: every record, by primary key. *)
Definition store_getAll : M (list obj) :=
  match idb_getAll f with
  | Some e => throw e
  | None => fun w => (Ok (toArray (as_table (userImages w))), w)
  end.

(** [index.getAll(query)]: with [undefined] or [null] every record of the
    index, with a key the records indexed under it, in index order; any
    other value is refused with DataError. *)
Definition index_getAll (field : string) (query : value) : M (list obj) :=
  match query with
  | VUndef | VNull =>
      match idb_getAll f with
      | Some e => throw e
      | None => fun w => (Ok (orderBy field (as_table (userImages w))), w)
      end
  | _ =>
      match as_key query with
      | None => throw DataError
      | Some k =>
          match idb_getAll f with
          | Some e => throw e
          | None =>
              fun w => (Ok (Queries.where_equals field k (as_table (userImages w))), w)
          end
      end
  end.

Definition store_clear : M unit :=
  match idb_clear f with
  | Some e => throw e
  | None => fun w => (Ok tt, World (db w) ∅ (reads w) (draws w))
  end.

Definition getImagesByBodyPart (bodyPartId : value) : M (list obj) :=
  logged (initDB h ;;; index_getAll "bodyPartId" bodyPartId).

Definition getAllUserImages : M (list obj) :=
  logged (initDB h ;;; store_getAll).

Definition deleteUserImage (imageId : value) : M bool :=
  logged (initDB h ;;; store_delete imageId ;;; ret true).

(** [images.reduce((sum, img) => sum + (img.size || 0), 0)] *)
Definition sum_sizes (images : list obj) : value :=
  fold_left (fun sum img => JS.add sum (JS.or (prop img "size") (VNum 0)))
            images (VNum 0).

Definition getStorageInfo : M storage_info :=
  logged (initDB h ;;;
          images <- store_getAll ;;
          ret (StorageInfo (length images) (sum_sizes images))).

Definition clearAllUserImages : M bool :=
  logged (initDB h ;;; store_clear ;;; ret true).

End Store.

End ImageStore.

(** ** The components around the image store *)

Module Components.

Import Dexie Database IndexedDB ImageStore.
Local Open Scope js_scope.

(** *** [components/ImageDisplay.jsx], [ImageDisplay] *)

(** The state of the component: [imageSrc], [loading], [error]. *)
Record display : Type := Display {
  imageSrc : value;
  loading : bool;
  error : bool
}.

(** [useState(null)], [useState(true)], [useState(false)]. *)
Definition mounted : display := Display VNull true false.

(** What the component renders. *)
Inductive rendering : Type :=
  | Spinner
  | Fallback
  | Img (src : value).

Definition render (s : display) : rendering :=
  if loading s then Spinner
  else if error s || negb (truthy (imageSrc s)) then Fallback
  else Img (imageSrc s).

Section Display.

Variable h : host.

(** The effect run when [imagePath] changes, from the state [s]. *)
Definition loadImage (imagePath : value) (s : display) : M display :=
  if negb (truthy imagePath) then ret (Display (imageSrc s) false (error s))
  else
    try_catch
      (source <- getImageSource h imagePath ;;
       if truthy source
       then ret (Display source false false)
       else ret (Display (imageSrc s) false true))
      (fun _ => ret (Display (imageSrc s) false true)).

End Display.

(** *** [components/StorageManager.jsx] *)

(** The state of the component: [storageInfo], [userImages], [error]. *)
Record manager : Type := Manager {
  storageInfo : option storage_info;
  images : list obj;
  problem : option string
}.

Section Manager.

Variable h : host.
Variable f : faults.

(** [loadStorageInfo]: the state setters run one after the other, so a
    failure of the listing leaves the fresh [storageInfo] beside the old
    list. *)
Definition loadStorageInfo (s : manager) : M manager :=
  fun w =>
    match getStorageInfo h f w with
    | (Threw _, w1) =>
        (Ok (Manager (storageInfo s) (images s)
                     (Some "Failed to load storage information")), w1)
    | (Ok info, w1) =>
        match getAllUserImages h f w1 with
        | (Threw _, w2) =>
            (Ok (Manager (Some info) (images s)
                         (Some "Failed to load storage information")), w2)
        | (Ok images, w2) => (Ok (Manager (Some info) images None), w2)
        end
    end.

Definition handleDeleteImage (imageId : value) (s : manager) : M manager :=
  try_catch
    (deleteUserImage h f imageId ;;;
     loadStorageInfo s)
    (fun _ => ret (Manager (storageInfo s) (images s)
                           (Some "Failed to delete image"))).

Definition handleClearAllImages (s : manager) : M manager :=
  try_catch
    (clearAllUserImages h f ;;;
     loadStorageInfo s)
    (fun _ => ret (Manager (storageInfo s) (images s)
                           (Some "Failed to clear images"))).

End Manager.

(** *** [components/ImageUpload.jsx] *)

Definition acceptedTypes : list string :=
  ["image/jpeg"; "image/jpg"; "image/png"; "image/gif"; "image/bmp";
   "image/webp"; "image/svg+xml"; "image/tiff"; "image/x-icon";
   "image/vnd.microsoft.icon"; "image/heic"; "image/heif"; "image/avif"].

(** What [handleFile] of [ImageUpload] does with a file: it sets the
    error, or hands the data URL to [onChange], or, when the reader
    fails, neither. *)
Inductive picked : Type :=
  | Refused (message : string)
  | Chosen (dataURL : string)
  | Nothing.

(** [Math.round(maxSize / 1024 / 1024)] for an integer [maxSize]: the two
    divisions by powers of two are exact. *)
Definition rounded_megabytes (maxSize : Z) : Z :=
  (2 * maxSize + 1024 * 1024) / (2 * 1024 * 1024).

Definition pick (h : host) (accepted : list string) (maxSize : Z) (file : blob)
  : picked :=
  if negb (bool_decide (blob_type file ∈ accepted))
  then Refused "Please select a valid image file (JPG, PNG, GIF, BMP, WebP, SVG, TIFF, ICO, HEIC, AVIF, etc.)"
  else if (maxSize <? blob_size file)%Z
  then Refused ("File size must be less than " +:+ pretty (rounded_megabytes maxSize) +:+ "MB")
  else match readAsDataURL h file with
       | Ok url => Chosen url
       | Threw _ => Nothing
       end.

End Components.

(** ** The Entity Store as a state machine *)

Module Machine.

Import Dexie Database InitialDataLoader IndexedDB ImageUpload ImageStore.

(** The operations that can write to the six collections.  The reads
    ([getAll...], [get...By...], [exportData]) leave the world as it is
    and are not listed. *)
Inductive op : Type :=
  | AddEmergency (data : obj)
  | UpdateEmergency (id : ikey) (patch : changes)
  | DeleteEmergency (id : ikey)
  | AddFood (data : obj)
  | UpdateFoodUsageCount (id : ikey)
  | ToggleFavorite (id : ikey)
  | AddContact (data : obj)
  | UpdateContactUsageCount (id : ikey)
  | AddPhrase (data : obj)
  | UpdatePhraseUsageCount (id : ikey)
  | AddOrder (data : obj)
  | UpdateOrderStatus (id : ikey) (status : value)
  | AddActivity (data : obj)
  | UpdateActivityUsageCount (id : ikey)
  | ToggleActivityActive (id : ikey)
  | ImportData (data : import_file)
  | ClearAllData
  | CheckAndLoadInitialData
  | ResetAndReloadData.

(** The world an operation leaves behind, whether it resolves or
    rejects. *)
Definition exec (h : host) (o : op) (w : world) : world :=
  match o with
  | AddEmergency data => (addEmergency h data w).2
  | UpdateEmergency id patch => (updateEmergency id patch w).2
  | DeleteEmergency id => (deleteEmergency id w).2
  | AddFood data => (addFood h data w).2
  | UpdateFoodUsageCount id => (updateFoodUsageCount id w).2
  | ToggleFavorite id => (toggleFavorite id w).2
  | AddContact data => (addContact h data w).2
  | UpdateContactUsageCount id => (updateContactUsageCount h id w).2
  | AddPhrase data => (addPhrase h data w).2
  | UpdatePhraseUsageCount id => (updatePhraseUsageCount h id w).2
  | AddOrder data => (addOrder h data w).2
  | UpdateOrderStatus id status => (updateOrderStatus h id status w).2
  | AddActivity data => (addActivity h data w).2
  | UpdateActivityUsageCount id => (updateActivityUsageCount id w).2
  | ToggleActivityActive id => (toggleActivityActive id w).2
  | ImportData data => (importData data w).2
  | ClearAllData => (clearAllData w).2
  | CheckAndLoadInitialData => (checkAndLoadInitialData h w).2
  | ResetAndReloadData => (resetAndReloadData h w).2
  end.

(** [updateEmergency] is the one operation that takes free-form
    changes.  They reach [createdAt] when one of their names, read as a
    key path, starts at [createdAt]. *)
Definition reaches (field : string) (cs : changes) : Prop :=
  field ∈ (fun c => head_name c.1) <$> cs.

Definition patches_createdAt (o : op) : Prop :=
  match o with
  | UpdateEmergency _ patch => reaches "createdAt" patch
  | _ => False
  end.

(** The calls of the image store and of the upload pipeline. *)
Inductive image_op : Type :=
  | StoreUserImage (imageData : obj)
  | GetUserImage (imageId : value)
  | GetImagesByBodyPart (bodyPartId : value)
  | GetAllUserImages
  | DeleteUserImage (imageId : value)
  | GetStorageInfo
  | ClearAllUserImages
  | GetImageSource (imagePath : value)
  | ProcessAndStoreImage (file : blob) (imageType identifier : value)
  | HandleFile (file : blob) (imageType identifier : value).

(** The world such a call leaves behind, whether it resolves or rejects. *)
Definition image_exec (h : host) (f : faults) (o : image_op) (w : world) : world :=
  match o with
  | StoreUserImage imageData => (storeUserImage h imageData w).2
  | GetUserImage imageId => (getUserImage h imageId w).2
  | GetImagesByBodyPart bodyPartId => (getImagesByBodyPart h f bodyPartId w).2
  | GetAllUserImages => (getAllUserImages h f w).2
  | DeleteUserImage imageId => (deleteUserImage h f imageId w).2
  | GetStorageInfo => (getStorageInfo h f w).2
  | ClearAllUserImages => (clearAllUserImages h f w).2
  | GetImageSource imagePath => (getImageSource h imagePath w).2
  | ProcessAndStoreImage file imageType identifier =>
      (processAndStoreImage h file imageType identifier w).2
  | HandleFile file imageType identifier =>
      (handleFile h file imageType identifier w).2
  end.

(** The worlds that the calls of the entity store and of the image
    store produce from a fresh installation. *)
Inductive reachable (h : host) : world -> Prop :=
  | reach_initial : reachable h initial
  | reach_exec o w : reachable h w -> reachable h (exec h o w)
  | reach_image f o w : reachable h w -> reachable h (image_exec h f o w).

(** Inbound keys: a record carries its primary key in [id]; and the key
    generator is ahead of every numeric key in use. *)
Definition wf_table (t : table) : Prop :=
  (forall k o, rows t !! k = Some o -> o !! "id" = Some (key_value k))
  /\ (forall n, is_Some (rows t !! KNum n) -> (n < next_key t)%Z).

Definition wf_db (d : DB) : Prop := forall n, wf_table (tbl n d).

(** The records of a collection, in no particular order. *)
Definition records (n : tname) (w : world) : list obj :=
  (map_to_list (rows (tbl n (db w)))).*2.

(** [a] comes before [b] in a listing by [field], highest first: both
    hold a key in [field], and [b]'s is not above [a]'s. *)
Definition desc_by (field : string) (a b : obj) : Prop :=
  exists ka kb, as_key (prop a field) = Some ka
                /\ as_key (prop b field) = Some kb
                /\ key_le kb ka.

(** The record holds a key in [field], so the index on [field] lists it. *)
Definition indexed (field : string) (o : obj) : Prop :=
  is_Some (as_key (prop o field)).

Global Instance indexed_dec field o : Decision (indexed field o).
Proof. unfold indexed; apply _. Defined.

(** The [getAll] operation of each collection and its sort field. *)
Definition getAll (n : tname) : M (list obj) :=
  match n with
  | Emergencies => getAllEmergencies
  | Foods => getAllFoods
  | Contacts => getAllContacts
  | Phrases => getAllPhrases
  | Orders => getAllOrders
  | Activities => getAllActivities
  end.

Definition sort_field (n : tname) : string :=
  match n with
  | Emergencies | Foods | Activities => "createdAt"
  | Contacts | Phrases => "usageCount"
  | Orders => "orderDate"
  end.

(** The usage-count operation of the collections that have one. *)
Definition incrementUsage (h : host) (n : tname)
  : option (ikey -> M (option obj)) :=
  match n with
  | Foods => Some updateFoodUsageCount
  | Contacts => Some (updateContactUsageCount h)
  | Phrases => Some (updatePhraseUsageCount h)
  | Activities => Some updateActivityUsageCount
  | Emergencies | Orders => None
  end.

(** [exportData], then [clearAllData], then [importData] of what was
    exported. *)
Definition round_trip : M bool :=
  bind exportData (fun snapshot =>
  bind clearAllData (fun _ =>
  importData (of_snapshot snapshot))).

(** A seeded emergency record without what differs from one seeding to
    the next: the generated [id], [createdAt], and the [createdAt] of
    each symptom. *)
Definition plain_symptom (v : value) : value :=
  match v with
  | VObj props => VObj (List.filter (fun p => negb (String.eqb p.1 "createdAt")) props)
  | _ => v
  end.

Definition plain (o : obj) : obj :=
  let o := base.delete "id" (base.delete "createdAt" o) in
  match o !! "symptoms" with
  | Some (VArr l) => <["symptoms" := VArr (List.map plain_symptom l)]> o
  | _ => o
  end.

(** The patches written by the usage-count operations, the toggles and
    [updateOrderStatus], given the record [o] that [get] resolved to and
    the time stamp [t]. *)
Definition usage_patch (o : obj) : obj :=
  {[ "usageCount" := JS.add (JS.or (prop o "usageCount") (VNum 0)) (VNum 1) ]}.

Definition stamped_usage_patch (t : string) (o : obj) : obj :=
  <["usageCount" := JS.add (JS.or (prop o "usageCount") (VNum 0)) (VNum 1)]>
    {[ "updatedAt" := VStr t ]}.

Definition toggle_patch (field : string) (o : obj) : obj :=
  {[ field := JS.not (prop o field) ]}.

Definition status_patch (t : string) (status : value) : obj :=
  <["status" := status]> {[ "updatedAt" := VStr t ]}.

(** The TypeError of [record.field] when [record] is [undefined]. *)
Definition undefined_read (field : string) : exn :=
  TypeError ("Cannot read properties of undefined (reading '" +:+ field +:+ "')").

(** What changes under plain names (no period in them) do to a record,
    the changes given as a record themselves: a property changed to
    [undefined] is removed, unless the record holds [undefined] there
    already; any other value is assigned. *)
Definition apply_patch (patch o : obj) : obj :=
  merge (fun p x => match p with
                    | Some VUndef => match x with
                                     | Some VUndef => x
                                     | _ => None
                                     end
                    | Some v => Some v
                    | None => x
                    end) patch o.

Definition patched (k : ikey) (patch : obj) (t : table) : table :=
  match rows t !! k with
  | Some o => Table (<[k := apply_patch patch o]> (rows t)) (next_key t)
  | None => t
  end.

(** The world after [db.<n>.update(id, patch)] for such changes. *)
Definition updated (n : tname) (id : ikey) (patch : obj) (w : world) : world :=
  set_db (set_tbl n (patched id patch (tbl n (db w))) (db w)) w.

(** A name that is a key path of its own, and the changes under such
    names, no name twice. *)
Definition plain_name (name : string) : Prop :=
  lacks "." name = true /\ name <> "__proto__".

Definition plain_changes (cs : changes) : Prop :=
  NoDup cs.*1 /\ Forall plain_name cs.*1.

(** The time stamp that the next reading of the clock produces. *)
Definition stamp_of (h : host) (w : world) : string :=
  toISOString h (clock h (reads w)).

(** The [add] operation of each collection. *)
Definition adder (h : host) (n : tname) : obj -> M obj :=
  match n with
  | Emergencies => addEmergency h
  | Foods => addFood h
  | Contacts => addContact h
  | Phrases => addPhrase h
  | Orders => addOrder h
  | Activities => addActivity h
  end.

(** Contacts, phrases and orders are stamped with [updatedAt]. *)
Definition has_updatedAt (n : tname) : bool :=
  match n with
  | Contacts | Phrases | Orders => true
  | Emergencies | Foods | Activities => false
  end.

(** [m] maintains the property [P] of the database, whether it resolves
    or rejects. *)
Definition inv (P : DB -> Prop) {A} (m : M A) : Prop :=
  forall w, P (db w) -> P (db (m w).2).

(** What seeding stores for a body part of the seed document, without
    the generated [id] and the [createdAt] stamps. *)
Definition seed_symptom (s : symptom) : value :=
  VObj [("type", s_type s);
        ("description", s_description s);
        ("symptomImage", s_symptomImage s);
        ("icon", s_icon s);
        ("usageCount", VNum 0)].

Definition seed_item (bodyPart : body_part) : obj :=
  emergency_item bodyPart (List.map seed_symptom (bp_symptoms bodyPart)).

(** Every key of the table is a number from [lo] up to, and not
    including, the key generator's. *)
Definition between (lo : Z) (t : table) : Prop :=
  (lo <= next_key t)%Z
  /\ forall k, is_Some (rows t !! k) ->
               exists m, k = KNum m /\ (lo <= m < next_key t)%Z.

(** How [resetAndReloadData] ends, which the seed file alone decides. *)
Definition reset_outcome (h : host) : outcome unit :=
  match emergency_json h with
  | Rejected e => Threw e
  | Response false _ => Threw (Error "Failed to load emergency.json")
  | Response true (Threw e) => Threw e
  | Response true (Ok _) => Ok tt
  end.

(** Every record of [d0] is still in [d], unchanged. *)
Definition grown (d0 d : DB) : Prop :=
  forall n, rows (tbl n d0) ⊆ rows (tbl n d).

(** The operations that only add records. *)
Definition adds_only (o : op) : Prop :=
  match o with
  | AddEmergency _ | AddFood _ | AddContact _ | AddPhrase _ | AddOrder _
  | AddActivity _ | ImportData _ | CheckAndLoadInitialData => True
  | _ => False
  end.

End Machine.

(** ** Concrete hosts and inputs *)

Module Examples.

Import Dexie Database InitialDataLoader IndexedDB ImageUpload Machine.

(** [toISOString] on the instants of the first second of 1970. *)
Definition pad3 (n : Z) : string :=
  if (n <? 10)%Z then "00" +:+ pretty n
  else if (n <? 100)%Z then "0" +:+ pretty n
  else pretty n.

Definition iso_1970 (ms : Z) : string :=
  "1970-01-01T00:00:00." +:+ pad3 (ms mod 1000) +:+ "Z".

Definition head_part : body_part :=
  BodyPart (VStr "Head") (VStr "Head and face") (VStr "/image/head.png")
           (VStr "head")
           [Symptom (VStr "Headache") (VStr "Pain in the head")
                    (VStr "/image/headache.png") (VStr "ache")].

(** A host whose clock advances by one millisecond per reading. *)
Definition ticking : host :=
  Host_ (fun k => Z.of_nat k) iso_1970 (fun k => "k" +:+ pretty k)
        (Response true (Ok [head_part])) None None (fun _ => None)
        (fun b => Ok (Blob (blob_name b) "image/jpeg" (blob_size b / 2) (blob_data b)))
        (fun b => Ok ("data:" +:+ blob_type b +:+ ";base64," +:+ blob_data b)).

(** A host whose clock stands still and whose random source repeats. *)
Definition frozen : host :=
  Host_ (fun _ => 0%Z) iso_1970 (fun _ => "abc123")
        (Response true (Ok [head_part])) None None (fun _ => None)
        (fun b => Ok b)
        (fun b => Ok ("data:" +:+ blob_type b +:+ ";base64," +:+ blob_data b)).

Definition mom : obj :=
  {[ "name" := VStr "Mom"; "relationship" := VStr "family";
     "gender" := VStr "female"; "phoneNumber" := VStr "5551234" ]}.

Definition pizza : obj :=
  {[ "name" := VStr "Pizza"; "category" := VStr "fastfood" ]}.

Definition soup : obj :=
  {[ "name" := VStr "Soup"; "category" := VStr "lunch"; "usageCount" := VNum 4 ]}.

Definition six_megabytes : blob :=
  Blob "big.png" "image/png" (6 * 1024 * 1024) "...".

Definition soup_world : world := (addFood ticking soup initial).2.

(** A food whose usage count has reached 2^53. *)
Definition staple : obj :=
  {[ "name" := VStr "Rice"; "category" := VStr "lunch"; "usageCount" := VNum (2 ^ 53) ]}.

Definition staple_world : world := (addFood ticking staple initial).2.

Definition staple_stored : obj :=
  with_id (KNum 1) (stamp false (stamp_of ticking initial) staple).

Definition misfit : obj :=
  {[ "name" := VStr "Bob"; "relationship" := VStr "stranger";
     "gender" := VStr "unknown"; "category" := VStr "fastfood" ]}.

Definition slang : obj :=
  {[ "text" := VStr "Yo"; "category" := VStr "slang" ]}.

Definition lost_order : obj :=
  {[ "orderNumber" := VStr "A1"; "status" := VStr "lost" ]}.

Definition lost_order_world : world := (addOrder ticking lost_order initial).2.

Definition small_png : blob := Blob "mom.png" "image/png" (2 * 1024 * 1024) "xyz".

(** One contact image has been uploaded. *)
Definition image_world : world :=
  (processAndStoreImage ticking small_png (VStr "contact") (VNum 1) initial).2.

(** A host on which IndexedDB cannot be opened. *)
Definition broken : host :=
  Host_ (fun k => Z.of_nat k) iso_1970 (fun k => "k" +:+ pretty k)
        (Rejected (HostError "Failed to fetch"))
        (Some (HostError "IndexedDB is not available")) None (fun _ => None)
        (fun b => Ok b)
        (fun b => Ok ("data:" +:+ blob_type b +:+ ";base64," +:+ blob_data b)).

(** Mom has been added as a contact. *)
Definition mom_world : world := (addContact ticking mom initial).2.

(** Mom has been added and then used once. *)
Definition visited : world :=
  exec ticking (UpdateContactUsageCount (KNum 1))
       (exec ticking (AddContact mom) initial).

(** A fresh installation after one reset: the seed file has been loaded. *)
Definition seeded : world := exec ticking ResetAndReloadData initial.

(** The same after a second reset. *)
Definition seeded_twice : world := exec ticking ResetAndReloadData seeded.

(** Changes that rewrite the creation stamp: under its name, and under
    the key path that ends in a period after it. *)
Definition backdate : changes :=
  [("createdAt", VStr "2000-01-01T00:00:00.000Z")].

Definition backdate_by_path : changes :=
  [("createdAt.", VStr "2000-01-01T00:00:00.000Z")].

(** Mom as stored by [addContact], and as stored after one use. *)
Definition mom_stored : obj :=
  with_id (KNum 1) (stamp true (stamp_of ticking initial) mom).

Definition mom_used : obj :=
  apply_patch (stamped_usage_patch (stamp_of ticking mom_world) mom_stored) mom_stored.

Definition used_three_times : world :=
  exec ticking (UpdateContactUsageCount (KNum 1))
    (exec ticking (UpdateContactUsageCount (KNum 1)) visited).

End Examples.

(** ** Notions used to state further properties of the code *)

Module Notions.

Import Dexie Database InitialDataLoader IndexedDB ImageUpload Queries
       ImageStore Components Machine.

(** [a] comes before [b] in a listing by primary key, lowest first. *)
Definition asc_id (a b : obj) : Prop :=
  exists ka kb, a !! "id" = Some (key_value ka)
                /\ b !! "id" = Some (key_value kb)
                /\ key_le ka kb.

(** The record holds the key [key] in [field]. *)
Definition holds (field : string) (key : ikey) (o : obj) : Prop :=
  as_key (prop o field) = Some key.

Global Instance holds_dec field key o : Decision (holds field key o).
Proof. unfold holds; apply _. Defined.

(** The world after [N] calls of [m], one after the other. *)
Definition calls {A} (N : nat) (m : M A) (w : world) : world :=
  Nat.iter N (fun w => (m w).2) w.

(** The toggle of the collections that have one, and the flag it flips. *)
Definition toggler (n : tname) : option (string * (ikey -> M (option obj))) :=
  match n with
  | Foods => Some ("isFavorite", toggleFavorite)
  | Activities => Some ("isActive", toggleActivityActive)
  | _ => None
  end.

(** The array of a collection in an export file. *)
Definition exported (n : tname) (s : snapshot) : list obj :=
  match n with
  | Emergencies => x_emergencies s
  | Foods => x_foods s
  | Contacts => x_contacts s
  | Phrases => x_phrases s
  | Orders => x_orders s
  | Activities => x_activities s
  end.

(** [m] leaves what [view] shows of the world as it is, whether it
    resolves or rejects. *)
Definition keeps {A B} (view : world -> B) (m : M A) : Prop :=
  forall w, view (m w).2 = view w.

(** What [getAll] resolves to. *)
Definition listing (n : tname) (w : world) : list obj :=
  Dexie.reverse (orderBy (sort_field n) (tbl n (db w))).

(** The test of [checkAndLoadInitialData]: the five listings it reads are
    empty.  Orders are not looked at. *)
Definition nothing_listed (w : world) : bool :=
  ((length (listing Emergencies w) =? 0) && (length (listing Foods w) =? 0)
   && (length (listing Contacts w) =? 0) && (length (listing Phrases w) =? 0)
   && (length (listing Activities w) =? 0))%nat.

(** Every emergency holds a key in [createdAt], so that
    [getAllEmergencies] lists it. *)
Definition emergencies_listed (d : DB) : Prop :=
  forall k o, rows (emergencies d) !! k = Some o -> indexed "createdAt" o.

(** How often the character [c] occurs in [s]. *)
Fixpoint occurrences (c : ascii) (s : string) : nat :=
  match s with
  | EmptyString => O
  | String x rest => ((if Ascii.eqb x c then 1 else 0) + occurrences c rest)%nat
  end.

(** A value that [v?.trim()] turns into a non-empty string. *)
Definition filled (v : value) : Prop := exists s, v = VStr s /\ trim s <> "".

(** The properties that [storeUserImage] copies from its argument; the
    record it stores has these and [uploadDate], and no other. *)
Definition copied_fields : list string :=
  ["id"; "type"; "base64Data"; "originalName"; "size"; "bodyPartId"; "symptomId";
   "contactId"; "foodId"; "phraseId"].

(** The image types of the upload pipeline and the property that names
    the owner of an image of that type. *)
Definition owner_fields : list (string * string) :=
  [("bodypart", "bodyPartId"); ("symptom", "symptomId"); ("contact", "contactId");
   ("food", "foodId"); ("phrase", "phraseId")].

(** The bytes of a list of images whose [size] is a number. *)
Definition total_bytes (images : list obj) : Z :=
  foldr (fun img sum => match prop img "size" with
                        | VNum n => (n + sum)%Z
                        | _ => sum
                        end) 0%Z images.

(** The world after a successful [store.put] of [record] under [k], the
    clock having been read once. *)
Definition put_world (k : ikey) (record : obj) (w : world) : world :=
  World (db w) (<[k := record]> (userImages w)) (S (reads w)) (draws w).

(** How a bulk call fails: some keys were taken, or an [id] was not a
    key. *)
Definition import_failure (e : exn) : Prop :=
  e = DataError \/ exists k, e = BulkError (S k).

(** What an import step does to the world: the database alone changes,
    and a failure is one of a bulk call. *)
Definition bulk_step (m : M unit) : Prop :=
  forall w, (exists d, m w = (Ok tt, set_db d w))
            \/ (exists e d, import_failure e /\ m w = (Threw e, set_db d w)).

End Notions.

(** * Facts about the model *)

(** ** Tables and patches *)

Module DexieFacts.

Import Dexie Database Machine.

Lemma tbl_set_tbl_eq n t d : tbl n (set_tbl n t d) = t.
Proof. destruct n; reflexivity. Qed.

Lemma tbl_set_tbl_ne n m t d : n <> m -> tbl m (set_tbl n t d) = tbl m d.
Proof. destruct n, m; intros Hne; try reflexivity; congruence. Qed.

Lemma tbl_set_tbl n m t d :
  tbl m (set_tbl n t d) = if decide (n = m) then t else tbl m d.
Proof.
  destruct (decide (n = m)) as [->|Hne].
  - apply tbl_set_tbl_eq.
  - apply tbl_set_tbl_ne; assumption.
Qed.

Lemma set_tbl_same n d : set_tbl n (tbl n d) d = d.
Proof. destruct n, d; reflexivity. Qed.

Lemma set_db_same w : set_db (db w) w = w.
Proof. destruct w; reflexivity. Qed.

Lemma ikey_nested_ind (P : ikey -> Prop) :
  (forall n, P (KNum n)) -> (forall s, P (KStr s)) ->
  (forall l, Forall P l -> P (KArr l)) -> forall k, P k.
Proof.
  intros Hn Hs Ha. fix go 1. intros [n|s|l]; [apply Hn | apply Hs |].
  apply Ha. induction l as [|x l IH]; constructor; [apply go | exact IH].
Qed.

Lemma as_key_cons x rest :
  as_key (VArr (x :: rest)) =
  match as_key x, as_key (VArr rest) with
  | Some k, Some (KArr ks) => Some (KArr (k :: ks))
  | _, _ => None
  end.
Proof.
  simpl. destruct (as_key x); [|reflexivity].
  match goal with |- context [option_map KArr (?f rest)] => destruct (f rest) end;
    reflexivity.
Qed.

Lemma as_key_array l k : as_key (VArr l) = Some k -> exists ks, k = KArr ks.
Proof.
  simpl. match goal with |- context [option_map KArr ?x] => destruct x end;
    simpl; intros H; inversion H. eauto.
Qed.

(** A valid key is the value it came from. *)
Lemma as_key_inv v k : as_key v = Some k -> v = key_value k.
Proof.
  revert v. induction k as [n|s|ks IH] using ikey_nested_ind; intros v Hv.
  - destruct v; try discriminate Hv.
    + inversion Hv. reflexivity.
    + apply as_key_array in Hv as [? ?]. discriminate.
  - destruct v; try discriminate Hv.
    + inversion Hv. reflexivity.
    + apply as_key_array in Hv as [? ?]. discriminate.
  - destruct v as [| | | | |s|l|]; try discriminate Hv.
    simpl. f_equal. revert l Hv.
    induction IH as [|k ks Hk _ IHks]; intros [|x l] Hv.
    + reflexivity.
    + rewrite as_key_cons in Hv.
      destruct (as_key x); [|discriminate].
      destruct (as_key (VArr l)) as [[]|]; discriminate.
    + discriminate.
    + rewrite as_key_cons in Hv.
      destruct (as_key x) as [k'|] eqn:Hx; [|discriminate].
      destruct (as_key (VArr l)) as [[| |ks']|] eqn:Hl; try discriminate.
      inversion Hv; subst k' ks'. simpl.
      rewrite (Hk x Hx), (IHks l Hl). reflexivity.
Qed.

Lemma as_key_key_value k : as_key (key_value k) = Some k.
Proof.
  induction k as [n|s|ks IH] using ikey_nested_ind; [reflexivity|reflexivity|].
  induction IH as [|k ks Hk _ IHks]; [reflexivity|].
  change (key_value (KArr (k :: ks))) with (VArr (key_value k :: List.map key_value ks)).
  rewrite as_key_cons, Hk.
  change (VArr (List.map key_value ks)) with (key_value (KArr ks)).
  rewrite IHks. reflexivity.
Qed.

Lemma key_value_defined k : key_value k <> VUndef.
Proof. destruct k; discriminate. Qed.

Lemma to_double_small z : Z.abs z <= 2 ^ 53 -> to_double z = z.
Proof.
  intros Hz. unfold to_double.
  destruct (Z.eq_dec (Z.abs z) (2 ^ 53)) as [Heq|Hne].
  - assert (Hcases : z = 2 ^ 53 \/ z = - 2 ^ 53) by lia.
    destruct Hcases as [-> | ->]; vm_compute; reflexivity.
  - assert (Hlog : Z.log2 (Z.abs z) < 53).
    { destruct (Z.eq_dec (Z.abs z) 0) as [H0|H0].
      - rewrite H0. simpl. lia.
      - apply Z.log2_lt_pow2; lia. }
    destruct (Z.leb_spec (Z.log2 (Z.abs z) + 1 - 53) 0) as [_|Hgt]; [reflexivity|lia].
Qed.

Lemma increment_number c :
  JS.add (JS.or (VNum c) (VNum 0)) (VNum 1) = VNum (to_double (c + 1)).
Proof.
  unfold JS.or. simpl. destruct (Z.eqb_spec c 0) as [->|Hc]; reflexivity.
Qed.

Lemma segments_plain f : lacks "." f = true -> segments f = [f].
Proof.
  induction f as [|c f IH]; simpl; [reflexivity|].
  intros Hl. apply andb_prop in Hl as [Hc Hf].
  apply negb_true_iff in Hc. rewrite Hc, (IH Hf). reflexivity.
Qed.

Lemma assign_top_ne name x (o : obj) f :
  name <> f -> assign_top name x o !! f = o !! f.
Proof.
  intros Hne. unfold assign_top.
  destruct x; try (rewrite lookup_delete_ne by assumption; reflexivity);
    (destruct (_ && _); [reflexivity | rewrite lookup_insert_ne by assumption; reflexivity]).
Qed.

Lemma setByKeyPath_frame keyPath x (o : obj) f :
  head_name keyPath <> f -> setByKeyPath keyPath x o !! f = o !! f.
Proof.
  unfold head_name, setByKeyPath.
  destruct (segments keyPath) as [|name [|next more]]; simpl; intros Hne;
    [reflexivity | apply assign_top_ne; assumption |].
  destruct next, more; apply assign_top_ne; assumption.
Qed.

Lemma change_frame (o : obj) c f :
  head_name c.1 <> f -> change o c !! f = o !! f.
Proof.
  intros Hne. unfold change.
  destruct (getByKeyPath o c.1) as [y|]; [destruct (same y c.2); [reflexivity|]|];
    apply setByKeyPath_frame; assumption.
Qed.

Lemma modify_frame cs (o : obj) f :
  ~ reaches f cs -> modify cs o !! f = o !! f.
Proof.
  unfold reaches, modify. revert o.
  induction cs as [|c cs IH]; intros o Hnot; simpl; [reflexivity|].
  rewrite IH.
  - apply change_frame. intros Heq. apply Hnot. rewrite fmap_cons, <- Heq. left.
  - intros Hin. apply Hnot. rewrite fmap_cons. right. assumption.
Qed.

Lemma same_eq a b : same a b = true -> a = b.
Proof.
  destruct a, b; simpl; try discriminate; try reflexivity; intros H.
  - apply Bool.eqb_prop in H. congruence.
  - apply Z.eqb_eq in H. congruence.
  - apply String.eqb_eq in H. congruence.
Qed.

Lemma lookup_apply_patch (patch o : obj) (k : string) :
  apply_patch patch o !! k =
  match patch !! k with
  | Some VUndef => match o !! k with
                   | Some VUndef => Some VUndef
                   | _ => None
                   end
  | Some v => Some v
  | None => o !! k
  end.
Proof.
  unfold apply_patch. rewrite lookup_merge.
  destruct (patch !! k) as [v|] eqn:Hp, (o !! k) as [x|] eqn:Ho; simpl;
    try reflexivity.
  destruct v, x; reflexivity.
Qed.

Lemma lookup_apply_patch_None (patch o : obj) (k : string) :
  patch !! k = None -> apply_patch patch o !! k = o !! k.
Proof. intros Hp. rewrite lookup_apply_patch, Hp. reflexivity. Qed.

Lemma head_name_plain f : lacks "." f = true -> head_name f = f.
Proof. intros Hf. unfold head_name. rewrite segments_plain by assumption. reflexivity. Qed.

(** One change under a plain name. *)
Lemma change_plain (o : obj) f v :
  plain_name f ->
  change o (f, v) !! f =
  match v with
  | VUndef => match o !! f with Some VUndef => Some VUndef | _ => None end
  | _ => Some v
  end.
Proof.
  intros [Hdot Hproto]. unfold change, getByKeyPath, setByKeyPath. simpl.
  rewrite (segments_plain f Hdot).
  assert (Hassign : forall x, x <> VUndef -> assign_top f x o !! f = Some x).
  { intros x Hx. unfold assign_top.
    rewrite (proj2 (String.eqb_neq f "__proto__") Hproto). simpl.
    destruct x; try congruence; apply lookup_insert_eq. }
  assert (Hdel : assign_top f VUndef o !! f = None).
  { unfold assign_top. apply lookup_delete_eq. }
  destruct (o !! f) as [y|] eqn:Ho.
  - destruct (same y v) eqn:Hs.
    + apply same_eq in Hs. subst y. rewrite Ho. destruct v; reflexivity.
    + destruct v; try (apply Hassign; congruence).
      rewrite Hdel. destruct y; try reflexivity. discriminate Hs.
  - destruct (String.eqb f "").
    + destruct v; try (apply Hassign; congruence). apply Hdel.
    + destruct (same VUndef v) eqn:Hs.
      * apply same_eq in Hs. subst v. assumption.
      * destruct v; try (apply Hassign; congruence). discriminate Hs.
Qed.

Lemma modify_plain cs (o : obj) :
  plain_changes cs -> modify cs o = apply_patch (list_to_map cs) o.
Proof.
  intros [Hnd Hplain]. revert o.
  induction cs as [|[f v] cs IH]; intros o; simpl.
  - apply map_eq. intros k. rewrite lookup_apply_patch, lookup_empty. reflexivity.
  - simpl in Hnd, Hplain. apply NoDup_cons in Hnd as [Hnotin Hnd].
    apply Forall_cons in Hplain as [Hf Hplain].
    unfold modify in *. simpl. rewrite (IH Hnd Hplain).
    apply map_eq. intros k. rewrite !lookup_apply_patch.
    destruct (decide (f = k)) as [<-|Hne].
    + rewrite lookup_insert_eq.
      rewrite (not_elem_of_list_to_map_1 cs f Hnotin).
      rewrite (change_plain o f v Hf). destruct v; reflexivity.
    + rewrite lookup_insert_ne by assumption.
      rewrite change_frame; [reflexivity|].
      simpl. rewrite head_name_plain by apply Hf. assumption.
Qed.

Lemma rows_patched_eq k patch t o :
  rows t !! k = Some o ->
  rows (patched k patch t) !! k = Some (apply_patch patch o).
Proof.
  intros Hk. unfold patched. rewrite Hk. simpl. apply lookup_insert_eq.
Qed.

Lemma rows_patched_ne k k' patch t :
  k <> k' -> rows (patched k patch t) !! k' = rows t !! k'.
Proof.
  intros Hne. unfold patched.
  destruct (rows t !! k); simpl; [apply lookup_insert_ne; assumption | reflexivity].
Qed.

Lemma patched_absent k patch t : rows t !! k = None -> patched k patch t = t.
Proof. intros Hk. unfold patched. rewrite Hk. reflexivity. Qed.

(** Changes under plain names other than [id] keep the record where it is. *)
Lemma update_plain k cs t :
  plain_changes cs -> "id" ∉ cs.*1 ->
  Dexie.update k cs t = (Ok tt, patched k (list_to_map cs) t).
Proof.
  intros Hplain Hid. unfold Dexie.update, patched.
  destruct (rows t !! k) as [o|]; [|reflexivity].
  rewrite modify_plain by assumption.
  assert (Hsame : prop (apply_patch (list_to_map cs) o) "id" = prop o "id").
  { unfold prop. rewrite lookup_apply_patch.
    rewrite (not_elem_of_list_to_map_1 cs "id" Hid). reflexivity. }
  rewrite Hsame. rewrite bool_decide_eq_true_2 by reflexivity. reflexivity.
Qed.

End DexieFacts.

(** ** The operations of [database.js], step by step *)

Module DatabaseFacts.

Import Dexie Database Machine DexieFacts.

Ltac run_op :=
  unfold logged, try_catch, bind, ret, throw, table_get, table_add,
    table_delete, table_clear, member, now, Dexie.get; simpl.

Ltac closed_names := simpl; apply (bool_decide_unpack _); vm_compute; reflexivity.

Ltac plain_changes_tac :=
  first
    [ split; [closed_names | simpl; repeat constructor; discriminate]
    | closed_names ].

Lemma table_update_plain n k cs w :
  plain_changes cs -> "id" ∉ cs.*1 ->
  table_update n k cs w = (Ok tt, updated n k (list_to_map cs) w).
Proof.
  intros Hplain Hid. unfold table_update, updated.
  rewrite update_plain by assumption. reflexivity.
Qed.

Lemma updateFoodUsageCount_run id w :
  updateFoodUsageCount id w =
  match rows (foods (db w)) !! id with
  | Some o => (Ok (Some (apply_patch (usage_patch o) o)),
               updated Foods id (usage_patch o) w)
  | None => (Threw (undefined_read "usageCount"), w)
  end.
Proof.
  unfold updateFoodUsageCount, updated. run_op.
  destruct (rows (foods (db w)) !! id) as [o|] eqn:Hrow; simpl; [|reflexivity].
  rewrite table_update_plain by plain_changes_tac.
  unfold updated. simpl. erewrite rows_patched_eq by eassumption. reflexivity.
Qed.

Lemma updateActivityUsageCount_run id w :
  updateActivityUsageCount id w =
  match rows (activities (db w)) !! id with
  | Some o => (Ok (Some (apply_patch (usage_patch o) o)),
               updated Activities id (usage_patch o) w)
  | None => (Threw (undefined_read "usageCount"), w)
  end.
Proof.
  unfold updateActivityUsageCount, updated. run_op.
  destruct (rows (activities (db w)) !! id) as [o|] eqn:Hrow; simpl; [|reflexivity].
  rewrite table_update_plain by plain_changes_tac.
  unfold updated. simpl. erewrite rows_patched_eq by eassumption. reflexivity.
Qed.

Lemma toggleFavorite_run id w :
  toggleFavorite id w =
  match rows (foods (db w)) !! id with
  | Some o => (Ok (Some (apply_patch (toggle_patch "isFavorite" o) o)),
               updated Foods id (toggle_patch "isFavorite" o) w)
  | None => (Threw (undefined_read "isFavorite"), w)
  end.
Proof.
  unfold toggleFavorite, updated. run_op.
  destruct (rows (foods (db w)) !! id) as [o|] eqn:Hrow; simpl; [|reflexivity].
  rewrite table_update_plain by plain_changes_tac.
  unfold updated. simpl. erewrite rows_patched_eq by eassumption. reflexivity.
Qed.

Lemma toggleActivityActive_run id w :
  toggleActivityActive id w =
  match rows (activities (db w)) !! id with
  | Some o => (Ok (Some (apply_patch (toggle_patch "isActive" o) o)),
               updated Activities id (toggle_patch "isActive" o) w)
  | None => (Threw (undefined_read "isActive"), w)
  end.
Proof.
  unfold toggleActivityActive, updated. run_op.
  destruct (rows (activities (db w)) !! id) as [o|] eqn:Hrow; simpl; [|reflexivity].
  rewrite table_update_plain by plain_changes_tac.
  unfold updated. simpl. erewrite rows_patched_eq by eassumption. reflexivity.
Qed.

Lemma updateContactUsageCount_run h id w :
  updateContactUsageCount h id w =
  match rows (contacts (db w)) !! id with
  | Some o => (Ok (Some (apply_patch (stamped_usage_patch (stamp_of h w) o) o)),
               updated Contacts id (stamped_usage_patch (stamp_of h w) o) (tick w))
  | None => (Threw (undefined_read "usageCount"), tick w)
  end.
Proof.
  unfold updateContactUsageCount, updated. run_op.
  destruct (rows (contacts (db w)) !! id) as [o|] eqn:Hrow; simpl; [|reflexivity].
  rewrite table_update_plain by plain_changes_tac.
  unfold updated. simpl. erewrite rows_patched_eq by eassumption. reflexivity.
Qed.

Lemma updatePhraseUsageCount_run h id w :
  updatePhraseUsageCount h id w =
  match rows (phrases (db w)) !! id with
  | Some o => (Ok (Some (apply_patch (stamped_usage_patch (stamp_of h w) o) o)),
               updated Phrases id (stamped_usage_patch (stamp_of h w) o) (tick w))
  | None => (Threw (undefined_read "usageCount"), tick w)
  end.
Proof.
  unfold updatePhraseUsageCount, updated. run_op.
  destruct (rows (phrases (db w)) !! id) as [o|] eqn:Hrow; simpl; [|reflexivity].
  rewrite table_update_plain by plain_changes_tac.
  unfold updated. simpl. erewrite rows_patched_eq by eassumption. reflexivity.
Qed.

Lemma updateOrderStatus_run h id status w :
  updateOrderStatus h id status w =
  (Ok (rows (patched id (status_patch (stamp_of h w) status) (orders (db w))) !! id),
   updated Orders id (status_patch (stamp_of h w) status) (tick w)).
Proof.
  unfold updateOrderStatus. run_op.
  rewrite table_update_plain by plain_changes_tac. reflexivity.
Qed.

Lemma updateEmergency_run id cs w :
  updateEmergency id cs w =
  match Dexie.update id cs (emergencies (db w)) with
  | (Ok _, t') => (Ok (rows t' !! id), set_db (set_tbl Emergencies t' (db w)) w)
  | (Threw e, t') => (Threw e, set_db (set_tbl Emergencies t' (db w)) w)
  end.
Proof.
  unfold updateEmergency, table_update. run_op.
  destruct (Dexie.update id cs (emergencies (db w))) as [[[]|e] t']; reflexivity.
Qed.

Lemma getEmergencyById_run id w :
  getEmergencyById id w = (Ok (rows (emergencies (db w)) !! id), w).
Proof. reflexivity. Qed.

Lemma updated_absent n id patch w :
  rows (tbl n (db w)) !! id = None -> updated n id patch w = w.
Proof.
  intros Hrow. unfold updated. rewrite patched_absent by assumption.
  rewrite set_tbl_same. apply set_db_same.
Qed.

Lemma tbl_updated n m id patch w :
  tbl m (db (updated n id patch w)) =
  if decide (n = m) then patched id patch (tbl n (db w)) else tbl m (db w).
Proof. unfold updated. simpl. apply tbl_set_tbl. Qed.

Lemma rows_updated_eq n id patch w o :
  rows (tbl n (db w)) !! id = Some o ->
  rows (tbl n (db (updated n id patch w))) !! id = Some (apply_patch patch o).
Proof.
  intros Hrow. rewrite tbl_updated. rewrite decide_True by reflexivity.
  apply rows_patched_eq. assumption.
Qed.

Lemma usage_patch_count o :
  (prop o "usageCount" = VUndef ->
   apply_patch (usage_patch o) o !! "usageCount" = Some (VNum 1))
  /\ (forall c, prop o "usageCount" = VNum c ->
                apply_patch (usage_patch o) o !! "usageCount"
                = Some (VNum (to_double (c + 1)))).
Proof.
  unfold usage_patch. split; [intros Hc | intros c Hc];
    rewrite lookup_apply_patch, lookup_singleton_eq, Hc.
  - reflexivity.
  - rewrite increment_number. reflexivity.
Qed.

Lemma stamped_usage_patch_count t o :
  (prop o "usageCount" = VUndef ->
   apply_patch (stamped_usage_patch t o) o !! "usageCount" = Some (VNum 1))
  /\ (forall c, prop o "usageCount" = VNum c ->
                apply_patch (stamped_usage_patch t o) o !! "usageCount"
                = Some (VNum (to_double (c + 1)))).
Proof.
  unfold stamped_usage_patch. split; [intros Hc | intros c Hc];
    rewrite lookup_apply_patch, lookup_insert_eq, Hc.
  - reflexivity.
  - rewrite increment_number. reflexivity.
Qed.

Lemma adder_run h n data w :
  adder h n data w =
  let record := stamp (has_updatedAt n) (stamp_of h w) data in
  match Dexie.add record (tbl n (db w)) with
  | (Ok id, t') => (Ok (with_id id record), set_db (set_tbl n t' (db w)) (tick w))
  | (Threw e, t') => (Threw e, set_db (set_tbl n t' (db w)) (tick w))
  end.
Proof.
  destruct n; simpl;
    unfold addEmergency, addFood, addContact, addPhrase, addOrder, addActivity;
    run_op; unfold stamp_of;
    match goal with |- context [Dexie.add ?r ?t] => destruct (Dexie.add r t) as [[id|e] t'] end;
    reflexivity.
Qed.

Lemma stamp_lookup_other b t data f :
  f <> "createdAt" -> f <> "updatedAt" -> stamp b t data !! f = data !! f.
Proof.
  intros Hc Hu. unfold stamp. destruct b.
  - rewrite lookup_insert_ne by congruence. rewrite lookup_insert_ne by congruence.
    reflexivity.
  - rewrite lookup_insert_ne by congruence. reflexivity.
Qed.

Lemma add_generated o t :
  o !! "id" = None ->
  rows t !! KNum (next_key t) = None ->
  Dexie.add o t =
  (Ok (KNum (next_key t)),
   Table (<[KNum (next_key t) := <["id" := VNum (next_key t)]> o]> (rows t))
         (next_key t + 1)).
Proof. intros Hid Hfree. unfold Dexie.add. rewrite Hid, Hfree. reflexivity. Qed.

Lemma push_if_keeps c m (errors : list string) x :
  x ∈ errors -> x ∈ push_if c m errors.
Proof. unfold push_if. destruct c; set_solver. Qed.

Lemma push_if_adds m (errors : list string) : m ∈ push_if true m errors.
Proof. unfold push_if. set_solver. Qed.

End DatabaseFacts.

(** ** Texts *)

Module TextFacts.

Lemma lacks_app c s t : lacks c (s +:+ t) = lacks c s && lacks c t.
Proof.
  induction s as [|x s IH]; simpl; [reflexivity|].
  rewrite IH. apply andb_assoc.
Qed.

(** Two texts cut at their first [c] agree part by part. *)
Lemma cut_at_first c a b r1 r2 :
  lacks c a = true -> lacks c b = true ->
  a +:+ String c r1 = b +:+ String c r2 -> a = b /\ r1 = r2.
Proof.
  revert b. induction a as [|x a IH]; intros [|y b] Ha Hb Heq; simpl in *.
  - inversion Heq. split; reflexivity.
  - inversion Heq; subst y. rewrite Ascii.eqb_refl in Hb. discriminate Hb.
  - inversion Heq; subst x. rewrite Ascii.eqb_refl in Ha. discriminate Ha.
  - inversion Heq; subst y.
    apply andb_prop in Ha as [_ Ha]. apply andb_prop in Hb as [_ Hb].
    destruct (IH b Ha Hb) as [-> ->]; [assumption|]. split; reflexivity.
Qed.

Lemma pretty_N_char_lacks_underscore x s :
  lacks "_" s = true -> lacks "_" (String (pretty_N_char x) s) = true.
Proof.
  intros Hs. simpl. rewrite Hs. unfold pretty_N_char.
  repeat case_match; reflexivity.
Qed.

Lemma pretty_N_go_lacks_underscore x s :
  lacks "_" s = true -> lacks "_" (pretty_N_go x s) = true.
Proof.
  revert s. induction (N.lt_wf_0 x) as [x _ IH]; intros s Hs.
  destruct (decide (x = 0%N)) as [->|Hx].
  - rewrite pretty_N_go_0. exact Hs.
  - rewrite pretty_N_go_step by lia.
    apply IH; [apply N.div_lt; lia|].
    apply pretty_N_char_lacks_underscore. exact Hs.
Qed.

Lemma pretty_Z_lacks_underscore (z : Z) : lacks "_" (pretty z) = true.
Proof.
  destruct z as [|p|p]; unfold pretty, pretty_Z; [reflexivity| |].
  - unfold pretty, pretty_positive, pretty, pretty_N.
    case_decide; [reflexivity|]. apply pretty_N_go_lacks_underscore. reflexivity.
  - rewrite lacks_app. simpl.
    unfold pretty, pretty_positive, pretty, pretty_N.
    case_decide; [reflexivity|]. apply pretty_N_go_lacks_underscore. reflexivity.
Qed.

End TextFacts.

(** ** Key order and index order *)

Module OrderFacts.

Import Dexie Machine DexieFacts.

(** Arrays are compared element by element. *)
Lemma key_cmp_cons x l y m :
  key_cmp (KArr (x :: l)) (KArr (y :: m)) =
  match key_cmp x y with
  | Eq => key_cmp (KArr l) (KArr m)
  | c => c
  end.
Proof. reflexivity. Qed.

Lemma key_cmp_refl a : key_cmp a a = Eq.
Proof.
  induction a as [n|s|l IH] using ikey_nested_ind.
  - apply Z.compare_refl.
  - simpl. pose proof (String.compare_antisym s s) as H.
    destruct (String.compare s s); simpl in H; congruence.
  - induction IH as [|x l Hx _ IHl]; [reflexivity|].
    rewrite key_cmp_cons, Hx. exact IHl.
Qed.

Lemma key_cmp_eq a b : key_cmp a b = Eq -> a = b.
Proof.
  revert b. induction a as [n|s|l IH] using ikey_nested_ind; intros [m|t|k];
    simpl; try discriminate.
  - intros H. apply Z.compare_eq in H. congruence.
  - intros H. apply String.compare_eq_iff in H. congruence.
  - revert k. induction IH as [|x l Hx _ IHl]; intros [|y k]; try discriminate.
    + reflexivity.
    + change (key_cmp (KArr (x :: l)) (KArr (y :: k)) = Eq -> KArr (x :: l) = KArr (y :: k)).
      rewrite key_cmp_cons. destruct (key_cmp x y) eqn:Hxy; try discriminate.
      intros Hrest. apply Hx in Hxy. apply IHl in Hrest. congruence.
Qed.

Lemma key_cmp_opp a b : key_cmp b a = CompOpp (key_cmp a b).
Proof.
  revert b. induction a as [n|s|l IH] using ikey_nested_ind; intros [m|t|k];
    simpl; try reflexivity.
  - apply Z.compare_antisym.
  - apply String.compare_antisym.
  - revert k. induction IH as [|x l Hx _ IHl]; intros [|y k]; try reflexivity.
    change (key_cmp (KArr (y :: k)) (KArr (x :: l))
            = CompOpp (key_cmp (KArr (x :: l)) (KArr (y :: k)))).
    rewrite !key_cmp_cons, (Hx y).
    destruct (key_cmp x y); simpl; [apply IHl | reflexivity | reflexivity].
Qed.

Lemma key_le_strings s t : key_le (KStr s) (KStr t) <-> String.le s t.
Proof.
  unfold key_le, String.le, String.leb. simpl.
  destruct (String.compare s t); simpl; split; intros H; try congruence;
    try exact I; try (exfalso; apply H; reflexivity); try (destruct H).
Qed.

Global Instance key_le_refl : Reflexive key_le.
Proof. intros a. unfold key_le. rewrite key_cmp_refl. discriminate. Qed.

Global Instance key_le_total : Total key_le.
Proof.
  intros a b. unfold key_le. rewrite (key_cmp_opp a b).
  destruct (key_cmp a b); simpl; [left|left|right]; discriminate.
Qed.

Global Instance key_le_antisym : AntiSymm (=) key_le.
Proof.
  intros a b. unfold key_le. rewrite (key_cmp_opp a b).
  destruct (key_cmp a b) eqn:Hab; simpl; intros H1 H2; try congruence.
  apply key_cmp_eq. exact Hab.
Qed.

Global Instance key_le_trans : Transitive key_le.
Proof.
  intros a. induction a as [n|s|l IH] using ikey_nested_ind; intros b c.
  - destruct b as [m|t|k], c as [p|u|j]; unfold key_le; simpl; try congruence.
    rewrite !Z.compare_gt_iff. lia.
  - destruct b as [m|t|k], c as [p|u|j]; try (unfold key_le; simpl; congruence).
    rewrite !key_le_strings. apply transitivity.
  - destruct b as [m|t|k], c as [p|u|j]; try (unfold key_le; simpl; congruence).
    revert k j. induction IH as [|x l Hx _ IHl]; intros k j.
    + destruct j; unfold key_le; simpl; congruence.
    + destruct k as [|y k]; [unfold key_le; simpl; congruence|].
      destruct j as [|z j]; [unfold key_le; simpl; congruence|].
      unfold key_le in *. rewrite !key_cmp_cons.
      destruct (key_cmp x y) eqn:Hxy; [| |congruence].
      * apply key_cmp_eq in Hxy. subst y.
        destruct (key_cmp x z); [apply IHl | congruence | congruence].
      * intros _. destruct (key_cmp y z) eqn:Hyz; [| |congruence].
        -- apply key_cmp_eq in Hyz. subst z. rewrite Hxy. congruence.
        -- intros _. destruct (key_cmp x z) eqn:Hxz; [|congruence|].
           ++ apply key_cmp_eq in Hxz. subst z.
              rewrite (key_cmp_opp x y), Hxy in Hyz. discriminate Hyz.
           ++ exfalso. apply (Hx y z); rewrite ?Hxy, ?Hyz; congruence.
Qed.

(** Numbers come before strings, and strings before arrays. *)
Lemma key_le_numbers x y : key_le (KNum x) (KNum y) <-> (x <= y)%Z.
Proof. unfold key_le. simpl. rewrite Z.compare_gt_iff. lia. Qed.

Global Instance pk_le_trans : Transitive pk_le.
Proof. intros a b c; unfold pk_le; apply transitivity. Qed.

Global Instance pk_le_total : Total pk_le.
Proof. intros a b; unfold pk_le; apply total; apply _. Qed.

Global Instance entry_le_trans : Transitive entry_le.
Proof.
  intros a b c. unfold entry_le.
  destruct (decide (a.1 = b.1)) as [Hab|Hab], (decide (b.1 = c.1)) as [Hbc|Hbc],
           (decide (a.1 = c.1)) as [Hac|Hac]; try congruence; intros H1 H2.
  - etransitivity; eassumption.
  - exfalso. apply Hbc. apply (anti_symm key_le); [exact H2|].
    rewrite <- Hac. exact H1.
  - etransitivity; eassumption.
Qed.

Global Instance entry_le_total : Total entry_le.
Proof.
  intros a b. unfold entry_le.
  destruct (decide (a.1 = b.1)) as [Hab|Hab], (decide (b.1 = a.1)) as [Hba|Hba];
    try congruence; apply total; apply _.
Qed.

Lemma entry_le_key a b : entry_le a b -> key_le a.1 b.1.
Proof.
  unfold entry_le. destruct (decide (a.1 = b.1)) as [->|_]; [reflexivity | tauto].
Qed.

Lemma StronglySorted_and {A} (R : relation A) (P : A -> Prop) l :
  StronglySorted R l -> Forall P l ->
  StronglySorted (fun x y => R x y /\ P x /\ P y) l.
Proof.
  induction 1 as [|x l Hs IH Hx]; intros Hall; constructor.
  - apply IH. inversion Hall; assumption.
  - inversion Hall as [|? ? Px Pl]; subst.
    rewrite Forall_forall in *. intros y Hy. auto.
Qed.

Lemma StronglySorted_rev_flip {A} (R : relation A) l :
  StronglySorted R l -> StronglySorted (flip R) (List.rev l).
Proof.
  induction 1 as [|x l Hs IH Hx]; simpl; [constructor|].
  apply StronglySorted_app_2; [| exact IH | repeat constructor].
  intros a b Ha Hb. apply list_elem_of_singleton in Hb as ->.
  rewrite Forall_forall in Hx. apply Hx.
  apply list_elem_of_In. apply in_rev. apply list_elem_of_In. exact Ha.
Qed.

Lemma index_entries_key field t e :
  e ∈ index_entries field t -> as_key (prop e.2.2 field) = Some e.1.
Proof.
  unfold index_entries. rewrite list_elem_of_omap.
  intros (r & _ & Hr). destruct (as_key (prop r.2 field)) eqn:Hk; inversion Hr; subst.
  exact Hk.
Qed.

Lemma index_entries_records field t :
  (index_entries field t).*2.*2 =
  filter (indexed field) (map_to_list (rows t)).*2.
Proof.
  unfold index_entries.
  induction (map_to_list (rows t)) as [|r l IH]; [reflexivity|].
  csimpl. rewrite filter_cons.
  destruct (decide (indexed field r.2)) as [[k Hk]|Hn].
  - rewrite Hk. csimpl. rewrite IH. reflexivity.
  - destruct (as_key (prop r.2 field)) as [k|] eqn:Hk.
    + exfalso. apply Hn. unfold indexed. rewrite Hk. eauto.
    + exact IH.
Qed.

Lemma orderBy_sorted field t :
  StronglySorted (flip (desc_by field)) (orderBy field t).
Proof.
  unfold orderBy.
  pose proof (StronglySorted_merge_sort entry_le (index_entries field t)) as Hs.
  assert (Hall : Forall (fun e => as_key (prop e.2.2 field) = Some e.1)
                        (merge_sort entry_le (index_entries field t))).
  { rewrite Forall_forall. intros e He. apply (index_entries_key field t).
    rewrite <- (merge_sort_Permutation entry_le). exact He. }
  pose proof (StronglySorted_and _ _ _ Hs Hall) as Hs'.
  rewrite <- list_fmap_compose.
  eapply StronglySorted_fmap; [|exact Hs'].
  intros x y (Hle & Hx & Hy). unfold flip, desc_by. simpl.
  exists y.1, x.1. split; [exact Hy|]. split; [exact Hx|].
  apply entry_le_key. exact Hle.
Qed.

Lemma orderBy_records field t :
  orderBy field t ≡ₚ filter (indexed field) (map_to_list (rows t)).*2.
Proof.
  unfold orderBy. rewrite merge_sort_Permutation.
  rewrite index_entries_records. reflexivity.
Qed.

End OrderFacts.

(** ** Maintained properties of the database *)

Module InvariantFacts.

Import Dexie Database InitialDataLoader Machine.

Section Rules.

Variable P : DB -> Prop.

Lemma inv_ret {A} (a : A) : inv P (ret a).
Proof. intros w Hw. exact Hw. Qed.

Lemma inv_throw {A} e : inv P (@throw A e).
Proof. intros w Hw. exact Hw. Qed.

Lemma inv_lift {A} (o : outcome A) : inv P (lift o).
Proof. intros w Hw. exact Hw. Qed.

Lemma inv_bind {A B} (m : M A) (k : A -> M B) :
  inv P m -> (forall a, inv P (k a)) -> inv P (bind m k).
Proof.
  intros Hm Hk w Hw. unfold bind. specialize (Hm w Hw).
  destruct (m w) as [[a|e] w']; simpl in *; [apply Hk; exact Hm | exact Hm].
Qed.

Lemma inv_try_catch {A} (m : M A) handler :
  inv P m -> (forall e, inv P (handler e)) -> inv P (try_catch m handler).
Proof.
  intros Hm Hh w Hw. unfold try_catch. specialize (Hm w Hw).
  destruct (m w) as [[a|e] w']; simpl in *; [exact Hm | apply Hh; exact Hm].
Qed.

Lemma inv_logged {A} (m : M A) : inv P m -> inv P (logged m).
Proof. intros Hm. apply inv_try_catch; [exact Hm | intros e; apply inv_throw]. Qed.

Lemma inv_transaction {A} (m : M A) : inv P m -> inv P (transaction m).
Proof.
  intros Hm w Hw. unfold transaction. specialize (Hm w Hw).
  destruct (m w) as [[a|e] w']; simpl in *; [exact Hm | exact Hw].
Qed.

Lemma inv_now h : inv P (now h).
Proof. intros w Hw. exact Hw. Qed.

Lemma inv_table_get n k : inv P (table_get n k).
Proof. intros w Hw. exact Hw. Qed.

Lemma inv_table_toArray n : inv P (table_toArray n).
Proof. intros w Hw. exact Hw. Qed.

Lemma inv_table_orderBy_reverse n f : inv P (table_orderBy_reverse n f).
Proof. intros w Hw. exact Hw. Qed.

Lemma inv_member r f : inv P (member r f).
Proof. destruct r; [apply inv_ret | apply inv_throw]. Qed.

Lemma inv_for_of {A} (l : list A) body :
  (forall a, inv P (body a)) -> inv P (for_of l body).
Proof.
  intros Hb. induction l as [|a l IH]; simpl; [apply inv_ret|].
  apply inv_bind; [apply Hb | intros _; exact IH].
Qed.

Lemma inv_map_M {A B} (f : A -> M B) (l : list A) :
  (forall a, inv P (f a)) -> inv P (map_M f l).
Proof.
  intros Hf. induction l as [|a l IH]; simpl; [apply inv_ret|].
  apply inv_bind; [apply Hf | intros b].
  apply inv_bind; [exact IH | intros bs; apply inv_ret].
Qed.

(** The writes, given what they do to the one table they touch. *)
Lemma inv_table_add n o :
  (forall d, P d -> P (set_tbl n (Dexie.add o (tbl n d)).2 d)) ->
  inv P (table_add n o).
Proof.
  intros H w Hw. unfold table_add. specialize (H _ Hw).
  destruct (Dexie.add o (tbl n (db w))) as [r t']. exact H.
Qed.

Lemma inv_table_bulkAdd n os :
  (forall d, P d -> P (set_tbl n (Dexie.bulkAdd os (tbl n d)).2 d)) ->
  inv P (table_bulkAdd n os).
Proof.
  intros H w Hw. unfold table_bulkAdd. specialize (H _ Hw).
  destruct (Dexie.bulkAdd os (tbl n (db w))) as [r t']. exact H.
Qed.

Lemma inv_table_update n k cs :
  (forall d, P d -> P (set_tbl n (Dexie.update k cs (tbl n d)).2 d)) ->
  inv P (table_update n k cs).
Proof.
  intros H w Hw. unfold table_update. specialize (H _ Hw).
  destruct (Dexie.update k cs (tbl n (db w))) as [r t']. exact H.
Qed.

Lemma inv_table_delete n k :
  (forall d, P d -> P (set_tbl n (Dexie.delete k (tbl n d)) d)) ->
  inv P (table_delete n k).
Proof. intros H w Hw. apply H. exact Hw. Qed.

Lemma inv_table_clear n :
  (forall d, P d -> P (set_tbl n (Dexie.clear (tbl n d)) d)) ->
  inv P (table_clear n).
Proof. intros H w Hw. apply H. exact Hw. Qed.

End Rules.

(** Splits an operation into its reads, which maintain anything, and its
    writes, which are left as goals. *)
Ltac inv_step :=
  lazymatch goal with
  | |- inv _ (logged _) => apply inv_logged
  | |- inv _ (transaction _) => apply inv_transaction
  | |- inv _ (ret _) => apply inv_ret
  | |- inv _ (throw _) => apply inv_throw
  | |- inv _ (lift _) => apply inv_lift
  | |- inv _ (now _) => apply inv_now
  | |- inv _ (table_get _ _) => apply inv_table_get
  | |- inv _ (table_toArray _) => apply inv_table_toArray
  | |- inv _ (table_orderBy_reverse _ _) => apply inv_table_orderBy_reverse
  | |- inv _ (member _ _) => apply inv_member
  | |- inv _ (bind _ _) => apply inv_bind; [|intros ?; cbv beta zeta]
  | |- inv _ (try_catch _ _) => apply inv_try_catch; [|intros ?; cbv beta zeta]
  | |- inv _ (for_of _ _) => apply inv_for_of; intros ?; cbv beta zeta
  | |- inv _ (map_M _ _) => apply inv_map_M; intros ?; cbv beta zeta
  | |- inv _ (if ?c then _ else _) => destruct c
  | |- inv _ (match ?x with Some _ => _ | None => _ end) => destruct x
  end.

Ltac inv_steps := repeat inv_step.

End InvariantFacts.

(** ** What an operation leaves alone *)

Module KeepFacts.

Import Dexie Database InitialDataLoader IndexedDB ImageUpload Queries
       ImageStore Machine Notions.

Section Rules.

Context {B : Type} (view : world -> B).

Lemma keeps_ret {A} (a : A) : keeps view (ret a).
Proof. intros w. reflexivity. Qed.

Lemma keeps_throw {A} e : keeps view (@throw A e).
Proof. intros w. reflexivity. Qed.

Lemma keeps_lift {A} (o : outcome A) : keeps view (lift o).
Proof. intros w. reflexivity. Qed.

Lemma keeps_bind {A C} (m : M A) (k : A -> M C) :
  keeps view m -> (forall a, keeps view (k a)) -> keeps view (bind m k).
Proof.
  intros Hm Hk w. unfold bind. specialize (Hm w).
  destruct (m w) as [[a|e] w']; simpl in *; [rewrite Hk; exact Hm | exact Hm].
Qed.

Lemma keeps_try_catch {A} (m : M A) handler :
  keeps view m -> (forall e, keeps view (handler e)) -> keeps view (try_catch m handler).
Proof.
  intros Hm Hh w. unfold try_catch. specialize (Hm w).
  destruct (m w) as [[a|e] w']; simpl in *; [exact Hm | rewrite Hh; exact Hm].
Qed.

Lemma keeps_logged {A} (m : M A) : keeps view m -> keeps view (logged m).
Proof. intros Hm. apply keeps_try_catch; [exact Hm | intros e; apply keeps_throw]. Qed.

Lemma keeps_member r f : keeps view (member r f).
Proof. destruct r; [apply keeps_ret | apply keeps_throw]. Qed.

Lemma keeps_for_of {A} (l : list A) body :
  (forall a, keeps view (body a)) -> keeps view (for_of l body).
Proof.
  intros Hb. induction l as [|a l IH]; simpl; [apply keeps_ret|].
  apply keeps_bind; [apply Hb | intros _; exact IH].
Qed.

Lemma keeps_map_M {A C} (f : A -> M C) (l : list A) :
  (forall a, keeps view (f a)) -> keeps view (map_M f l).
Proof.
  intros Hf. induction l as [|a l IH]; simpl; [apply keeps_ret|].
  apply keeps_bind; [apply Hf | intros b].
  apply keeps_bind; [exact IH | intros bs; apply keeps_ret].
Qed.

Lemma keeps_table_get n k : keeps view (table_get n k).
Proof. intros w. reflexivity. Qed.

Lemma keeps_table_toArray n : keeps view (table_toArray n).
Proof. intros w. reflexivity. Qed.

Lemma keeps_table_orderBy_reverse n f : keeps view (table_orderBy_reverse n f).
Proof. intros w. reflexivity. Qed.

Lemma keeps_table_where_equals n f k : keeps view (table_where_equals n f k).
Proof. intros w. reflexivity. Qed.

End Rules.

(** The clock and the random source belong to neither database. *)
Lemma keeps_images_now h : keeps userImages (now h).
Proof. intros w. reflexivity. Qed.

Lemma keeps_db_now h : keeps db (now h).
Proof. intros w. reflexivity. Qed.

Lemma keeps_db_Date_now h : keeps db (Date_now h).
Proof. intros w. reflexivity. Qed.

Lemma keeps_db_random_suffix h : keeps db (random_suffix h).
Proof. intros w. reflexivity. Qed.

(** The table calls and transactions of [database.js] work on
    'StrokeAppDB' alone. *)
Lemma keeps_images_table_add n o : keeps userImages (table_add n o).
Proof.
  intros w. unfold table_add. destruct (Dexie.add o (tbl n (db w))). reflexivity.
Qed.

Lemma keeps_images_table_bulkAdd n os : keeps userImages (table_bulkAdd n os).
Proof.
  intros w. unfold table_bulkAdd. destruct (Dexie.bulkAdd os (tbl n (db w))). reflexivity.
Qed.

Lemma keeps_images_table_update n k cs : keeps userImages (table_update n k cs).
Proof.
  intros w. unfold table_update. destruct (Dexie.update k cs (tbl n (db w))). reflexivity.
Qed.

Lemma keeps_images_table_delete n k : keeps userImages (table_delete n k).
Proof. intros w. reflexivity. Qed.

Lemma keeps_images_table_clear n : keeps userImages (table_clear n).
Proof. intros w. reflexivity. Qed.

Lemma keeps_images_transaction {A} (m : M A) :
  keeps userImages m -> keeps userImages (transaction m).
Proof.
  intros Hm w. unfold transaction. specialize (Hm w).
  destruct (m w) as [[a|e] w']; simpl in *; exact Hm.
Qed.

(** The requests of the image store work on 'EmergencyAppDB' alone. *)
Lemma keeps_db_initDB h : keeps db (initDB h).
Proof. intros w. unfold initDB. destruct (idb_open h); reflexivity. Qed.

Lemma keeps_db_store_put h r : keeps db (store_put h r).
Proof.
  intros w. unfold store_put.
  destruct (as_key (prop r "id")); [destruct (idb_put h r)|]; reflexivity.
Qed.

Lemma keeps_db_store_get h v : keeps db (store_get h v).
Proof.
  intros w. unfold store_get.
  destruct (as_key v); [destruct (idb_get h)|]; reflexivity.
Qed.

Lemma keeps_db_store_delete f v : keeps db (store_delete f v).
Proof.
  intros w. unfold store_delete.
  destruct (as_key v); [destruct (idb_delete f)|]; reflexivity.
Qed.

Lemma keeps_db_store_getAll f : keeps db (store_getAll f).
Proof. intros w. unfold store_getAll. destruct (idb_getAll f); reflexivity. Qed.

Lemma keeps_db_index_getAll f field q : keeps db (index_getAll f field q).
Proof.
  intros w. unfold index_getAll.
  destruct q;
    try match goal with
        | |- context [match as_key ?v with _ => _ end] => destruct (as_key v)
        end;
    destruct (idb_getAll f); reflexivity.
Qed.

Lemma keeps_db_store_clear f : keeps db (store_clear f).
Proof. intros w. unfold store_clear. destruct (idb_clear f); reflexivity. Qed.

(** Splits a computation into the calls it is made of. *)
Ltac keeps_step :=
  lazymatch goal with
  | |- keeps _ (logged _) => apply keeps_logged
  | |- keeps _ (transaction _) => apply keeps_images_transaction
  | |- keeps _ (ret _) => apply keeps_ret
  | |- keeps _ (throw _) => apply keeps_throw
  | |- keeps _ (lift _) => apply keeps_lift
  | |- keeps _ (now _) => first [apply keeps_images_now | apply keeps_db_now]
  | |- keeps _ (Date_now _) => apply keeps_db_Date_now
  | |- keeps _ (random_suffix _) => apply keeps_db_random_suffix
  | |- keeps _ (member _ _) => apply keeps_member
  | |- keeps _ (table_get _ _) => apply keeps_table_get
  | |- keeps _ (table_toArray _) => apply keeps_table_toArray
  | |- keeps _ (table_orderBy_reverse _ _) => apply keeps_table_orderBy_reverse
  | |- keeps _ (table_where_equals _ _ _) => apply keeps_table_where_equals
  | |- keeps _ (table_add _ _) => apply keeps_images_table_add
  | |- keeps _ (table_bulkAdd _ _) => apply keeps_images_table_bulkAdd
  | |- keeps _ (table_update _ _ _) => apply keeps_images_table_update
  | |- keeps _ (table_delete _ _) => apply keeps_images_table_delete
  | |- keeps _ (table_clear _) => apply keeps_images_table_clear
  | |- keeps _ (initDB _) => apply keeps_db_initDB
  | |- keeps _ (store_put _ _) => apply keeps_db_store_put
  | |- keeps _ (store_get _ _) => apply keeps_db_store_get
  | |- keeps _ (store_delete _ _) => apply keeps_db_store_delete
  | |- keeps _ (store_getAll _) => apply keeps_db_store_getAll
  | |- keeps _ (index_getAll _ _ _) => apply keeps_db_index_getAll
  | |- keeps _ (store_clear _) => apply keeps_db_store_clear
  | |- keeps _ (bind _ _) => apply keeps_bind; [|intros ?; cbv beta zeta]
  | |- keeps _ (try_catch _ _) => apply keeps_try_catch; [|intros ?; cbv beta zeta]
  | |- keeps _ (for_of _ _) => apply keeps_for_of; intros ?; cbv beta zeta
  | |- keeps _ (map_M _ _) => apply keeps_map_M; intros ?; cbv beta zeta
  | |- keeps _ (if ?c then _ else _) => destruct c
  | |- keeps _ (match ?x with Some _ => _ | None => _ end) => destruct x
  end.

Ltac keeps_steps := repeat keeps_step.

Lemma keeps_images_loadAllInitialData h : keeps userImages (loadAllInitialData h).
Proof.
  unfold loadAllInitialData, loadInitialEmergencyData, getAllEmergencies,
    fetch_emergency_json, load_body_part, symptom_item, addEmergency.
  keeps_steps; try (destruct (emergency_json h) as [e|ok json]; keeps_steps).
Qed.

Lemma keeps_images_exec h o w : userImages (exec h o w) = userImages w.
Proof.
  destruct o; cbn [exec];
    match goal with |- userImages (?m w).2 = _ => revert w; change (keeps userImages m) end.
  all: try (unfold addEmergency, updateEmergency, deleteEmergency, addFood,
      updateFoodUsageCount, toggleFavorite, addContact, updateContactUsageCount,
      addPhrase, updatePhraseUsageCount, addOrder, updateOrderStatus, addActivity,
      updateActivityUsageCount, toggleActivityActive; keeps_steps; fail).
  - unfold importData, import_into. keeps_steps.
  - unfold clearAllData. keeps_steps.
  - unfold checkAndLoadInitialData, getAllEmergencies, getAllFoods, getAllContacts,
      getAllPhrases, getAllActivities.
    keeps_steps. apply keeps_images_loadAllInitialData.
  - unfold resetAndReloadData, clearAllData. keeps_steps.
    apply keeps_images_loadAllInitialData.
Qed.

(** The image store and the pipeline leave the database of the entities
    alone. *)
Lemma keeps_db_storeUserImage h imageData : keeps db (storeUserImage h imageData).
Proof. unfold storeUserImage. keeps_steps. Qed.

Lemma keeps_db_getUserImage h imageId : keeps db (getUserImage h imageId).
Proof. unfold getUserImage. keeps_steps. Qed.

Lemma keeps_db_generateImageId h type identifier :
  keeps db (generateImageId h type identifier).
Proof. unfold generateImageId. keeps_steps. Qed.

Lemma keeps_db_getImageSource h imagePath : keeps db (getImageSource h imagePath).
Proof. unfold getImageSource. keeps_steps. apply keeps_db_getUserImage. Qed.

Lemma keeps_db_processAndStoreImage h file imageType identifier :
  keeps db (processAndStoreImage h file imageType identifier).
Proof.
  unfold processAndStoreImage. keeps_steps.
  - apply keeps_db_generateImageId.
  - apply keeps_db_storeUserImage.
Qed.

Lemma keeps_db_handleFile h file imageType identifier :
  keeps db (handleFile h file imageType identifier).
Proof. unfold handleFile. keeps_steps. apply keeps_db_processAndStoreImage. Qed.

Lemma keeps_db_image_exec h f o w : db (image_exec h f o w) = db w.
Proof.
  destruct o; cbn [image_exec];
    match goal with |- db (?m w).2 = _ => revert w; change (keeps db m) end.
  - apply keeps_db_storeUserImage.
  - apply keeps_db_getUserImage.
  - unfold getImagesByBodyPart. keeps_steps.
  - unfold getAllUserImages. keeps_steps.
  - unfold deleteUserImage. keeps_steps.
  - unfold getStorageInfo. keeps_steps.
  - unfold clearAllUserImages. keeps_steps.
  - apply keeps_db_getImageSource.
  - apply keeps_db_processAndStoreImage.
  - apply keeps_db_handleFile.
Qed.

End KeepFacts.

(** ** Inbound keys and the key generator *)

Module WfFacts.

Import Dexie Database InitialDataLoader Machine DexieFacts InvariantFacts KeepFacts.

Lemma wf_empty_table : wf_table empty_table.
Proof.
  split.
  - intros k o Hk. simpl in Hk. rewrite lookup_empty in Hk. discriminate.
  - intros n [o Hk]. simpl in Hk. rewrite lookup_empty in Hk. discriminate.
Qed.

Lemma wf_insert_generated o t :
  wf_table t ->
  wf_table (Table (<[KNum (next_key t) := <["id" := VNum (next_key t)]> o]> (rows t))
                  (next_key t + 1)).
Proof.
  intros [Hid Hnext]. split; simpl.
  - intros k' o' Hk'. destruct (decide (KNum (next_key t) = k')) as [<-|Hne].
    + rewrite lookup_insert_eq in Hk'. inversion Hk'; subst o'.
      rewrite lookup_insert_eq. reflexivity.
    + rewrite lookup_insert_ne in Hk' by exact Hne. eapply Hid; eassumption.
  - intros n Hn. destruct (decide (KNum (next_key t) = KNum n)) as [Heq|Hne].
    + inversion Heq. lia.
    + rewrite lookup_insert_ne in Hn by exact Hne. specialize (Hnext n Hn). lia.
Qed.

Lemma wf_insert_explicit o t k :
  o !! "id" = Some (key_value k) ->
  wf_table t ->
  wf_table (Table (<[k := o]> (rows t)) (bump k (next_key t))).
Proof.
  intros Ho [Hid Hnext]. split; simpl.
  - intros k' o' Hk'. destruct (decide (k = k')) as [<-|Hne].
    + rewrite lookup_insert_eq in Hk'. inversion Hk'; subst o'. exact Ho.
    + rewrite lookup_insert_ne in Hk' by exact Hne. eapply Hid; eassumption.
  - intros n Hn. destruct (decide (k = KNum n)) as [->|Hne].
    + simpl. lia.
    + rewrite lookup_insert_ne in Hn by exact Hne.
      specialize (Hnext n Hn). destruct k; simpl; lia.
Qed.

Lemma wf_add o t : wf_table t -> wf_table (Dexie.add o t).2.
Proof.
  intros Hwf. unfold Dexie.add.
  destruct (o !! "id") as [v|] eqn:Ho.
  - destruct (as_key v) as [k|] eqn:Hk.
    + apply as_key_inv in Hk. subst v.
      destruct (key_value k) eqn:Hv; try (destruct k; discriminate Hv);
        rewrite <- ?Hv in *;
        (destruct (rows t !! k) eqn:Hrow; simpl;
         [exact Hwf | apply wf_insert_explicit; assumption]).
    + destruct v; try exact Hwf.
      destruct (rows t !! KNum (next_key t)); simpl;
        [exact Hwf | apply wf_insert_generated; exact Hwf].
  - destruct (rows t !! KNum (next_key t)); simpl;
      [exact Hwf | apply wf_insert_generated; exact Hwf].
Qed.

Lemma wf_bulkAdd_go os f t : wf_table t -> wf_table (bulkAdd_go os f t).2.
Proof.
  revert f t. induction os as [|o os IH]; intros f t Hwf; simpl; [exact Hwf|].
  pose proof (wf_add o t Hwf) as Hadd.
  destruct (Dexie.add o t) as [[k|e] t']; [apply IH; exact Hadd|].
  destruct e; try (apply IH; exact Hadd). exact Hadd.
Qed.

Lemma wf_bulkAdd os t : wf_table t -> wf_table (Dexie.bulkAdd os t).2.
Proof.
  intros Hwf. unfold Dexie.bulkAdd.
  pose proof (wf_bulkAdd_go os 0 t Hwf) as H.
  destruct (bulkAdd_go os 0 t) as [[[|n]|e] t']; exact H.
Qed.

Lemma wf_delete k t : wf_table t -> wf_table (Dexie.delete k t).
Proof.
  intros [Hid Hnext]. split; simpl.
  - intros k' o' Hk'. apply lookup_delete_Some in Hk' as [_ Hk']. eapply Hid; eassumption.
  - intros n [o Hn]. apply lookup_delete_Some in Hn as [_ Hn]. apply Hnext. eauto.
Qed.

Lemma wf_update k cs t : wf_table t -> wf_table (Dexie.update k cs t).2.
Proof.
  intros Hwf. unfold Dexie.update.
  destruct (rows t !! k) as [o|] eqn:Hrow; [|exact Hwf].
  case_bool_decide as Hsame.
  - destruct Hwf as [Hid Hnext]. split; simpl.
    + intros k' o' Hk'. destruct (decide (k = k')) as [<-|Hne].
      * rewrite lookup_insert_eq in Hk'. inversion Hk'; subst o'.
        pose proof (Hid _ _ Hrow) as Ho. unfold prop in Hsame.
        rewrite Ho in Hsame. simpl in Hsame.
        rewrite as_key_key_value in Hsame.
        apply as_key_inv in Hsame.
        destruct (modify cs o !! "id") as [v|]; simpl in Hsame; [congruence|].
        symmetry in Hsame. apply key_value_defined in Hsame. destruct Hsame.
      * rewrite lookup_insert_ne in Hk' by exact Hne. eapply Hid; eassumption.
    + intros n Hn. apply Hnext. destruct (decide (k = KNum n)) as [<-|Hne].
      * eauto.
      * rewrite lookup_insert_ne in Hn by exact Hne. exact Hn.
  - pose proof (wf_add (modify cs o) t Hwf) as Hadd.
    destruct (Dexie.add (modify cs o) t) as [[k'|e] t']; simpl.
    + apply wf_delete. exact Hadd.
    + destruct e; exact Hwf.
Qed.

Lemma wf_clear t : wf_table t -> wf_table (Dexie.clear t).
Proof.
  intros _. split; simpl.
  - intros k o Hk. rewrite lookup_empty in Hk. discriminate.
  - intros n [o Hk]. rewrite lookup_empty in Hk. discriminate.
Qed.

Lemma wf_db_set_tbl n t d : wf_db d -> wf_table t -> wf_db (set_tbl n t d).
Proof.
  intros Hd Ht m. rewrite tbl_set_tbl. destruct (decide (n = m)); [exact Ht | apply Hd].
Qed.

Lemma wf_free t : wf_table t -> rows t !! KNum (next_key t) = None.
Proof.
  intros [_ Hnext]. destruct (rows t !! KNum (next_key t)) eqn:Hk; [|reflexivity].
  specialize (Hnext (next_key t)). rewrite Hk in Hnext.
  specialize (Hnext (ltac:(eauto))). lia.
Qed.

Lemma wf_initial : wf_db (db initial).
Proof. intros n. destruct n; apply wf_empty_table. Qed.

Ltac wf_write :=
  intros ? ?;
  apply wf_db_set_tbl; [assumption|];
  first [ apply wf_add | apply wf_bulkAdd | apply wf_delete | apply wf_clear
        | apply wf_update ];
  auto.

Ltac wf_writes :=
  repeat first
    [ apply inv_table_add; wf_write
    | apply inv_table_bulkAdd; wf_write
    | apply inv_table_delete; wf_write
    | apply inv_table_clear; wf_write
    | apply inv_table_update; wf_write ].

Lemma inv_wf_import_into n records : inv wf_db (import_into n records).
Proof. unfold import_into. inv_steps; wf_writes. Qed.

Lemma inv_wf_addEmergency h data : inv wf_db (addEmergency h data).
Proof. unfold addEmergency. inv_steps; wf_writes. Qed.

Lemma inv_wf_clearAllData : inv wf_db clearAllData.
Proof. unfold clearAllData. inv_steps; wf_writes. Qed.

Lemma inv_wf_loadAllInitialData h : inv wf_db (loadAllInitialData h).
Proof.
  unfold loadAllInitialData, loadInitialEmergencyData, getAllEmergencies,
    fetch_emergency_json, load_body_part, symptom_item.
  inv_steps; try (destruct (emergency_json h) as [e|ok json]; inv_steps);
    apply inv_wf_addEmergency.
Qed.

Lemma inv_wf_resetAndReloadData h : inv wf_db (resetAndReloadData h).
Proof.
  unfold resetAndReloadData. inv_steps;
    [apply inv_wf_clearAllData | apply inv_wf_loadAllInitialData].
Qed.

Lemma inv_wf_checkAndLoadInitialData h : inv wf_db (checkAndLoadInitialData h).
Proof.
  unfold checkAndLoadInitialData, getAllEmergencies, getAllFoods, getAllContacts,
    getAllPhrases, getAllActivities.
  inv_steps. apply inv_wf_loadAllInitialData.
Qed.

Lemma inv_wf_importData data : inv wf_db (importData data).
Proof. unfold importData. inv_steps; apply inv_wf_import_into. Qed.

Lemma exec_wf h o w : wf_db (db w) -> wf_db (db (exec h o w)).
Proof.
  intros Hw.
  destruct o; cbn [exec] in *;
    match goal with
    | |- wf_db (db (?m w).2) => revert w Hw; change (inv wf_db m)
    end.
  all: try (unfold addEmergency, updateEmergency, deleteEmergency,
      addFood, updateFoodUsageCount, toggleFavorite,
      addContact, updateContactUsageCount, addPhrase, updatePhraseUsageCount,
      addOrder, updateOrderStatus, addActivity, updateActivityUsageCount,
      toggleActivityActive; inv_steps; wf_writes; fail).
  - apply inv_wf_importData.
  - apply inv_wf_clearAllData.
  - apply inv_wf_checkAndLoadInitialData.
  - apply inv_wf_resetAndReloadData.
Qed.

Lemma reachable_wf h w : reachable h w -> wf_db (db w).
Proof.
  induction 1 as [|o w Hreach IH|f o w Hreach IH]; [apply wf_initial| |].
  - apply exec_wf; assumption.
  - rewrite keeps_db_image_exec. exact IH.
Qed.

End WfFacts.

(** ** Bulk insertion *)

Module BulkFacts.

Import Dexie Database Machine DexieFacts OrderFacts WfFacts.

(** The sorted list of (key, record) pairs behind [toArray]. *)
Lemma sorted_pairs_unique (l1 l2 : list (ikey * obj)) :
  NoDup l1.*1 ->
  StronglySorted pk_le l1 -> StronglySorted pk_le l2 -> l1 ≡ₚ l2 -> l1 = l2.
Proof.
  intros Hnodup Hs1 Hs2 Hperm.
  apply (StronglySorted_unique_strong pk_le); try assumption.
  intros [k1 o1] [k2 o2] H1 H2 Hle Hge. unfold pk_le in *. simpl in *.
  rewrite <- Hperm in H2.
  assert (k1 = k2) as <- by (apply (anti_symm key_le); assumption).
  f_equal.
  apply list_elem_of_lookup in H1 as [i Hi].
  apply list_elem_of_lookup in H2 as [j Hj].
  assert (i = j) as <-.
  { apply (NoDup_lookup l1.*1 i j k1);
      [exact Hnodup
      | rewrite list_lookup_fmap, Hi; reflexivity
      | rewrite list_lookup_fmap, Hj; reflexivity]. }
  congruence.
Qed.

Lemma pairs_perm t : merge_sort pk_le (map_to_list (rows t)) ≡ₚ map_to_list (rows t).
Proof. apply merge_sort_Permutation. Qed.

Lemma pairs_NoDup t : NoDup (merge_sort pk_le (map_to_list (rows t))).*1.
Proof. rewrite pairs_perm. apply NoDup_fst_map_to_list. Qed.

Lemma pairs_lookup t k o :
  (k, o) ∈ merge_sort pk_le (map_to_list (rows t)) <-> rows t !! k = Some o.
Proof. rewrite pairs_perm. apply elem_of_map_to_list. Qed.

Lemma pairs_to_map t : list_to_map (merge_sort pk_le (map_to_list (rows t))) = rows t.
Proof.
  rewrite (list_to_map_proper _ (map_to_list (rows t))).
  - apply list_to_map_to_list.
  - apply pairs_NoDup.
  - apply pairs_perm.
Qed.

Lemma add_explicit o t k :
  o !! "id" = Some (key_value k) ->
  rows t !! k = None ->
  Dexie.add o t = (Ok k, Table (<[k := o]> (rows t)) (bump k (next_key t))).
Proof.
  intros Ho Hfree. unfold Dexie.add. rewrite Ho.
  pose proof (as_key_key_value k) as Hk.
  destruct k; cbn [key_value] in *; lazy beta iota; rewrite Hk, Hfree; reflexivity.
Qed.

Lemma bulkAdd_go_explicit (l : list (ikey * obj)) f t :
  NoDup l.*1 ->
  (forall k o, (k, o) ∈ l ->
               o !! "id" = Some (key_value k)
               /\ rows t !! k = None
               /\ bump k (next_key t) = next_key t) ->
  bulkAdd_go l.*2 f t = (Ok f, Table (list_to_map l ∪ rows t) (next_key t)).
Proof.
  revert t. induction l as [|[k o] l IH]; intros t Hnodup Hl.
  - simpl. rewrite (left_id ∅ (∪)). destruct t; reflexivity.
  - destruct (Hl k o) as (Ho & Hfree & Hbump); [left|].
    rewrite fmap_cons in Hnodup. apply NoDup_cons in Hnodup as [Hk Hnodup].
    simpl in Hk.
    csimpl. rewrite (add_explicit o t k Ho Hfree), Hbump.
    rewrite IH; [|exact Hnodup|].
    + simpl. do 2 f_equal.
      rewrite <- insert_union_l. symmetry. apply insert_union_r.
      apply not_elem_of_list_to_map_1. exact Hk.
    + intros k' o' Hin. destruct (Hl k' o') as (Ho' & Hfree' & Hbump'); [right; exact Hin|].
      split; [exact Ho'|]. split; [|exact Hbump']. simpl.
      rewrite lookup_insert_ne; [exact Hfree'|].
      intros ->. apply Hk. apply list_elem_of_fmap. exists (k', o'). split; [reflexivity|exact Hin].
Qed.

Lemma bulkAdd_restore t :
  wf_table t -> Dexie.bulkAdd (toArray t) (Dexie.clear t) = (Ok tt, t).
Proof.
  intros [Hid Hnext]. unfold Dexie.bulkAdd, toArray.
  rewrite bulkAdd_go_explicit.
  - simpl. rewrite (right_id ∅ (∪)), pairs_to_map. destruct t; reflexivity.
  - apply pairs_NoDup.
  - intros k o Hin. apply pairs_lookup in Hin.
    split; [eapply Hid; exact Hin|]. split; [apply lookup_empty|].
    simpl. destruct k as [n|s|l]; simpl; [|reflexivity|reflexivity].
    assert (n < next_key t)%Z by (apply Hnext; eauto). lia.
Qed.

End BulkFacts.

(** ** Seeding *)

Module SeedFacts.

Import Dexie Database InitialDataLoader Machine DexieFacts DatabaseFacts OrderFacts BulkFacts.

Lemma toArray_empty t : rows t = ∅ -> toArray t = [].
Proof. intros H. unfold toArray. rewrite H, map_to_list_empty. reflexivity. Qed.

Lemma orderBy_empty field t : rows t = ∅ -> orderBy field t = [].
Proof.
  intros H. unfold orderBy, index_entries. rewrite H, map_to_list_empty. reflexivity.
Qed.

Lemma between_clear t : between (next_key t) (Dexie.clear t).
Proof.
  split; [simpl; lia|].
  intros k [o Hk]. simpl in Hk. rewrite lookup_empty in Hk. discriminate.
Qed.

Lemma between_free lo t : between lo t -> rows t !! KNum (next_key t) = None.
Proof.
  intros [_ Hb]. destruct (rows t !! KNum (next_key t)) eqn:Hk; [|reflexivity].
  destruct (Hb (KNum (next_key t))) as (m & Heq & Hlt); [eauto|].
  inversion Heq. lia.
Qed.

(** Adding under a generated key appends to the listing by key. *)
Lemma toArray_add_generated lo o t :
  between lo t -> o !! "id" = None ->
  exists t',
    Dexie.add o t = (Ok (KNum (next_key t)), t')
    /\ between lo t'
    /\ toArray t' = (toArray t ++ [<["id" := VNum (next_key t)]> o])%list.
Proof.
  intros Hbetween Ho. pose proof (between_free lo t Hbetween) as Hfree.
  destruct Hbetween as [Hlo Hb].
  rewrite (add_generated o t Ho Hfree). eexists. split; [reflexivity|]. split.
  - split; [simpl; lia|]. intros k [r Hk]. simpl in *.
    destruct (decide (KNum (next_key t) = k)) as [<-|Hne].
    + exists (next_key t). split; [reflexivity|lia].
    + rewrite lookup_insert_ne in Hk by exact Hne.
      destruct (Hb k) as (m & -> & Hlt); [eauto|]. exists m. split; [reflexivity|lia].
  - unfold toArray. simpl.
    set (k := KNum (next_key t)). set (r := <["id" := VNum (next_key t)]> o).
    rewrite (sorted_pairs_unique
               (merge_sort pk_le (map_to_list (<[k:=r]> (rows t))))
               (merge_sort pk_le (map_to_list (rows t)) ++ [(k, r)])%list).
    + rewrite fmap_app. reflexivity.
    + rewrite merge_sort_Permutation. apply NoDup_fst_map_to_list.
    + apply StronglySorted_merge_sort; apply _.
    + apply StronglySorted_app_2.
      * intros [k1 o1] x2 H1 H2. apply list_elem_of_singleton in H2 as ->.
        apply pairs_lookup in H1. unfold pk_le. simpl.
        destruct (Hb k1) as (m & -> & Hlt); [eauto|]. subst k.
        apply key_le_numbers. lia.
      * apply StronglySorted_merge_sort; apply _.
      * repeat constructor.
    + rewrite !merge_sort_Permutation.
      rewrite map_to_list_insert by exact Hfree.
      rewrite Permutation_app_comm. reflexivity.
Qed.

Lemma map_M_symptom_item h ss w :
  exists syms w',
    map_M (symptom_item h) ss w = (Ok syms, w')
    /\ db w' = db w
    /\ List.map plain_symptom syms = List.map seed_symptom ss.
Proof.
  revert w. induction ss as [|s ss IH]; intros w.
  - exists [], w. repeat split; reflexivity.
  - destruct (IH (tick w)) as (syms & w' & Hrun & Hdb & Hplain).
    eexists _, w'. simpl. unfold bind at 1. unfold symptom_item at 1.
    unfold bind at 1. unfold now. simpl. unfold bind at 1. rewrite Hrun. simpl.
    split; [reflexivity|]. split; [exact Hdb|].
    simpl. rewrite Hplain. reflexivity.
Qed.

Lemma plain_stored k t bp syms :
  plain (with_id k (stamp false t (emergency_item bp syms)))
  = emergency_item bp (List.map plain_symptom syms).
Proof.
  unfold plain, with_id, stamp.
  rewrite delete_insert_ne by discriminate.
  rewrite delete_insert_eq.
  rewrite delete_insert_eq.
  rewrite (delete_id (emergency_item bp syms) "createdAt") by reflexivity.
  rewrite (delete_id (emergency_item bp syms) "id") by reflexivity.
  unfold emergency_item.
  rewrite !lookup_insert_ne by discriminate. rewrite lookup_singleton_eq.
  apply map_eq. intros f.
  rewrite !lookup_insert. rewrite !lookup_singleton.
  repeat case_decide; congruence.
Qed.

Lemma load_body_part_run h bp lo w :
  between lo (emergencies (db w)) ->
  exists w',
    load_body_part h bp w = (Ok tt, w')
    /\ between lo (emergencies (db w'))
    /\ (forall n, n <> Emergencies -> tbl n (db w') = tbl n (db w))
    /\ plain <$> toArray (emergencies (db w'))
       = ((plain <$> toArray (emergencies (db w))) ++ [seed_item bp])%list.
Proof.
  intros Hb.
  destruct (map_M_symptom_item h (bp_symptoms bp) w) as (syms & w1 & Hsyms & Hdb & Hplain).
  unfold load_body_part, bind. rewrite Hsyms.
  unfold addEmergency, logged, try_catch, bind, now, table_add, ret.
  cbn [db tick tbl fst snd].
  rewrite Hdb.
  set (item := stamp false (toISOString h (clock h (reads w1))) (emergency_item bp syms)).
  destruct (toArray_add_generated lo item (emergencies (db w)) Hb)
    as (t' & Hadd & Hb' & Harr).
  { unfold item. rewrite stamp_lookup_other by discriminate. reflexivity. }
  rewrite Hadd. eexists. split; [reflexivity|].
  cbn [db set_db tbl set_tbl emergencies].
  split; [exact Hb'|]. split.
  - intros n Hn. destruct n; try reflexivity. congruence.
  - rewrite Harr, fmap_app. f_equal. simpl. f_equal.
    unfold item. 
    change (<["id" := VNum (next_key (emergencies (db w)))]> ?x)
      with (with_id (KNum (next_key (emergencies (db w)))) x).
    rewrite plain_stored, Hplain. reflexivity.
Qed.

Lemma for_of_load_run h parts lo w :
  between lo (emergencies (db w)) ->
  exists w',
    for_of parts (load_body_part h) w = (Ok tt, w')
    /\ between lo (emergencies (db w'))
    /\ (forall n, n <> Emergencies -> tbl n (db w') = tbl n (db w))
    /\ plain <$> toArray (emergencies (db w'))
       = ((plain <$> toArray (emergencies (db w))) ++ (seed_item <$> parts))%list.
Proof.
  revert w. induction parts as [|bp parts IH]; intros w Hb.
  - exists w. split; [reflexivity|]. split; [exact Hb|]. split; [reflexivity|].
    simpl. rewrite app_nil_r. reflexivity.
  - destruct (load_body_part_run h bp lo w Hb) as (w1 & Hrun & Hb1 & Hother & Harr).
    destruct (IH w1 Hb1) as (w' & Hrun' & Hb' & Hother' & Harr').
    exists w'. simpl. unfold bind. rewrite Hrun. split; [exact Hrun'|].
    split; [exact Hb'|]. split.
    + intros n Hn. rewrite Hother', Hother by exact Hn. reflexivity.
    + rewrite Harr', Harr. rewrite <- app_assoc. reflexivity.
Qed.

Lemma clearAllData_run w :
  exists w',
    clearAllData w = (Ok true, w')
    /\ forall n, tbl n (db w') = Dexie.clear (tbl n (db w)).
Proof.
  eexists. split; [reflexivity|]. intros n. destruct n; reflexivity.
Qed.

Lemma resetAndReloadData_run h w :
  exists w',
    resetAndReloadData h w = (reset_outcome h, w')
    /\ (forall n, n <> Emergencies -> tbl n (db w') = Dexie.clear (tbl n (db w)))
    /\ between (next_key (emergencies (db w))) (emergencies (db w'))
    /\ match emergency_json h with
       | Response true (Ok parts) =>
           plain <$> toArray (emergencies (db w')) = seed_item <$> parts
       | _ => emergencies (db w') = Dexie.clear (emergencies (db w))
       end.
Proof.
  destruct (clearAllData_run w) as (wc & Hclear & Htbl).
  unfold resetAndReloadData, loadAllInitialData, loadInitialEmergencyData,
    getAllEmergencies, table_orderBy_reverse, logged, try_catch, bind.
  rewrite Hclear.
  change (emergencies (db wc)) with (tbl Emergencies (db wc)).
  rewrite (orderBy_empty "createdAt" (tbl Emergencies (db wc)))
    by (rewrite Htbl; reflexivity).
  cbn [Dexie.reverse List.rev length Nat.ltb Nat.leb].
  unfold reset_outcome, fetch_emergency_json, throw, lift.
  destruct (emergency_json h) as [e|[|] [parts|e]]; cbn [fst snd].
  - exists wc. split; [reflexivity|]. split; [intros n _; apply Htbl|].
    split; [|apply (Htbl Emergencies)].
    change (emergencies (db wc)) with (tbl Emergencies (db wc)).
    rewrite Htbl. apply (between_clear (emergencies (db w))).
  - destruct (for_of_load_run h parts (next_key (emergencies (db w))) wc)
      as (w' & Hrun & Hb' & Hother & Harr).
    { change (emergencies (db wc)) with (tbl Emergencies (db wc)).
      rewrite Htbl. apply (between_clear (emergencies (db w))). }
    rewrite Hrun. exists w'. split; [reflexivity|]. split; [|split; [exact Hb'|]].
    + intros n Hn. rewrite Hother by exact Hn. apply Htbl.
    + rewrite Harr.

      change (emergencies (db wc)) with (tbl Emergencies (db wc)).
      rewrite toArray_empty by (rewrite Htbl; reflexivity). reflexivity.
  - exists wc. split; [reflexivity|]. split; [intros n _; apply Htbl|].
    split; [|apply (Htbl Emergencies)].
    change (emergencies (db wc)) with (tbl Emergencies (db wc)).
    rewrite Htbl. apply (between_clear (emergencies (db w))).
  - exists wc. split; [reflexivity|]. split; [intros n _; apply Htbl|].
    split; [|apply (Htbl Emergencies)].
    change (emergencies (db wc)) with (tbl Emergencies (db wc)).
    rewrite Htbl. apply (between_clear (emergencies (db w))).
  - exists wc. split; [reflexivity|]. split; [intros n _; apply Htbl|].
    split; [|apply (Htbl Emergencies)].
    change (emergencies (db wc)) with (tbl Emergencies (db wc)).
    rewrite Htbl. apply (between_clear (emergencies (db w))).
Qed.

Lemma clear_clear t : Dexie.clear (Dexie.clear t) = Dexie.clear t.
Proof. reflexivity. Qed.

End SeedFacts.

(** ** What an operation does to the stored records *)

Module StampFacts.

Import Dexie Database InitialDataLoader Machine DexieFacts DatabaseFacts InvariantFacts WfFacts SeedFacts.

(** Adding never touches the records already stored. *)
Lemma add_grows o t : rows t ⊆ rows (Dexie.add o t).2.
Proof.
  unfold Dexie.add.
  assert (Hgen : rows t ⊆ rows
            (match rows t !! KNum (next_key t) with
             | Some _ => (Threw ConstraintError, t)
             | None =>
                 (Ok (KNum (next_key t)),
                  Table (<[KNum (next_key t) := <["id" := VNum (next_key t)]> o]> (rows t))
                        (next_key t + 1))
             end).2).
  { destruct (rows t !! KNum (next_key t)) eqn:Hfree; simpl;
      [reflexivity | apply insert_subseteq; assumption]. }
  destruct (o !! "id") as [v|]; [|exact Hgen].
  destruct (as_key v) as [k|] eqn:Hk.
  - destruct v; try discriminate Hk;
      (destruct (rows t !! k) eqn:Hfree; simpl;
       [reflexivity | apply insert_subseteq; assumption]).
  - destruct v; try exact Hgen; reflexivity.
Qed.

Lemma bulkAdd_go_grows os f t : rows t ⊆ rows (bulkAdd_go os f t).2.
Proof.
  revert f t. induction os as [|o os IH]; intros f t; simpl; [reflexivity|].
  pose proof (add_grows o t) as Hadd.
  destruct (Dexie.add o t) as [[k|e] t'];
    [etransitivity; [exact Hadd | apply IH]|].
  destruct e; try (etransitivity; [exact Hadd | apply IH]). exact Hadd.
Qed.

Lemma bulkAdd_grows os t : rows t ⊆ rows (Dexie.bulkAdd os t).2.
Proof.
  unfold Dexie.bulkAdd. pose proof (bulkAdd_go_grows os 0 t) as H.
  destruct (bulkAdd_go os 0 t) as [[[|n]|e] t']; exact H.
Qed.

Lemma grown_set_tbl d0 d n t :
  grown d0 d -> rows (tbl n d) ⊆ rows t -> grown d0 (set_tbl n t d).
Proof.
  intros Hg Ht m. rewrite tbl_set_tbl. destruct (decide (n = m)) as [<-|_].
  - etransitivity; [apply Hg | exact Ht].
  - apply Hg.
Qed.

Ltac grown_writes :=
  repeat first
    [ apply inv_table_add; intros ? ?; apply grown_set_tbl;
      [assumption | apply add_grows]
    | apply inv_table_bulkAdd; intros ? ?; apply grown_set_tbl;
      [assumption | apply bulkAdd_grows] ].

Lemma inv_grown_addEmergency d0 h data : inv (grown d0) (addEmergency h data).
Proof. unfold addEmergency. inv_steps; grown_writes. Qed.

Lemma inv_grown_loadAllInitialData d0 h : inv (grown d0) (loadAllInitialData h).
Proof.
  unfold loadAllInitialData, loadInitialEmergencyData, getAllEmergencies,
    fetch_emergency_json, load_body_part, symptom_item.
  inv_steps; try (destruct (emergency_json h) as [e|ok json]; inv_steps);
    apply inv_grown_addEmergency.
Qed.

Lemma inv_grown_checkAndLoadInitialData d0 h :
  inv (grown d0) (checkAndLoadInitialData h).
Proof.
  unfold checkAndLoadInitialData, getAllEmergencies, getAllFoods, getAllContacts,
    getAllPhrases, getAllActivities.
  inv_steps. apply inv_grown_loadAllInitialData.
Qed.

Lemma inv_grown_importData d0 data : inv (grown d0) (importData data).
Proof. unfold importData, import_into. inv_steps; grown_writes. Qed.

Lemma exec_grown_from d0 h o w :
  adds_only o -> grown d0 (db w) -> grown d0 (db (exec h o w)).
Proof.
  intros Hadds Hd0.
  destruct o; try (exfalso; exact Hadds); cbn [exec];
    match goal with
    | |- grown d0 (db (?m w).2) => revert w Hd0; change (inv (grown d0) m)
    end.
  all: try (unfold addEmergency, addFood, addContact, addPhrase, addOrder,
      addActivity; inv_steps; grown_writes; fail).
  - apply inv_grown_importData.
  - apply inv_grown_checkAndLoadInitialData.
Qed.

Lemma exec_grown h o w : adds_only o -> grown (db w) (db (exec h o w)).
Proof. intros Hadds. apply exec_grown_from; [exact Hadds | intros n; reflexivity]. Qed.

Lemma updated_row n m id patch w k r r' :
  rows (tbl m (db w)) !! k = Some r ->
  rows (tbl m (db (updated n id patch w))) !! k = Some r' ->
  r' = r \/ (m = n /\ k = id /\ r' = apply_patch patch r).
Proof.
  intros Hr Hr'. rewrite tbl_updated in Hr'.
  destruct (decide (n = m)) as [<-|Hne]; [|left; congruence].
  destruct (decide (id = k)) as [<-|Hk].
  - rewrite (rows_patched_eq id patch _ r Hr) in Hr'. right. split; [reflexivity|].
    split; [reflexivity|]. congruence.
  - rewrite rows_patched_ne in Hr' by exact Hk. left. congruence.
Qed.

(** An update leaves a record as it is, or makes the changes on it; a
    record that moves to another key is a record that was not there
    before. *)
Lemma update_row k cs t j r r' :
  rows t !! j = Some r ->
  rows (Dexie.update k cs t).2 !! j = Some r' ->
  r' = r \/ (j = k /\ r' = modify cs r).
Proof.
  intros Hr Hr'. unfold Dexie.update in Hr'.
  destruct (rows t !! k) as [o|] eqn:Hrow; [|left; simpl in Hr'; congruence].
  case_bool_decide as Hsame; simpl in Hr'.
  - destruct (decide (k = j)) as [<-|Hne].
    + rewrite lookup_insert_eq in Hr'. right. split; [reflexivity|]. congruence.
    + rewrite lookup_insert_ne in Hr' by exact Hne. left. congruence.
  - pose proof (add_grows (modify cs o) t) as Hgrows.
    destruct (Dexie.add (modify cs o) t) as [[k'|e] t']; simpl in Hr', Hgrows.
    + apply lookup_delete_Some in Hr' as [_ Hr'].
      apply (lookup_weaken _ _ _ _ Hr) in Hgrows. left. congruence.
    + left. destruct e; simpl in Hr'; congruence.
Qed.

Lemma delete_clear_row h o w m k r r' :
  match o with DeleteEmergency _ | ClearAllData => True | _ => False end ->
  rows (tbl m (db w)) !! k = Some r ->
  rows (tbl m (db (exec h o w))) !! k = Some r' ->
  r' = r.
Proof.
  intros Ho Hr Hr'. destruct o; try (exfalso; exact Ho); cbn [exec] in Hr'.
  - destruct m; simpl in Hr, Hr'; try congruence.
    apply lookup_delete_Some in Hr' as [_ Hr']. congruence.
  - destruct m; simpl in Hr'; rewrite lookup_empty in Hr'; discriminate.
Qed.

Lemma reset_row h w m k r r' :
  wf_db (db w) ->
  rows (tbl m (db w)) !! k = Some r ->
  rows (tbl m (db (resetAndReloadData h w).2)) !! k = Some r' ->
  False.
Proof.
  intros Hwf Hr Hr'.
  destruct (resetAndReloadData_run h w) as (w' & Hrun & Hother & [_ Hbetween] & _).
  rewrite Hrun in Hr'. simpl in Hr'.
  destruct (decide (m = Emergencies)) as [->|Hm].
  - destruct (Hbetween k) as (z & -> & Hz); [eauto|].
    destruct (Hwf Emergencies) as [_ Hnext].
    specialize (Hnext z). simpl in Hnext, Hr. rewrite Hr in Hnext.
    specialize (Hnext (ltac:(eauto))). lia.
  - rewrite Hother in Hr' by exact Hm. simpl in Hr'. rewrite lookup_empty in Hr'.
    discriminate.
Qed.

Lemma apply_patch_createdAt patch r :
  patch !! "createdAt" = None ->
  apply_patch patch r !! "createdAt" = r !! "createdAt".
Proof. apply lookup_apply_patch_None. Qed.

Lemma apply_patch_updatedAt patch r t :
  patch !! "updatedAt" = Some (VStr t) ->
  apply_patch patch r !! "updatedAt" = Some (VStr t).
Proof. intros H. rewrite lookup_apply_patch, H. reflexivity. Qed.

Ltac update_case Hr Hr' :=
  cbn [exec] in Hr';
  first [ rewrite updateOrderStatus_run in Hr'
        | rewrite updateFoodUsageCount_run in Hr'
        | rewrite toggleFavorite_run in Hr'
        | rewrite updateContactUsageCount_run in Hr'
        | rewrite updatePhraseUsageCount_run in Hr'
        | rewrite updateActivityUsageCount_run in Hr'
        | rewrite toggleActivityActive_run in Hr' ];
  try match type of Hr' with
      | context [match ?x with Some _ => _ | None => _ end] =>
          destruct x; cbn [snd] in Hr'
      end;
  cbn [snd] in Hr';
  try (left; cbn [db tick] in Hr'; congruence);
  apply (updated_row _ _ _ _ _ _ _ _ Hr) in Hr'.

End StampFacts.

(** ** Key paths and moved records, run on the model *)

Module UpdateFacts.

Import Dexie Database Machine Examples.

(** A dotted name reaches into the record: the usage count of the first
    symptom of the seeded emergency. *)
Example nested_change :
  (rows (emergencies
           (db (updateEmergency (KNum 1) [("symptoms.0.usageCount", VNum 5)] seeded).2))
     !! KNum 1
     ≫= (fun r : obj => r !! "symptoms"
     ≫= (fun symptoms => own "0" symptoms
     ≫= (fun symptom => own "usageCount" symptom))))
  = Some (VNum 5).
Proof. vm_compute. reflexivity. Qed.

(** Changes that name [id] move the record: it is found under the new
    key and no longer under the old one, which is why the call resolves
    to [undefined]; the key generator has moved past the new key. *)
Example moved_record :
  let r := updateEmergency (KNum 1) [("id", VNum 7)] seeded in
  r.1 = Ok None
  /\ rows (emergencies (db r.2)) !! KNum 1 = None
  /\ (rows (emergencies (db r.2)) !! KNum 7 ≫= (fun o => o !! "name"))
     = Some (VStr "Head")
  /\ next_key (emergencies (db r.2)) = 8.
Proof. repeat split; vm_compute; reflexivity. Qed.

(** An [id] that is no valid key is refused, and nothing changes. *)
Example refused_id :
  updateEmergency (KNum 1) [("id", VNull)] seeded = (Threw DataError, seeded).
Proof. vm_compute. reflexivity. Qed.

End UpdateFacts.

(** ** The scenario of the specification, run on the model *)

Module Scenario.

Import Dexie Database Machine Examples.

(** Adding Mom resolves to the stored record, whose id is 1. *)
Example mom_is_added :
  addContact ticking mom initial = (Ok mom_stored, mom_world)
  /\ mom_stored !! "id" = Some (VNum 1)
  /\ rows (contacts (db mom_world)) !! KNum 1 = Some mom_stored.
Proof. repeat split; vm_compute; reflexivity. Qed.

(** Three usage-count calls, one after the other, leave the counter at 3. *)
Example three_uses :
  (rows (contacts (db used_three_times)) !! KNum 1 ≫= (fun r => r !! "usageCount"))
  = Some (VNum 3).
Proof. vm_compute. reflexivity. Qed.

(** The export then holds one contact, with usage count 3. *)
Example export_of_three_uses :
  match (exportData used_three_times).1 with
  | Ok snapshot => (fun r => prop r "usageCount") <$> x_contacts snapshot
  | Threw _ => []
  end = [VNum 3].
Proof. vm_compute. reflexivity. Qed.

(** After clearing, the contact listing is empty. *)
Example cleared_listing :
  (getAllContacts (clearAllData used_three_times).2).1 = Ok [].
Proof. vm_compute. reflexivity. Qed.

(** Importing the export brings the contact back. *)
Example import_brings_mom_back :
  match (round_trip used_three_times) with
  | (Ok true, w) => (fun r => (prop r "name", prop r "usageCount")) <$> records Contacts w
  | _ => []
  end = [(VStr "Mom", VNum 3)].
Proof. vm_compute. reflexivity. Qed.

End Scenario.

(** * The specification, claim by claim *)

(** ** Enumerated fields *)

Module ValidationSpec.

Import Dexie Database Machine Examples DexieFacts DatabaseFacts WfFacts.

(** C1 (amended). For a record whose category-like field lies outside the
    enumerated set of its type, the validator of that type returns an error
    list that names the field ('Invalid relationship', 'Invalid gender',
    'Invalid category', 'Invalid status'), provided the name-like field can
    be trimmed (it is a string, undefined or null).  The validators are
    functions of the record alone.  The add operations do not consult them:
    in every reachable state a record without id is stored under the
    generated key with every field as given, whatever its category; and
    [updateOrderStatus] writes whatever status it is handed. *)
Theorem C1_validators_flag_adds_persist :
  (forall data name,
      optional_trim (prop data "name") = Ok name ->
      (validateEnum (prop data "relationship") CONTACT_RELATIONSHIPS = false ->
       exists errs, validateContactData data = Ok errs /\ "Invalid relationship" ∈ errs)
      /\ (validateEnum (prop data "gender") CONTACT_GENDER = false ->
          exists errs, validateContactData data = Ok errs /\ "Invalid gender" ∈ errs)
      /\ (validateEnum (prop data "category") FOOD_CATEGORIES = false ->
          exists errs, validateFoodData data = Ok errs /\ "Invalid category" ∈ errs)
      /\ (validateEnum (prop data "category") ACTIVITY_CATEGORIES = false ->
          exists errs, validateActivityData data = Ok errs /\ "Invalid category" ∈ errs))
  /\ (forall data text,
         optional_trim (prop data "text") = Ok text ->
         validateEnum (prop data "category") PHRASE_CATEGORIES = false ->
         exists errs, validatePhraseData data = Ok errs /\ "Invalid category" ∈ errs)
  /\ (forall data number,
         optional_trim (prop data "orderNumber") = Ok number ->
         validateEnum (prop data "status") ORDER_STATUS = false ->
         exists errs, validateOrderData data = Ok errs /\ "Invalid status" ∈ errs)
  /\ (forall h n data w,
         reachable h w ->
         data !! "id" = None ->
         exists r w',
           adder h n data w = (Ok r, w')
           /\ rows (tbl n (db w')) !! KNum (next_key (tbl n (db w))) = Some r
           /\ forall f, f <> "id" -> f <> "createdAt" -> f <> "updatedAt" ->
                        r !! f = data !! f)
  /\ (forall h id status w o,
         rows (orders (db w)) !! id = Some o ->
         status <> VUndef ->
         exists o' w',
           updateOrderStatus h id status w = (Ok (Some o'), w')
           /\ rows (orders (db w')) !! id = Some o'
           /\ o' !! "status" = Some status).
Proof.
  split; [|split; [|split; [|split]]].
  - intros data name Hname. split; [|split; [|split]]; intros Henum.
    + unfold validateContactData. rewrite Hname, Henum. simpl.
      eexists. split; [reflexivity|]. apply push_if_keeps, push_if_adds.
    + unfold validateContactData. rewrite Hname, Henum. simpl.
      eexists. split; [reflexivity|]. apply push_if_adds.
    + unfold validateFoodData. rewrite Hname, Henum. simpl.
      eexists. split; [reflexivity|]. apply push_if_adds.
    + unfold validateActivityData. rewrite Hname, Henum. simpl.
      eexists. split; [reflexivity|]. apply push_if_keeps, push_if_adds.
  - intros data text Htext Henum.
    unfold validatePhraseData. rewrite Htext, Henum. simpl.
    eexists. split; [reflexivity|]. apply push_if_adds.
  - intros data number Hnumber Henum.
    unfold validateOrderData. rewrite Hnumber, Henum. simpl.
    eexists. split; [reflexivity|]. apply push_if_adds.
  - intros h n data w Hreach Hid.
    assert (Hfree : rows (tbl n (db w)) !! KNum (next_key (tbl n (db w))) = None)
      by (apply wf_free, reachable_wf with h; exact Hreach).
    rewrite adder_run. simpl.
    rewrite add_generated; [|rewrite stamp_lookup_other by discriminate; exact Hid|exact Hfree].
    eexists _, _. split; [reflexivity|]. split.
    + simpl. rewrite tbl_set_tbl_eq. simpl. rewrite lookup_insert_eq. reflexivity.
    + intros f Hf Hc Hu. unfold with_id. simpl.
      rewrite lookup_insert_ne by congruence.
      apply stamp_lookup_other; assumption.
  - intros h id status w o Hrow Hstatus.
    rewrite updateOrderStatus_run.
    eexists _, _. split; [|split].
    + rewrite (rows_patched_eq id _ _ o) by exact Hrow. reflexivity.
    + apply (rows_updated_eq Orders). exact Hrow.
    + rewrite lookup_apply_patch. unfold status_patch. rewrite lookup_insert_eq.
      destruct status; congruence.
Qed.

(** C1 at work: a record with unknown relationship, gender and category, a
    phrase and an order outside their sets, and a food with category
    'fastfood' added to a fresh database. *)
Lemma C1_validators_flag_adds_persist_witness :
  (exists errs, validateContactData misfit = Ok errs /\ "Invalid relationship" ∈ errs)
  /\ (exists errs, validateContactData misfit = Ok errs /\ "Invalid gender" ∈ errs)
  /\ (exists errs, validateFoodData misfit = Ok errs /\ "Invalid category" ∈ errs)
  /\ (exists errs, validateActivityData misfit = Ok errs /\ "Invalid category" ∈ errs)
  /\ (exists errs, validatePhraseData slang = Ok errs /\ "Invalid category" ∈ errs)
  /\ (exists errs, validateOrderData lost_order = Ok errs /\ "Invalid status" ∈ errs)
  /\ (exists r w',
         addFood ticking pizza initial = (Ok r, w')
         /\ rows (foods (db w')) !! KNum 1 = Some r
         /\ r !! "category" = Some (VStr "fastfood"))
  /\ (exists o' w',
         updateOrderStatus ticking (KNum 1) (VStr "lost") lost_order_world
         = (Ok (Some o'), w')
         /\ rows (orders (db w')) !! KNum 1 = Some o'
         /\ o' !! "status" = Some (VStr "lost")).
Proof.
  destruct C1_validators_flag_adds_persist as (Hname & Hphrase & Horder & Hadd & Hstatus).
  destruct (Hname misfit (VStr "Bob") eq_refl) as (Hrel & Hgen & Hfood & Hact).
  split; [apply Hrel; reflexivity|].
  split; [apply Hgen; reflexivity|].
  split; [apply Hfood; reflexivity|].
  split; [apply Hact; reflexivity|].
  split; [apply (Hphrase slang (VStr "Yo")); reflexivity|].
  split; [apply (Horder lost_order (VStr "A1")); reflexivity|].
  split.
  - destruct (Hadd ticking Foods pizza initial) as (r & w' & Hrun & Hrow & Hsame);
      [apply reach_initial | reflexivity |].
    exists r, w'. split; [exact Hrun|]. split; [exact Hrow|].
    rewrite Hsame by discriminate. reflexivity.
  - apply (Hstatus ticking (KNum 1) (VStr "lost") lost_order_world
             (with_id (KNum 1) (stamp true (stamp_of ticking initial) lost_order))).
    + vm_compute. reflexivity.
    + discriminate.
Defined.

(** C1 as stated fails: 'fastfood' is not a food category, yet [addFood]
    resolves and the record is in the collection afterwards. *)
Lemma C1_counterexample :
  validateEnum (prop pizza "category") FOOD_CATEGORIES = false
  /\ ~ (exists e w', addFood ticking pizza initial = (Threw e, w')
                     /\ db w' = db initial)
  /\ records Foods initial = []
  /\ length (records Foods (addFood ticking pizza initial).2) = 1%nat.
Proof.
  split; [reflexivity|]. split.
  - intros (e & w' & Hrun & _). vm_compute in Hrun. discriminate Hrun.
  - split; vm_compute; reflexivity.
Qed.

End ValidationSpec.

(** ** Export, import and reset *)

Module BulkSpec.

Import Dexie Database InitialDataLoader Machine Examples DexieFacts OrderFacts WfFacts BulkFacts.

Lemma round_trip_wf w : wf_db (db w) -> round_trip w = (Ok true, w).
Proof.
  intros Hwf.
  pose proof (Hwf Emergencies) as He. pose proof (Hwf Foods) as Hf.
  pose proof (Hwf Contacts) as Hc. pose proof (Hwf Phrases) as Hp.
  pose proof (Hwf Orders) as Ho. pose proof (Hwf Activities) as Ha.
  destruct w as [[e f c p o a] images r d]. simpl in He, Hf, Hc, Hp, Ho, Ha.
  unfold round_trip, exportData, clearAllData, importData, import_into, of_snapshot,
    transaction, logged, try_catch, bind, ret, throw,
    table_toArray, table_clear, table_bulkAdd, set_db.
  cbn [db tbl set_tbl emergencies foods contacts phrases orders activities
       i_emergencies i_foods i_contacts i_phrases i_orders i_activities
       x_emergencies x_foods x_contacts x_phrases x_orders x_activities
       userImages reads draws fst snd].
  rewrite (bulkAdd_restore e He).
  cbn [db tbl set_tbl emergencies foods contacts phrases orders activities
       userImages reads draws fst snd].
  rewrite (bulkAdd_restore f Hf).
  cbn [db tbl set_tbl emergencies foods contacts phrases orders activities
       userImages reads draws fst snd].
  rewrite (bulkAdd_restore c Hc).
  cbn [db tbl set_tbl emergencies foods contacts phrases orders activities
       userImages reads draws fst snd].
  rewrite (bulkAdd_restore p Hp).
  cbn [db tbl set_tbl emergencies foods contacts phrases orders activities
       userImages reads draws fst snd].
  rewrite (bulkAdd_restore o Ho).
  cbn [db tbl set_tbl emergencies foods contacts phrases orders activities
       userImages reads draws fst snd].
  rewrite (bulkAdd_restore a Ha).
  reflexivity.
Qed.

(** C2. In every state that the operations can reach from a fresh
    installation, [exportData] resolves to a snapshot and changes nothing;
    after [clearAllData], [importData] of that snapshot resolves and the six
    collections, record ids and key generators included, are what they were
    before the export. *)
Theorem C2_export_clear_import h w :
  reachable h w ->
  exists snapshot w1 w2,
    exportData w = (Ok snapshot, w)
    /\ clearAllData w = (Ok true, w1)
    /\ importData (of_snapshot snapshot) w1 = (Ok true, w2)
    /\ db w2 = db w.
Proof.
  intros Hreach. apply reachable_wf in Hreach.
  pose proof (round_trip_wf w Hreach) as Hrt.
  unfold round_trip, bind in Hrt.
  destruct (exportData w) as [[snapshot|e] w0] eqn:Hexport; [|discriminate Hrt].
  assert (w0 = w) as -> by (unfold exportData in Hexport; inversion Hexport; reflexivity).
  destruct (clearAllData w) as [[b|e] w1] eqn:Hclear; [|discriminate Hrt].
  assert (b = true) as -> by (unfold clearAllData in Hclear; inversion Hclear; reflexivity).
  exists snapshot, w1, w. repeat split; try reflexivity. exact Hrt.
Qed.

(** C2 at work: the round trip after Mom has been added and used once. *)
Lemma C2_export_clear_import_witness :
  reachable ticking visited
  /\ exists snapshot w1 w2,
       exportData visited = (Ok snapshot, visited)
       /\ clearAllData visited = (Ok true, w1)
       /\ importData (of_snapshot snapshot) w1 = (Ok true, w2)
       /\ db w2 = db visited.
Proof.
  assert (Hreach : reachable ticking visited).
  { unfold visited. apply reach_exec.
    apply reach_exec. apply reach_initial. }
  split; [exact Hreach|].
  apply (C2_export_clear_import ticking visited Hreach).
Defined.

End BulkSpec.

(** ** Usage counters and missing ids *)

Module UsageSpec.

Import Dexie Database Machine Examples DexieFacts DatabaseFacts.

(** C10 (amended). On a stored record, one call of the usage-count
    operation of its collection (foods, contacts, phrases, activities)
    resolves to the updated record, which is the one then stored under
    the id; its [usageCount] is 1 when the counter was absent or
    undefined, and the old value plus 1 when it was an integer from
    -2^53 up to 2^53 - 1.  For any integer counter the new value is the
    double nearest to the old value plus 1. *)
Theorem C10_increment_usage h n inc :
  incrementUsage h n = Some inc ->
  forall w id o,
    rows (tbl n (db w)) !! id = Some o ->
    exists o' w',
      inc id w = (Ok (Some o'), w')
      /\ rows (tbl n (db w')) !! id = Some o'
      /\ (prop o "usageCount" = VUndef -> o' !! "usageCount" = Some (VNum 1))
      /\ (forall c, prop o "usageCount" = VNum c ->
                    (- 2 ^ 53 <= c < 2 ^ 53)%Z ->
                    o' !! "usageCount" = Some (VNum (c + 1)))
      /\ (forall c, prop o "usageCount" = VNum c ->
                    o' !! "usageCount" = Some (VNum (to_double (c + 1)))).
Proof.
  intros Hinc w id o Hrow.
  assert (Hsmall : forall (o' : obj),
             (forall c, prop o "usageCount" = VNum c ->
                        o' !! "usageCount" = Some (VNum (to_double (c + 1)))) ->
             forall c, prop o "usageCount" = VNum c ->
                       (- 2 ^ 53 <= c < 2 ^ 53)%Z ->
                       o' !! "usageCount" = Some (VNum (c + 1))).
  { intros o' Hall c Hc Hrange. rewrite (Hall c Hc).
    rewrite to_double_small by lia. reflexivity. }
  destruct n; simpl in Hinc; inversion Hinc; subst inc; clear Hinc; simpl in Hrow.
  - rewrite updateFoodUsageCount_run, Hrow.
    eexists _, _. split; [reflexivity|]. split.
    + apply (rows_updated_eq Foods). exact Hrow.
    + destruct (usage_patch_count o) as [Hundef Hnum].
      split; [exact Hundef|]. split; [apply Hsmall|]; exact Hnum.
  - rewrite updateContactUsageCount_run, Hrow.
    eexists _, _. split; [reflexivity|]. split.
    + apply (rows_updated_eq Contacts). exact Hrow.
    + destruct (stamped_usage_patch_count (stamp_of h w) o) as [Hundef Hnum].
      split; [exact Hundef|]. split; [apply Hsmall|]; exact Hnum.
  - rewrite updatePhraseUsageCount_run, Hrow.
    eexists _, _. split; [reflexivity|]. split.
    + apply (rows_updated_eq Phrases). exact Hrow.
    + destruct (stamped_usage_patch_count (stamp_of h w) o) as [Hundef Hnum].
      split; [exact Hundef|]. split; [apply Hsmall|]; exact Hnum.
  - rewrite updateActivityUsageCount_run, Hrow.
    eexists _, _. split; [reflexivity|]. split.
    + apply (rows_updated_eq Activities). exact Hrow.
    + destruct (usage_patch_count o) as [Hundef Hnum].
      split; [exact Hundef|]. split; [apply Hsmall|]; exact Hnum.
Qed.

(** C10 at work: a food with usage count 4 is used once more. *)
Lemma C10_increment_usage_witness :
  exists o' w',
    updateFoodUsageCount (KNum 1) soup_world = (Ok (Some o'), w')
    /\ rows (foods (db w')) !! KNum 1 = Some o'
    /\ o' !! "usageCount" = Some (VNum 5).
Proof.
  destruct (C10_increment_usage ticking Foods updateFoodUsageCount eq_refl
              soup_world (KNum 1)
              (with_id (KNum 1) (stamp false (stamp_of ticking initial) soup)))
    as (o' & w' & Hrun & Hrow & _ & Hnum & _).
  - vm_compute. reflexivity.
  - exists o', w'. split; [exact Hrun|]. split; [exact Hrow|].
    apply (Hnum 4); [vm_compute; reflexivity | lia].
Defined.

(** C10 as stated fails: a food whose usage count is 2^53 is used once
    more, and the count is still 2^53, the double nearest to 2^53 + 1. *)
Lemma C10_counterexample :
  rows (foods (db staple_world)) !! KNum 1 = Some staple_stored
  /\ prop staple_stored "usageCount" = VNum (2 ^ 53)
  /\ exists o' w',
       updateFoodUsageCount (KNum 1) staple_world = (Ok (Some o'), w')
       /\ rows (foods (db w')) !! KNum 1 = Some o'
       /\ o' !! "usageCount" = Some (VNum (2 ^ 53))
       /\ o' !! "usageCount" <> Some (VNum (2 ^ 53 + 1)).
Proof.
  split; [vm_compute; reflexivity|]. split; [vm_compute; reflexivity|].
  eexists _, _. split; [vm_compute; reflexivity|].
  split; [vm_compute; reflexivity|]. split; [vm_compute; reflexivity|].
  vm_compute. discriminate.
Qed.

(** C3 (amended). For an id that is not in the collection: [getEmergencyById]
    and [updateOrderStatus] resolve to [undefined] without an error; the
    usage-count operations and the toggles reject with the TypeError of
    reading a property of [undefined]. In every case the collections are
    left as they were. *)
Theorem C3_missing_id h id w :
  (rows (emergencies (db w)) !! id = None ->
   getEmergencyById id w = (Ok None, w))
  /\ (rows (orders (db w)) !! id = None ->
      forall status, updateOrderStatus h id status w = (Ok None, tick w))
  /\ (rows (foods (db w)) !! id = None ->
      updateFoodUsageCount id w = (Threw (undefined_read "usageCount"), w)
      /\ toggleFavorite id w = (Threw (undefined_read "isFavorite"), w))
  /\ (rows (contacts (db w)) !! id = None ->
      updateContactUsageCount h id w = (Threw (undefined_read "usageCount"), tick w))
  /\ (rows (phrases (db w)) !! id = None ->
      updatePhraseUsageCount h id w = (Threw (undefined_read "usageCount"), tick w))
  /\ (rows (activities (db w)) !! id = None ->
      updateActivityUsageCount id w = (Threw (undefined_read "usageCount"), w)
      /\ toggleActivityActive id w = (Threw (undefined_read "isActive"), w)).
Proof.
  split; [|split; [|split; [|split; [|split]]]]; intros Hrow.
  - rewrite getEmergencyById_run, Hrow. reflexivity.
  - intros status. rewrite updateOrderStatus_run.
    rewrite (updated_absent Orders) by exact Hrow.
    rewrite patched_absent by exact Hrow. rewrite Hrow. reflexivity.
  - split.
    + rewrite updateFoodUsageCount_run, Hrow. reflexivity.
    + rewrite toggleFavorite_run, Hrow. reflexivity.
  - rewrite updateContactUsageCount_run, Hrow. reflexivity.
  - rewrite updatePhraseUsageCount_run, Hrow. reflexivity.
  - split.
    + rewrite updateActivityUsageCount_run, Hrow. reflexivity.
    + rewrite toggleActivityActive_run, Hrow. reflexivity.
Qed.

(** C3 at work: id 7 in a database that holds one food under id 1. *)
Lemma C3_missing_id_witness :
  getEmergencyById (KNum 7) soup_world = (Ok None, soup_world)
  /\ updateOrderStatus ticking (KNum 7) (VStr "ready") soup_world
     = (Ok None, tick soup_world)
  /\ updateFoodUsageCount (KNum 7) soup_world
     = (Threw (undefined_read "usageCount"), soup_world)
  /\ toggleFavorite (KNum 7) soup_world
     = (Threw (undefined_read "isFavorite"), soup_world)
  /\ updateContactUsageCount ticking (KNum 7) soup_world
     = (Threw (undefined_read "usageCount"), tick soup_world)
  /\ updatePhraseUsageCount ticking (KNum 7) soup_world
     = (Threw (undefined_read "usageCount"), tick soup_world)
  /\ updateActivityUsageCount (KNum 7) soup_world
     = (Threw (undefined_read "usageCount"), soup_world)
  /\ toggleActivityActive (KNum 7) soup_world
     = (Threw (undefined_read "isActive"), soup_world).
Proof.
  destruct (C3_missing_id ticking (KNum 7) soup_world)
    as (He & Ho & Hf & Hc & Hp & Ha).
  split; [apply He; reflexivity|].
  split; [apply Ho; reflexivity|].
  split; [apply Hf; reflexivity|].
  split; [apply Hf; reflexivity|].
  split; [apply Hc; reflexivity|].
  split; [apply Hp; reflexivity|].
  split; apply Ha; reflexivity.
Defined.

(** C3 as stated fails: on a fresh database, where no id is present,
    [getEmergencyById] and [updateOrderStatus] do not reject. *)
Lemma C3_counterexample :
  rows (emergencies (db initial)) !! KNum 1 = None
  /\ rows (orders (db initial)) !! KNum 1 = None
  /\ ~ (exists e w', getEmergencyById (KNum 1) initial = (Threw e, w'))
  /\ ~ (exists e w', updateOrderStatus ticking (KNum 1) (VStr "ready") initial
                     = (Threw e, w')).
Proof.
  split; [reflexivity|]. split; [reflexivity|].
  split; intros (e & w' & Hrun); vm_compute in Hrun; discriminate Hrun.
Qed.

End UsageSpec.

(** ** Reset *)

Module ResetSpec.

Import Dexie Database InitialDataLoader Machine Examples SeedFacts.

(** C4 (amended). Invoked twice in a row from any state, [resetAndReloadData]
    ends the same way both times (resolving, or rejecting with the same
    error when the seed file cannot be loaded), and the two final states
    agree up to the generated record ids and the [createdAt] stamps: the
    five other collections are equal (empty, same key generator), and the
    emergencies listed by key are equal once [id], [createdAt] and each
    symptom's [createdAt] are removed.  When the seed file loads, each call
    resolves and leaves one emergency per body part of the file, in the
    file's order. *)
Theorem C4_reset_twice h w :
  exists w1 w2,
    resetAndReloadData h w = (reset_outcome h, w1)
    /\ resetAndReloadData h w1 = (reset_outcome h, w2)
    /\ (forall n, n <> Emergencies -> tbl n (db w2) = tbl n (db w1))
    /\ plain <$> toArray (emergencies (db w2)) = plain <$> toArray (emergencies (db w1))
    /\ (forall parts,
           emergency_json h = Response true (Ok parts) ->
           reset_outcome h = Ok tt
           /\ plain <$> toArray (emergencies (db w1)) = seed_item <$> parts).
Proof.
  destruct (resetAndReloadData_run h w) as (w1 & Hrun1 & Hother1 & _ & Hem1).
  destruct (resetAndReloadData_run h w1) as (w2 & Hrun2 & Hother2 & _ & Hem2).
  exists w1, w2. split; [exact Hrun1|]. split; [exact Hrun2|]. split; [|split].
  - intros n Hn. rewrite Hother2, Hother1 by exact Hn. apply clear_clear.
  - destruct (emergency_json h) as [e|[|] [parts|e]];
      rewrite Hem2, Hem1; reflexivity.
  - intros parts Hjson. unfold reset_outcome. rewrite Hjson in *.
    split; [reflexivity | exact Hem1].
Qed.


(** C4 at work: two resets with the one-part seed file. *)
Lemma C4_reset_twice_witness :
  exists w1 w2,
    resetAndReloadData ticking visited = (Ok tt, w1)
    /\ resetAndReloadData ticking w1 = (Ok tt, w2)
    /\ plain <$> toArray (emergencies (db w2)) = plain <$> toArray (emergencies (db w1))
    /\ plain <$> toArray (emergencies (db w1)) = [seed_item head_part].
Proof.
  destruct (C4_reset_twice ticking visited) as (w1 & w2 & H1 & H2 & _ & Hsame & Hseed).
  destruct (Hseed [head_part] eq_refl) as [Hok Hlist].
  rewrite Hok in H1, H2.
  exists w1, w2. split; [exact H1|]. split; [exact H2|]. split; [exact Hsame|exact Hlist].
Defined.

(** C4 as stated fails: after the second reset the seeded emergency has
    new time stamps and a new id (the key generator is not reset by
    clearing), so the two final states differ. *)
Lemma C4_counterexample :
  (fun r => (prop r "id", prop r "createdAt")) <$> records Emergencies seeded
  = [(VNum 1, VStr "1970-01-01T00:00:00.001Z")]
  /\ (fun r => (prop r "id", prop r "createdAt")) <$> records Emergencies seeded_twice
     = [(VNum 2, VStr "1970-01-01T00:00:00.003Z")]
  /\ db seeded_twice <> db seeded.
Proof.
  split; [vm_compute; reflexivity|]. split; [vm_compute; reflexivity|].
  intros Heq.
  assert (H : rows (emergencies (db seeded_twice)) !! KNum 1
            = rows (emergencies (db seeded)) !! KNum 1)
    by (rewrite Heq; reflexivity).
  vm_compute in H. discriminate H.
Qed.

End ResetSpec.

(** ** Listings *)

Module ListingSpec.

Import Dexie Database Machine Examples OrderFacts.

Lemma getAll_run n w :
  getAll n w = (Ok (Dexie.reverse (orderBy (sort_field n) (tbl n (db w)))), w).
Proof. destruct n; reflexivity. Qed.

(** What [getAll] does return: sorted by the collection's sort field with
    the highest key first ([createdAt] for emergencies, foods and
    activities, [usageCount] for contacts and phrases, [orderDate] for
    orders), the records of the collection that hold a valid key in that
    field, and no other. *)
Lemma getAll_sorted n w :
  exists l,
    getAll n w = (Ok l, w)
    /\ StronglySorted (desc_by (sort_field n)) l
    /\ l ≡ₚ filter (indexed (sort_field n)) (records n w).
Proof.
  rewrite getAll_run. eexists. split; [reflexivity|]. split.
  - unfold Dexie.reverse.
    pose proof (StronglySorted_rev_flip _ _ (orderBy_sorted (sort_field n) (tbl n (db w)))) as H.
    exact H.
  - unfold Dexie.reverse, records. rewrite <- Permutation_rev.
    apply orderBy_records.
Qed.

(** C5, where the code falls short of it: a contact added without a
    [usageCount] is in the collection, and [getAllContacts] resolves to
    the empty list, which is not the collection in any order. *)
Theorem C5_getAll_omits_stored_record :
  (exists r, addContact ticking mom initial = (Ok r, mom_world))
  /\ length (records Contacts mom_world) = 1%nat
  /\ getAllContacts mom_world = (Ok [], mom_world)
  /\ ~ (exists l, getAllContacts mom_world = (Ok l, mom_world)
                  /\ l ≡ₚ records Contacts mom_world).
Proof.
  split; [eexists; vm_compute; reflexivity|].
  split; [vm_compute; reflexivity|].
  assert (Hrun : getAllContacts mom_world = (Ok [], mom_world))
    by (vm_compute; reflexivity).
  split; [exact Hrun|].
  intros (l & Hl & Hperm). rewrite Hrun in Hl. inversion Hl; subst l.
  apply Permutation_length in Hperm. vm_compute in Hperm. discriminate Hperm.
Qed.

End ListingSpec.

(** ** Uploaded images *)

Module ImageSpec.

Import Dexie Database IndexedDB ImageUpload Machine Examples TextFacts.

(** C6 (amended). The id generated for an upload is
    [user_upload_{type}_{ownerId}_{timestampMillis}_{randomSuffix}]; two
    uploads of the same type for the same owner receive the same id exactly
    when the clock reading and the random suffix both coincide. *)
Theorem C6_image_id h type identifier :
  (forall w,
      generateImageId h type identifier w =
      (Ok ("user_upload_" +:+ to_string type +:+ "_" +:+ to_string identifier
             +:+ "_" +:+ pretty (clock h (reads w)) +:+ "_" +:+ random36 h (draws w)),
       draw (tick w)))
  /\ (forall w1 w2 id1 id2 w1' w2',
         generateImageId h type identifier w1 = (Ok id1, w1') ->
         generateImageId h type identifier w2 = (Ok id2, w2') ->
         (id1 = id2 <->
          clock h (reads w1) = clock h (reads w2)
          /\ random36 h (draws w1) = random36 h (draws w2))).
Proof.
  assert (Hrun : forall w,
      generateImageId h type identifier w =
      (Ok ("user_upload_" +:+ to_string type +:+ "_" +:+ to_string identifier
             +:+ "_" +:+ pretty (clock h (reads w)) +:+ "_" +:+ random36 h (draws w)),
       draw (tick w))) by reflexivity.
  split; [exact Hrun|].
  intros w1 w2 id1 id2 w1' w2' H1 H2.
  rewrite Hrun in H1, H2. inversion H1; inversion H2; subst. clear H1 H2.
  split.
  - intros Heq.
    apply (inj (String.app "user_upload_")) in Heq.
    apply (inj (String.app (to_string type))) in Heq.
    apply (inj (String.app "_")) in Heq.
    apply (inj (String.app (to_string identifier))) in Heq.
    apply (inj (String.app "_")) in Heq.
    apply (cut_at_first "_") in Heq as [Hts Hrnd].
    + split; [|exact Hrnd]. apply (inj pretty). exact Hts.
    + apply pretty_Z_lacks_underscore.
    + apply pretty_Z_lacks_underscore.
  - intros [-> ->]. reflexivity.
Qed.


(** C6 at work: two uploads for contact 1 on a ticking clock. *)
Lemma C6_image_id_witness :
  generateImageId ticking (VStr "contact") (VNum 1) initial
  = (Ok "user_upload_contact_1_0_k0", draw (tick initial))
  /\ ("user_upload_contact_1_0_k0" = "user_upload_contact_1_1_k1"
      <-> clock ticking 0 = clock ticking 1
          /\ random36 ticking 0 = random36 ticking 1).
Proof.
  destruct (C6_image_id ticking (VStr "contact") (VNum 1)) as [Hrun Hiff].
  split; [apply Hrun|].
  apply (Hiff initial (draw (tick initial)) _ _ (draw (tick initial))
              (draw (tick (draw (tick initial)))));
    reflexivity.
Defined.

(** C6 as stated fails: when the clock has not advanced and the random
    source repeats, two uploads for the same owner receive the same id;
    and the id starts with [user_upload_], not with the type. *)
Lemma C6_counterexample :
  exists id w1 w2,
    generateImageId frozen (VStr "contact") (VNum 1) initial = (Ok id, w1)
    /\ generateImageId frozen (VStr "contact") (VNum 1) w1 = (Ok id, w2)
    /\ id <> "contact_1_0_abc123".
Proof.
  exists "user_upload_contact_1_0_abc123", (draw (tick initial)),
         (draw (tick (draw (tick initial)))).
  split; [reflexivity|]. split; [reflexivity|]. discriminate.
Qed.

(** C7. A file of more than 5 MB is refused: [validateImageFile] reports
    'File size must be less than 5MB', [processAndStoreImage] throws a
    validation error (wrong type or size) and [handleFile] ends in the error
    state; the world, and with it the image store, is exactly as before. *)
Theorem C7_oversized_upload h file imageType identifier w :
  (5 * 1024 * 1024 < blob_size file)%Z ->
  (isValid (validateImageFile file) = false
   /\ "File size must be less than 5MB" ∈ errors (validateImageFile file))
  /\ (exists m,
         processAndStoreImage h file imageType identifier w = (Threw (Error m), w)
         /\ (m = "File must be an image" \/ m = "File size must be less than 5MB"))
  /\ (exists m, handleFile h file imageType identifier w = (Ok (inr m), w)).
Proof.
  intros Hsize.
  assert (Hlt : (5 * 1024 * 1024 <? blob_size file)%Z = true) by (apply Z.ltb_lt; exact Hsize).
  split; [|split].
  - unfold validateImageFile. rewrite Hlt. unfold push_if.
    destruct (negb (startsWith "image/" (blob_type file))); simpl; split;
      try reflexivity; set_solver.
  - unfold processAndStoreImage, logged, try_catch, bind, throw, ret.
    destruct (negb (startsWith "image/" (blob_type file))); simpl.
    + eexists. split; [reflexivity|]. left. reflexivity.
    + rewrite Hlt. simpl. eexists. split; [reflexivity|]. right. reflexivity.
  - unfold handleFile, try_catch, bind, throw, ret, validateImageFile.
    rewrite Hlt. unfold push_if.
    destruct (negb (startsWith "image/" (blob_type file))); simpl;
      eexists; reflexivity.
Qed.

(** C7 at work: a PNG of 6 MB. *)
Lemma C7_oversized_upload_witness :
  (isValid (validateImageFile six_megabytes) = false
   /\ "File size must be less than 5MB" ∈ errors (validateImageFile six_megabytes))
  /\ (exists m,
         processAndStoreImage ticking six_megabytes (VStr "contact") (VNum 1) initial
         = (Threw (Error m), initial)
         /\ (m = "File must be an image" \/ m = "File size must be less than 5MB"))
  /\ (exists m, handleFile ticking six_megabytes (VStr "contact") (VNum 1) initial
                = (Ok (inr m), initial)).
Proof.
  apply (C7_oversized_upload ticking six_megabytes (VStr "contact") (VNum 1) initial).
  reflexivity.
Defined.

(** C9. [getImageSource] on a string never throws and leaves the world
    alone. A string that does not start with [user_upload_] is returned
    unchanged. One that does is looked up in the image store: the result is
    the [base64Data] of the record stored under it, and [null] when there
    is none (or when the store cannot be read). *)
Theorem C9_resolve h s w :
  exists v,
    getImageSource h (VStr s) w = (Ok v, w)
    /\ (startsWith "user_upload_" s = false -> v = VStr s)
    /\ (startsWith "user_upload_" s = true ->
        (idb_open h = None -> idb_get h = None ->
         v = match userImages w !! KStr s with
             | Some record => prop record "base64Data"
             | None => VNull
             end)
        /\ (idb_open h <> None \/ idb_get h <> None -> v = VNull)).
Proof.
  unfold getImageSource, isUserUploadedImage, bind, lift.
  destruct (truthy (VStr s)) eqn:Htruthy.
  - simpl. destruct (startsWith "user_upload_" s) eqn:Hprefix.
    + unfold getUserImage, logged, try_catch, bind, initDB, store_get, throw, ret. simpl.
      destruct (idb_open h) as [e|] eqn:Hopen; simpl.
      * eexists. split; [reflexivity|]. split; [discriminate|].
        intros _. split; [discriminate|]. reflexivity.
      * destruct (idb_get h) as [e|] eqn:Hget; simpl.
        -- eexists. split; [reflexivity|]. split; [discriminate|].
           intros _. split; [discriminate|]. reflexivity.
        -- eexists. split; [reflexivity|]. split; [discriminate|].
           intros _. split; [reflexivity|]. intros [H|H]; congruence.
    + eexists. split; [reflexivity|]. split; [reflexivity|]. discriminate.
  - rewrite Htruthy. eexists. split; [reflexivity|]. split; [reflexivity|].
    intros Hprefix. destruct s; simpl in *; discriminate.
Qed.

(** C9 at work: a static path, a stored upload, a missing upload, and an
    image store that cannot be opened. *)
Lemma C9_resolve_witness :
  getImageSource ticking (VStr "/image/head.png") image_world
  = (Ok (VStr "/image/head.png"), image_world)
  /\ getImageSource ticking (VStr "user_upload_contact_1_0_k0") image_world
     = (Ok (VStr "data:image/jpeg;base64,xyz"), image_world)
  /\ getImageSource ticking (VStr "user_upload_contact_1_9_k9") image_world
     = (Ok VNull, image_world)
  /\ getImageSource broken (VStr "user_upload_contact_1_0_k0") image_world
     = (Ok VNull, image_world).
Proof.
  split; [|split; [|split]].
  - destruct (C9_resolve ticking "/image/head.png" image_world) as (v & Hrun & Hpath & _).
    rewrite Hrun, Hpath by reflexivity. reflexivity.
  - destruct (C9_resolve ticking "user_upload_contact_1_0_k0" image_world)
      as (v & Hrun & _ & Hblob).
    destruct (Hblob eq_refl) as [Hfound _].
    rewrite Hrun, Hfound by reflexivity. vm_compute. reflexivity.
  - destruct (C9_resolve ticking "user_upload_contact_1_9_k9" image_world)
      as (v & Hrun & _ & Hblob).
    destruct (Hblob eq_refl) as [Hfound _].
    rewrite Hrun, Hfound by reflexivity. vm_compute. reflexivity.
  - destruct (C9_resolve broken "user_upload_contact_1_0_k0" image_world)
      as (v & Hrun & _ & Hblob).
    destruct (Hblob eq_refl) as [_ Hfault].
    rewrite Hrun, Hfault; [reflexivity|]. left. discriminate.
Defined.

End ImageSpec.

(** ** Time stamps *)

Module StampSpec.

Import Dexie Database InitialDataLoader Machine Examples DexieFacts DatabaseFacts
  WfFacts StampFacts.

(** C8 (amended). In every reachable state and for every operation of the
    Entity Store: a record that is stored before and after the operation
    keeps its [createdAt], unless the operation is an [updateEmergency]
    whose changes have a property name that, read as a key path, starts
    at [createdAt] ([createdAt] itself, or [createdAt] followed by a
    period); and in the collections that carry [updatedAt] (contacts,
    phrases, orders), a record that the operation changes has its
    [updatedAt] set to the time stamp the operation read from the
    clock. *)
Theorem C8_timestamps h o w :
  reachable h w ->
  (~ patches_createdAt o ->
   forall n k r r',
     rows (tbl n (db w)) !! k = Some r ->
     rows (tbl n (db (exec h o w))) !! k = Some r' ->
     r' !! "createdAt" = r !! "createdAt")
  /\ (forall n k r r',
         has_updatedAt n = true ->
         rows (tbl n (db w)) !! k = Some r ->
         rows (tbl n (db (exec h o w))) !! k = Some r' ->
         r' <> r ->
         r' !! "updatedAt" = Some (VStr (stamp_of h w))).
Proof.
  intros Hreach. apply reachable_wf in Hreach.
  assert (Hcases : forall n k r r',
             rows (tbl n (db w)) !! k = Some r ->
             rows (tbl n (db (exec h o w))) !! k = Some r' ->
             r' = r
             \/ ((~ patches_createdAt o -> r' !! "createdAt" = r !! "createdAt")
                 /\ (has_updatedAt n = true ->
                     r' !! "updatedAt" = Some (VStr (stamp_of h w))))).
  { intros n k r r' Hr Hr'.
    destruct o.
    2: { cbn [exec] in Hr'. rewrite updateEmergency_run in Hr'.
         pose proof (update_row id patch (emergencies (db w)) k r r') as Hrow.
         destruct (Dexie.update id patch (emergencies (db w))) as [[[]|e] t'];
           cbn [snd db set_db] in Hr'; rewrite tbl_set_tbl in Hr';
           (destruct (decide (Emergencies = n)) as [<-|Hne]; [|left; congruence]);
           (destruct (Hrow Hr Hr') as [->|[-> ->]]; [left; reflexivity|right]);
           (split; [intros Hno; apply modify_frame; exact Hno | discriminate]). }
    all: try (left;
              match type of Hr' with
              | context [exec ?hh ?o ?ww] =>
                  match type of Hr with
                  | rows (tbl ?nn _) !! ?kk = Some ?rr =>
                      pose proof (lookup_weaken _ _ _ _ Hr (exec_grown hh o ww I nn))
                  end
              end; congruence).
    all: try (left;
              match type of Hr' with
              | rows (tbl ?nn (db (exec ?hh ?o ?ww))) !! ?kk = Some ?rr' =>
                  match type of Hr with
                  | _ = Some ?rr =>
                      exact (delete_clear_row hh o ww nn kk rr rr' I Hr Hr')
                  end
              end).
    all: try (exfalso;
              match type of Hr' with
              | rows (tbl ?nn (db (exec ?hh ?o ?ww))) !! ?kk = Some ?rr' =>
                  match type of Hr with
                  | _ = Some ?rr => exact (reset_row hh ww nn kk rr rr' Hreach Hr Hr')
                  end
              end).
    all: update_case Hr Hr'.
    all: destruct Hr' as [->|(-> & -> & ->)]; [left; reflexivity|right].
    all: split;
      [ intros _; apply apply_patch_createdAt; reflexivity
      | intros Hn; first [discriminate Hn | apply apply_patch_updatedAt; reflexivity] ]. }
  split.
  - intros Hno n k r r' Hr Hr'.
    destruct (Hcases n k r r' Hr Hr') as [->|[Hc _]]; [reflexivity|].
    apply Hc. exact Hno.
  - intros n k r r' Hn Hr Hr' Hne.
    destruct (Hcases n k r r' Hr Hr') as [->|[_ Hu]]; [congruence|].
    apply Hu. exact Hn.
Qed.

(** C8 at work: one use of Mom keeps her [createdAt] and sets her
    [updatedAt] to the time of the use. *)
Lemma C8_timestamps_witness :
  mom_used !! "createdAt" = mom_stored !! "createdAt"
  /\ mom_used !! "updatedAt" = Some (VStr (stamp_of ticking mom_world)).
Proof.
  assert (Hreach : reachable ticking mom_world).
  { apply (reach_exec ticking (AddContact mom) initial). apply reach_initial. }
  destruct (C8_timestamps ticking (UpdateContactUsageCount (KNum 1)) mom_world Hreach)
    as [Hcreated Hupdated].
  assert (Hbefore : rows (tbl Contacts (db mom_world)) !! KNum 1 = Some mom_stored)
    by (vm_compute; reflexivity).
  assert (Hafter : rows (tbl Contacts
                     (db (exec ticking (UpdateContactUsageCount (KNum 1)) mom_world)))
                   !! KNum 1 = Some mom_used)
    by (vm_compute; reflexivity).
  split.
  - apply (Hcreated (fun H => H) Contacts (KNum 1)); [exact Hbefore | exact Hafter].
  - apply (Hupdated Contacts (KNum 1) mom_stored mom_used eq_refl Hbefore Hafter).
    intros Heq.
    assert (H : mom_used !! "usageCount" = mom_stored !! "usageCount")
      by (rewrite Heq; reflexivity).
    vm_compute in H. discriminate H.
Defined.

(** C8 as stated fails: [updateEmergency] with changes that name
    [createdAt], or the key path [createdAt.], rewrites the creation
    stamp of a stored emergency. *)
Lemma C8_counterexample :
  (rows (emergencies (db seeded)) !! KNum 1 ≫= (fun r => r !! "createdAt"))
  = Some (VStr "1970-01-01T00:00:00.001Z")
  /\ (rows (emergencies (db (exec ticking (UpdateEmergency (KNum 1) backdate) seeded)))
        !! KNum 1 ≫= (fun r => r !! "createdAt"))
     = Some (VStr "2000-01-01T00:00:00.000Z")
  /\ (rows (emergencies
              (db (exec ticking (UpdateEmergency (KNum 1) backdate_by_path) seeded)))
        !! KNum 1 ≫= (fun r => r !! "createdAt"))
     = Some (VStr "2000-01-01T00:00:00.000Z").
Proof. repeat split; vm_compute; reflexivity. Qed.

End StampSpec.

(** * Further properties of the code *)

(** ** [utils/database.js]: adding, deleting, counting, toggling *)

Module EntityFacts.

Import Dexie Database Machine Notions DexieFacts DatabaseFacts.

Lemma add_generated_undef o t :
  prop o "id" = VUndef ->
  rows t !! KNum (next_key t) = None ->
  Dexie.add o t =
  (Ok (KNum (next_key t)),
   Table (<[KNum (next_key t) := <["id" := VNum (next_key t)]> o]> (rows t))
         (next_key t + 1)).
Proof.
  unfold prop, Dexie.add. intros Hid Hfree.
  destruct (o !! "id") as [[]|]; simpl in Hid; try discriminate Hid;
    rewrite Hfree; reflexivity.
Qed.

Lemma add_explicit_key o t v k :
  o !! "id" = Some v -> as_key v = Some k ->
  Dexie.add o t =
  match rows t !! k with
  | Some _ => (Threw ConstraintError, t)
  | None => (Ok k, Table (<[k := o]> (rows t)) (bump k (next_key t)))
  end.
Proof.
  intros Hid Hk. pose proof (as_key_inv v k Hk) as ->.
  unfold Dexie.add. rewrite Hid. clear Hk.
  pose proof (as_key_key_value k) as Hk.
  destruct k; cbn [key_value] in *; lazy beta iota; rewrite Hk; reflexivity.
Qed.

Lemma add_not_key o t v :
  o !! "id" = Some v -> v <> VUndef -> as_key v = None ->
  Dexie.add o t = (Threw DataError, t).
Proof.
  intros Hid Hv Hk. unfold Dexie.add. rewrite Hid.
  destruct v; try congruence; try discriminate Hk; lazy beta iota; rewrite ?Hk;
    reflexivity.
Qed.

Lemma stamp_createdAt b t data : stamp b t data !! "createdAt" = Some (VStr t).
Proof.
  unfold stamp. destruct b.
  - rewrite lookup_insert_ne by discriminate. apply lookup_insert_eq.
  - apply lookup_insert_eq.
Qed.

Lemma stamp_updatedAt b t data :
  stamp b t data !! "updatedAt" = if b then Some (VStr t) else data !! "updatedAt".
Proof.
  unfold stamp. destruct b.
  - apply lookup_insert_eq.
  - apply lookup_insert_ne. discriminate.
Qed.

Lemma stamp_id b t data : stamp b t data !! "id" = data !! "id".
Proof. apply stamp_lookup_other; discriminate. Qed.

Lemma set_same n w : set_db (set_tbl n (tbl n (db w)) (db w)) w = w.
Proof. rewrite set_tbl_same. apply set_db_same. Qed.

Lemma increment_run h n inc id w o :
  incrementUsage h n = Some inc ->
  rows (tbl n (db w)) !! id = Some o ->
  exists patch,
    (patch = usage_patch o \/ patch = stamped_usage_patch (stamp_of h w) o)
    /\ (inc id w).1 = Ok (Some (apply_patch patch o))
    /\ db (inc id w).2 = set_tbl n (patched id patch (tbl n (db w))) (db w)
    /\ userImages (inc id w).2 = userImages w.
Proof.
  intros Hinc Hrow.
  destruct n; simpl in Hinc; inversion Hinc; subst inc; simpl in Hrow.
  - rewrite updateFoodUsageCount_run, Hrow. eexists. split; [left; reflexivity|].
    repeat split.
  - rewrite updateContactUsageCount_run, Hrow. eexists. split; [right; reflexivity|].
    repeat split.
  - rewrite updatePhraseUsageCount_run, Hrow. eexists. split; [right; reflexivity|].
    repeat split.
  - rewrite updateActivityUsageCount_run, Hrow. eexists. split; [left; reflexivity|].
    repeat split.
Qed.

Lemma toggle_run n field toggle id w o :
  toggler n = Some (field, toggle) ->
  rows (tbl n (db w)) !! id = Some o ->
  toggle id w = (Ok (Some (apply_patch (toggle_patch field o) o)),
                 updated n id (toggle_patch field o) w).
Proof.
  intros Ht Hrow.
  destruct n; simpl in Ht; inversion Ht; subst; simpl in Hrow.
  - rewrite toggleFavorite_run, Hrow. reflexivity.
  - rewrite toggleActivityActive_run, Hrow. reflexivity.
Qed.

Lemma toggle_patch_lookup field o f :
  apply_patch (toggle_patch field o) o !! f =
  if decide (f = field) then Some (VBool (negb (truthy (prop o field)))) else o !! f.
Proof.
  rewrite lookup_apply_patch. unfold toggle_patch.
  destruct (decide (f = field)) as [->|Hne].
  - rewrite lookup_singleton_eq. reflexivity.
  - rewrite lookup_singleton_ne by congruence. reflexivity.
Qed.

End EntityFacts.

Module EntityProps.

Import Dexie Database Machine Examples Notions.
Import DexieFacts DatabaseFacts WfFacts EntityFacts.

(** X1. In a state that the operations produce from a fresh installation
    and in which the collection's key generator has not gone beyond 2^53,
    adding data that carries no [id] resolves to the stored record: its
    [id] is the number of the collection's key generator, which no record
    of the collection uses; [createdAt], and for contacts, phrases and
    orders [updatedAt], is the time stamp read by the call; the collection
    gains exactly this record, the key generator moves on by one, and the
    other collections and the image store are as before.  An emergency
    added this way is what [getEmergencyById] then resolves to. *)
Theorem X1_add_fresh h n data w :
  reachable h w ->
  (next_key (tbl n (db w)) <= 2 ^ 53)%Z ->
  prop data "id" = VUndef ->
  exists r w',
    adder h n data w = (Ok r, w')
    /\ r !! "id" = Some (VNum (next_key (tbl n (db w))))
    /\ rows (tbl n (db w)) !! KNum (next_key (tbl n (db w))) = None
    /\ r !! "createdAt" = Some (VStr (stamp_of h w))
    /\ r !! "updatedAt" = (if has_updatedAt n then Some (VStr (stamp_of h w))
                           else data !! "updatedAt")
    /\ rows (tbl n (db w')) = <[KNum (next_key (tbl n (db w))) := r]> (rows (tbl n (db w)))
    /\ next_key (tbl n (db w')) = next_key (tbl n (db w)) + 1
    /\ (forall m, m <> n -> tbl m (db w') = tbl m (db w))
    /\ userImages w' = userImages w
    /\ (n = Emergencies ->
        getEmergencyById (KNum (next_key (tbl n (db w)))) w' = (Ok (Some r), w')).
Proof.
  intros Hreach _ Hid.
  pose proof (reachable_wf h w Hreach n) as Hwf.
  pose proof (wf_free _ Hwf) as Hfree.
  rewrite adder_run. cbv zeta.
  rewrite add_generated_undef; [| unfold prop; rewrite stamp_id; exact Hid | exact Hfree].
  eexists _, _. split; [reflexivity|].
  unfold with_id. simpl key_value.
  split; [apply lookup_insert_eq|].
  split; [exact Hfree|].
  split; [rewrite lookup_insert_ne by discriminate; apply stamp_createdAt|].
  split; [rewrite lookup_insert_ne by discriminate; apply stamp_updatedAt|].
  cbn [db set_db].
  split; [rewrite tbl_set_tbl_eq; reflexivity|].
  split; [rewrite tbl_set_tbl_eq; reflexivity|].
  split; [intros m Hm; apply tbl_set_tbl_ne; congruence|].
  split; [reflexivity|].
  intros ->. rewrite getEmergencyById_run. cbn [db set_db tbl set_tbl emergencies rows].
  rewrite lookup_insert_eq. reflexivity.
Qed.

(** X1 at work: a second Mom is added beside the first. *)
Lemma X1_add_fresh_witness :
  exists r w',
    addContact ticking mom mom_world = (Ok r, w')
    /\ r !! "id" = Some (VNum 2)
    /\ r !! "createdAt" = Some (VStr "1970-01-01T00:00:00.001Z")
    /\ r !! "updatedAt" = Some (VStr "1970-01-01T00:00:00.001Z")
    /\ rows (contacts (db w')) = <[KNum 2 := r]> (rows (contacts (db mom_world))).
Proof.
  assert (Hreach : reachable ticking mom_world).
  { apply (reach_exec ticking (AddContact mom) initial); constructor. }
  assert (Hgen : (next_key (tbl Contacts (db mom_world)) <= 2 ^ 53)%Z)
    by (vm_compute; discriminate).
  destruct (X1_add_fresh ticking Contacts mom mom_world Hreach Hgen eq_refl)
    as (r & w' & Hrun & Hid & _ & Hc & Hu & Hrows & _).
  exists r, w'. split; [exact Hrun|]. split; [exact Hid|].
  split; [exact Hc|]. split; [exact Hu|]. exact Hrows.
Defined.

(** X2. Adding data that carries an [id] of its own: a value that is not
    a valid key is refused with DataError and an [id] in use with
    ConstraintError, the clock having been read and nothing stored; a free
    [id] becomes the record's key, and the stored record is the stamped
    data.  Where the key generator has not gone beyond 2^53 + 1, a
    numeric [id] of at most 2^53 that is at or above the generator's
    number moves the generator past it, and any other [id] leaves the
    generator as it is. *)
Theorem X2_add_with_id h n data w v :
  data !! "id" = Some v ->
  v <> VUndef ->
  match as_key v with
  | None => adder h n data w = (Threw DataError, tick w)
  | Some k =>
      match rows (tbl n (db w)) !! k with
      | Some _ => adder h n data w = (Threw ConstraintError, tick w)
      | None =>
          exists w',
            adder h n data w = (Ok (stamp (has_updatedAt n) (stamp_of h w) data), w')
            /\ rows (tbl n (db w'))
               = <[k := stamp (has_updatedAt n) (stamp_of h w) data]> (rows (tbl n (db w)))
            /\ ((next_key (tbl n (db w)) <= 2 ^ 53 + 1)%Z ->
                (forall m, k = KNum m -> (m <= 2 ^ 53)%Z) ->
                next_key (tbl n (db w')) = bump k (next_key (tbl n (db w))))
      end
  end.
Proof.
  intros Hid Hv. rewrite adder_run. cbv zeta.
  assert (Hsid : stamp (has_updatedAt n) (stamp_of h w) data !! "id" = Some v)
    by (rewrite stamp_id; exact Hid).
  destruct (as_key v) as [k|] eqn:Hk.
  - rewrite (add_explicit_key _ _ v k Hsid Hk).
    destruct (rows (tbl n (db w)) !! k) as [o|] eqn:Hrow.
    + f_equal. apply (set_same n (tick w)).
    + eexists. split; [|split].
      * unfold with_id. rewrite insert_id; [reflexivity|].
        rewrite Hsid. f_equal. apply as_key_inv. exact Hk.
      * cbn [db set_db]. rewrite tbl_set_tbl_eq. reflexivity.
      * intros _ _. cbn [db set_db]. rewrite tbl_set_tbl_eq. reflexivity.
  - rewrite (add_not_key _ _ v Hsid Hv Hk). f_equal. apply (set_same n (tick w)).
Qed.

(** X2 at work: Mom with an [id] in use, with a boolean [id], and with
    the free [id] 7. *)
Lemma X2_add_with_id_witness :
  addContact ticking (<["id" := VNum 1]> mom) mom_world
  = (Threw ConstraintError, tick mom_world)
  /\ addContact ticking (<["id" := VBool true]> mom) mom_world
     = (Threw DataError, tick mom_world)
  /\ exists w',
       addContact ticking (<["id" := VNum 7]> mom) mom_world
       = (Ok (stamp true (stamp_of ticking mom_world) (<["id" := VNum 7]> mom)), w')
       /\ next_key (contacts (db w')) = 8.
Proof.
  split; [|split].
  - apply (X2_add_with_id ticking Contacts (<["id" := VNum 1]> mom) mom_world (VNum 1));
      [reflexivity | discriminate].
  - apply (X2_add_with_id ticking Contacts (<["id" := VBool true]> mom) mom_world
                          (VBool true)); [reflexivity | discriminate].
  - assert (H7 : <["id" := VNum 7]> mom !! "id" = Some (VNum 7)) by reflexivity.
    assert (Hv : VNum 7 <> VUndef) by discriminate.
    assert (Hrow : rows (tbl Contacts (db mom_world)) !! KNum 7 = None) by reflexivity.
    pose proof (X2_add_with_id ticking Contacts _ mom_world (VNum 7) H7 Hv) as H.
    cbn [as_key] in H. rewrite Hrow in H.
    destruct H as (w' & Hrun & _ & Hnext).
    exists w'. split; [exact Hrun|]. apply Hnext.
    + vm_compute. discriminate.
    + intros m Hm. inversion Hm. lia.
Defined.

(** X3. [deleteEmergency] resolves to [true] whether or not the id is in
    use: the record under the id is gone, the other emergencies, the key
    generator, the other collections and the image store are as before
    (images of the deleted body part stay stored), and when the id was not
    in use nothing has changed. *)
Theorem X3_deleteEmergency id w :
  exists w',
    deleteEmergency id w = (Ok true, w')
    /\ rows (emergencies (db w')) = base.delete id (rows (emergencies (db w)))
    /\ next_key (emergencies (db w')) = next_key (emergencies (db w))
    /\ (forall n, n <> Emergencies -> tbl n (db w') = tbl n (db w))
    /\ userImages w' = userImages w
    /\ getEmergencyById id w' = (Ok None, w')
    /\ (rows (emergencies (db w)) !! id = None -> w' = w).
Proof.
  eexists. split; [reflexivity|].
  split; [reflexivity|]. split; [reflexivity|].
  split; [intros n Hn; destruct n; try reflexivity; congruence|].
  split; [reflexivity|].
  split.
  - rewrite getEmergencyById_run. cbn [db set_db set_tbl emergencies Dexie.delete rows tbl].
    rewrite lookup_delete_eq. reflexivity.
  - intros Hrow.
    change (set_db (set_tbl Emergencies (Dexie.delete id (tbl Emergencies (db w))) (db w)) w
            = w).
    replace (Dexie.delete id (tbl Emergencies (db w))) with (tbl Emergencies (db w));
      [apply set_same|].
    unfold Dexie.delete. rewrite delete_id by exact Hrow.
    destruct (tbl Emergencies (db w)); reflexivity.
Qed.

(** X3 at work: the one seeded emergency is deleted, and an id that is not in use. *)
Lemma X3_deleteEmergency_witness :
  (exists w',
      deleteEmergency (KNum 1) seeded = (Ok true, w')
      /\ rows (emergencies (db w')) = ∅
      /\ next_key (emergencies (db w')) = 2)
  /\ deleteEmergency (KNum 9) seeded = (Ok true, seeded).
Proof.
  split.
  - destruct (X3_deleteEmergency (KNum 1) seeded) as (w' & Hrun & Hrows & Hnext & _).
    exists w'. split; [exact Hrun|]. split; [rewrite Hrows | rewrite Hnext]; reflexivity.
  - assert (H9 : rows (emergencies (db seeded)) !! KNum 9 = None) by reflexivity.
    destruct (X3_deleteEmergency (KNum 9) seeded) as (w' & Hrun & _ & _ & _ & _ & _ & Hnoop).
    rewrite (Hnoop H9) in Hrun. exact Hrun.
Defined.

(** X4. [N] usage-count calls in a row on a record whose [usageCount] is
    the integer [c], where [c] is at least -2^53 and [c + N] at most 2^53,
    leave it at [c + N]: no call is lost.  The calls change
    [usageCount] and, for contacts and phrases, [updatedAt], and nothing
    else of the record; the other records of the collection are as
    before. *)
Theorem X4_repeated_usage h n inc N :
  incrementUsage h n = Some inc ->
  forall w id o c,
    rows (tbl n (db w)) !! id = Some o ->
    prop o "usageCount" = VNum c ->
    (- 2 ^ 53 <= c)%Z ->
    (c + Z.of_nat N <= 2 ^ 53)%Z ->
    exists o',
      rows (tbl n (db (calls N (inc id) w))) !! id = Some o'
      /\ o' !! "usageCount" = Some (VNum (c + Z.of_nat N))
      /\ (forall f, f <> "usageCount" -> f <> "updatedAt" -> o' !! f = o !! f)
      /\ (forall k, k <> id ->
                    rows (tbl n (db (calls N (inc id) w))) !! k
                    = rows (tbl n (db w)) !! k).
Proof.
  intros Hinc w id o c Hrow Hc Hlow Hhigh.
  induction N as [|N IH].
  - exists o. simpl. split; [exact Hrow|]. split; [|split; reflexivity].
    unfold prop in Hc. destruct (o !! "usageCount") as [v|]; simpl in Hc;
      [subst v; do 2 f_equal; lia | discriminate Hc].
  - destruct IH as (o' & Hrow' & Hc' & Hf & Hk); [lia|].
    unfold calls in *. rewrite !Nat.iter_succ.
    set (wN := Nat.iter N (fun w0 => (inc id w0).2) w) in *. cbv beta.
    destruct (increment_run h n inc id wN o' Hinc Hrow')
      as (patch & Hpatch & _ & Hdb & _).
    rewrite Hdb, tbl_set_tbl_eq.
    exists (apply_patch patch o').
    split; [apply rows_patched_eq; exact Hrow'|].
    assert (Hc'' : prop o' "usageCount" = VNum (c + Z.of_nat N))
      by (unfold prop; rewrite Hc'; reflexivity).
    split; [|split].
    + replace (c + Z.of_nat (S N)) with (to_double (c + Z.of_nat N + 1))
        by (rewrite to_double_small by lia; lia).
      destruct Hpatch as [-> | ->].
      * apply usage_patch_count. exact Hc''.
      * apply stamped_usage_patch_count. exact Hc''.
    + intros f Hf1 Hf2. rewrite <- Hf by assumption.
      apply lookup_apply_patch_None.
      destruct Hpatch as [-> | ->]; unfold usage_patch, stamped_usage_patch.
      * apply lookup_singleton_ne. congruence.
      * rewrite lookup_insert_ne by congruence. apply lookup_singleton_ne. congruence.
    + intros k Hne. rewrite rows_patched_ne by congruence. apply Hk. exact Hne.
Qed.

(** X4 at work: a food with usage count 4 is used three times. *)
Lemma X4_repeated_usage_witness :
  exists o',
    rows (foods (db (calls 3 (updateFoodUsageCount (KNum 1)) soup_world))) !! KNum 1
    = Some o'
    /\ o' !! "usageCount" = Some (VNum 7)
    /\ o' !! "name" = Some (VStr "Soup").
Proof.
  destruct (X4_repeated_usage ticking Foods updateFoodUsageCount 3 eq_refl
              soup_world (KNum 1)
              (with_id (KNum 1) (stamp false (stamp_of ticking initial) soup)) 4
              eq_refl eq_refl ltac:(lia) ltac:(lia)) as (o' & Hrow & Hc & Hf & _).
  exists o'. split; [exact Hrow|]. split; [exact Hc|].
  rewrite Hf by discriminate. reflexivity.
Defined.

(** X5. [toggleFavorite] and [toggleActivityActive] on a stored record
    write the boolean negation of the flag's truthiness and change no
    other property; a second call writes the flag's truthiness as a
    boolean, so two calls bring back a boolean flag, and turn a missing or
    non-boolean one into a boolean. *)
Theorem X5_toggle n field toggle :
  toggler n = Some (field, toggle) ->
  forall w id o,
    rows (tbl n (db w)) !! id = Some o ->
    exists o1 w1 o2 w2,
      toggle id w = (Ok (Some o1), w1)
      /\ rows (tbl n (db w1)) !! id = Some o1
      /\ o1 !! field = Some (VBool (negb (truthy (prop o field))))
      /\ (forall f, f <> field -> o1 !! f = o !! f)
      /\ toggle id w1 = (Ok (Some o2), w2)
      /\ rows (tbl n (db w2)) !! id = Some o2
      /\ o2 !! field = Some (VBool (truthy (prop o field)))
      /\ (forall f, f <> field -> o2 !! f = o !! f).
Proof.
  intros Ht w id o Hrow.
  pose proof (toggle_run n field toggle id w o Ht Hrow) as H1.
  pose proof (rows_updated_eq n id (toggle_patch field o) w o Hrow) as Hrow1.
  pose proof (toggle_run n field toggle id _ _ Ht Hrow1) as H2.
  pose proof (rows_updated_eq n id
                (toggle_patch field (apply_patch (toggle_patch field o) o))
                _ _ Hrow1) as Hrow2.
  eexists _, _, _, _.
  split; [exact H1|]. split; [exact Hrow1|].
  split; [rewrite toggle_patch_lookup, decide_True by reflexivity; reflexivity|].
  split; [intros f Hf; rewrite toggle_patch_lookup, decide_False by exact Hf; reflexivity|].
  split; [exact H2|]. split; [exact Hrow2|].
  split.
  - rewrite toggle_patch_lookup, decide_True by reflexivity.
    unfold prop at 1. rewrite toggle_patch_lookup, decide_True by reflexivity.
    simpl. rewrite negb_involutive. reflexivity.
  - intros f Hf. rewrite toggle_patch_lookup, decide_False by exact Hf.
    rewrite toggle_patch_lookup, decide_False by exact Hf. reflexivity.
Qed.

(** X5 at work: a food without the flag is made a favourite and then none. *)
Lemma X5_toggle_witness :
  exists o1 w1 o2 w2,
    toggleFavorite (KNum 1) soup_world = (Ok (Some o1), w1)
    /\ o1 !! "isFavorite" = Some (VBool true)
    /\ toggleFavorite (KNum 1) w1 = (Ok (Some o2), w2)
    /\ o2 !! "isFavorite" = Some (VBool false)
    /\ o2 !! "name" = Some (VStr "Soup").
Proof.
  destruct (X5_toggle Foods "isFavorite" toggleFavorite eq_refl soup_world (KNum 1)
              (with_id (KNum 1) (stamp false (stamp_of ticking initial) soup)) eq_refl)
    as (o1 & w1 & o2 & w2 & H1 & _ & Hf1 & _ & H2 & _ & Hf2 & Hother).
  exists o1, w1, o2, w2.
  split; [exact H1|]. split; [exact Hf1|]. split; [exact H2|]. split; [exact Hf2|].
  rewrite Hother by discriminate. reflexivity.
Defined.

End EntityProps.

(** ** [utils/database.js]: reads by category, backup and restore *)

Module QueryFacts.

Import Dexie Database Machine Queries Notions.
Import DexieFacts DatabaseFacts OrderFacts WfFacts BulkFacts EntityFacts.

Lemma StronglySorted_filter {A} (R : relation A) (P : A -> Prop)
      `{forall x, Decision (P x)} l :
  StronglySorted R l -> StronglySorted R (filter P l).
Proof.
  induction 1 as [|x l Hs IH Hx]; [constructor|].
  rewrite filter_cons. destruct (decide (P x)); [|exact IH].
  constructor; [exact IH|].
  rewrite Forall_forall in *. intros y Hy.
  apply Hx. apply list_elem_of_filter in Hy. tauto.
Qed.

(** A list sorted by primary key, of records that carry their key in
    [id], is sorted by [id]. *)
Lemma sorted_by_id {A} (R : relation A) (pk : A -> ikey) (rec : A -> obj) l :
  StronglySorted R l ->
  Forall (fun x => rec x !! "id" = Some (key_value (pk x))) l ->
  (forall x y, x ∈ l -> y ∈ l -> R x y -> key_le (pk x) (pk y)) ->
  StronglySorted asc_id (rec <$> l).
Proof.
  intros Hs Hid Hle.
  assert (Hall : Forall (fun x => x ∈ l /\ rec x !! "id" = Some (key_value (pk x))) l).
  { rewrite Forall_forall in *. intros x Hx. split; [exact Hx | apply Hid; exact Hx]. }
  pose proof (StronglySorted_and _ _ _ Hs Hall) as Hs'.
  eapply StronglySorted_fmap; [|exact Hs'].
  intros x y (HR & (Hx & Hxid) & (Hy & Hyid)).
  exists (pk x), (pk y). split; [exact Hxid|]. split; [exact Hyid|].
  apply Hle; assumption.
Qed.

Lemma index_entries_row field t e :
  e ∈ index_entries field t -> rows t !! e.2.1 = Some e.2.2.
Proof.
  unfold index_entries. rewrite list_elem_of_omap.
  intros (r & Hr & He). destruct (as_key (prop r.2 field)); inversion He; subst.
  simpl. apply elem_of_map_to_list. destruct r; exact Hr.
Qed.

Lemma index_entries_holding field key t :
  (filter (fun e : ikey * (ikey * obj) => e.1 = key) (index_entries field t)).*2.*2
  = filter (holds field key) (map_to_list (rows t)).*2.
Proof.
  unfold index_entries.
  induction (map_to_list (rows t)) as [|r l IH]; [reflexivity|].
  csimpl. rewrite (filter_cons (holds field key)).
  destruct (decide (holds field key r.2)) as [Hh|Hn].
  - unfold holds in Hh. rewrite Hh. rewrite filter_cons. simpl.
    rewrite decide_True by reflexivity. csimpl. rewrite IH. reflexivity.
  - destruct (as_key (prop r.2 field)) as [k|] eqn:Hk; [|exact IH].
    rewrite filter_cons. simpl.
    rewrite decide_False; [exact IH|].
    intros ->. apply Hn. exact Hk.
Qed.

Lemma where_equals_records field key t :
  where_equals field key t ≡ₚ filter (holds field key) (map_to_list (rows t)).*2.
Proof.
  unfold where_equals. rewrite merge_sort_Permutation.
  rewrite index_entries_holding. reflexivity.
Qed.

Lemma where_equals_sorted field key t :
  wf_table t -> StronglySorted asc_id (where_equals field key t).
Proof.
  intros [Hid _]. unfold where_equals. rewrite <- list_fmap_compose.
  apply (sorted_by_id entry_le (fun e => e.2.1)).
  - apply StronglySorted_filter. apply StronglySorted_merge_sort; apply _.
  - rewrite Forall_forall. intros e He. simpl.
    apply list_elem_of_filter in He as [_ He].
    rewrite merge_sort_Permutation in He.
    apply (Hid e.2.1). eapply index_entries_row. exact He.
  - intros x y Hx Hy Hle.
    apply list_elem_of_filter in Hx as [Hx _]. apply list_elem_of_filter in Hy as [Hy _].
    unfold entry_le in Hle. rewrite decide_True in Hle by congruence. exact Hle.
Qed.

Lemma toArray_records t : toArray t ≡ₚ (map_to_list (rows t)).*2.
Proof. unfold toArray. rewrite merge_sort_Permutation. reflexivity. Qed.

Lemma toArray_sorted t : wf_table t -> StronglySorted asc_id (toArray t).
Proof.
  intros [Hid _]. unfold toArray.
  apply (sorted_by_id pk_le (fun p => p.1)).
  - apply StronglySorted_merge_sort; apply _.
  - rewrite Forall_forall. intros [k o] Hp. simpl.
    apply (Hid k). apply pairs_lookup. exact Hp.
  - intros x y _ _ Hle. exact Hle.
Qed.

Lemma byCategory_run n field query key w :
  byCategory n = Some (field, query) ->
  query key w = (Ok (where_equals field key (tbl n (db w))), w).
Proof. destruct n; simpl; intros H; inversion H; subst; reflexivity. Qed.

(** [bulkAdd] of records whose [id] is in use: every one fails and the
    table is as before. *)
Lemma bulkAdd_go_taken os f t :
  Forall (fun o => exists k, o !! "id" = Some (key_value k) /\ is_Some (rows t !! k)) os ->
  bulkAdd_go os f t = (Ok (length os + f)%nat, t).
Proof.
  intros Hall. revert f. induction Hall as [|o os (k & Hid & [x Hx]) _ IH]; intros f.
  - reflexivity.
  - simpl. rewrite (add_explicit_key o t _ k Hid (as_key_key_value k)), Hx.
    rewrite IH. do 2 f_equal. lia.
Qed.

(** What stops a bulk call midway is a DataError. *)
Lemma bulkAdd_go_throws os f t e t' :
  bulkAdd_go os f t = (Threw e, t') -> e = DataError.
Proof.
  revert f t. induction os as [|o os IH]; intros f t; simpl; [discriminate|].
  destruct (Dexie.add o t) as [[k|e0] t0]; [apply IH|].
  destruct e0; try apply IH. intros H. inversion H. reflexivity.
Qed.

Lemma toArray_taken t :
  wf_table t ->
  Forall (fun o => exists k, o !! "id" = Some (key_value k) /\ is_Some (rows t !! k))
         (toArray t).
Proof.
  intros [Hid _]. rewrite Forall_forall. intros o Ho.
  unfold toArray in Ho. apply list_elem_of_fmap in Ho as ([k o'] & -> & Hp).
  apply pairs_lookup in Hp. exists k. simpl. split; [apply (Hid k); exact Hp | eauto].
Qed.

Lemma reimport_step n w :
  wf_table (tbl n (db w)) ->
  table_bulkAdd n (toArray (tbl n (db w))) w =
  (match length (toArray (tbl n (db w))) with
   | O => Ok tt
   | S k => Threw (BulkError (S k))
   end, w).
Proof.
  intros Hwf. unfold table_bulkAdd, Dexie.bulkAdd.
  rewrite (bulkAdd_go_taken _ 0 _ (toArray_taken _ Hwf)).
  rewrite Nat.add_0_r.
  destruct (length (toArray (tbl n (db w)))); rewrite set_same; reflexivity.
Qed.

Lemma length_toArray n w : length (toArray (tbl n (db w))) = length (records n w).
Proof. unfold records. rewrite toArray_records. reflexivity. Qed.

Lemma bulk_step_import_into n rs : bulk_step (import_into n rs).
Proof.
  intros w. destruct rs as [os|]; simpl.
  - unfold table_bulkAdd, Dexie.bulkAdd.
    destruct (bulkAdd_go os 0 (tbl n (db w))) as [[[|k]|e] t'] eqn:Hgo.
    + left. eexists. reflexivity.
    + right. eexists _, _. split; [right; eauto | reflexivity].
    + right. apply bulkAdd_go_throws in Hgo as ->.
      eexists _, _. split; [left; reflexivity | reflexivity].
  - left. exists (db w). unfold ret. rewrite set_db_same. reflexivity.
Qed.

Lemma bulk_step_seq m k : bulk_step m -> bulk_step k -> bulk_step (bind m (fun _ => k)).
Proof.
  intros Hm Hk w. unfold bind.
  destruct (Hm w) as [(d & ->) | (e & d & He & ->)].
  - destruct (Hk (set_db d w)) as [(d' & ->) | (e & d' & He & ->)].
    + left. exists d'. reflexivity.
    + right. exists e, d'. split; [exact He | reflexivity].
  - right. exists e, d. split; [exact He | reflexivity].
Qed.

Lemma getAll_orderBy n w :
  getAll n w = (Ok (Dexie.reverse (orderBy (sort_field n) (tbl n (db w)))), w).
Proof. destruct n; reflexivity. Qed.

Lemma adder_fresh h n data w :
  wf_table (tbl n (db w)) ->
  prop data "id" = VUndef ->
  exists r w',
    adder h n data w = (Ok r, w')
    /\ r !! "id" = Some (VNum (next_key (tbl n (db w)))).
Proof.
  intros Hwf Hid. rewrite adder_run. cbv zeta.
  rewrite add_generated_undef;
    [| unfold prop; rewrite stamp_id; exact Hid | apply wf_free; exact Hwf].
  eexists _, _. split; [reflexivity|]. apply lookup_insert_eq.
Qed.

End QueryFacts.

Module QueryProps.

Import Dexie Database Machine Queries Examples Notions.
Import DexieFacts DatabaseFacts OrderFacts WfFacts BulkFacts SeedFacts StampFacts.
Import EntityFacts QueryFacts.

(** X6. The reads by category, relationship and status resolve, leaving
    the world as it is, to exactly the records of the collection that hold
    the given key in the queried field, each once, in ascending order of
    [id]. *)
Theorem X6_by_category h n field query key w :
  reachable h w ->
  byCategory n = Some (field, query) ->
  exists l,
    query key w = (Ok l, w)
    /\ l ≡ₚ filter (holds field key) (records n w)
    /\ StronglySorted asc_id l.
Proof.
  intros Hreach Hq. eexists. split; [apply (byCategory_run _ _ _ _ _ Hq)|].
  split; [apply where_equals_records|].
  apply where_equals_sorted. apply (reachable_wf h w Hreach).
Qed.

(** X6 at work: the family contacts of a database that holds Mom. *)
Lemma X6_by_category_witness :
  exists l,
    getContactsByRelationship (KStr "family") mom_world = (Ok l, mom_world)
    /\ l ≡ₚ [mom_stored]
    /\ StronglySorted asc_id l.
Proof.
  assert (Hreach : reachable ticking mom_world).
  { apply (reach_exec ticking (AddContact mom) initial); constructor. }
  destruct (X6_by_category ticking Contacts "relationship" getContactsByRelationship
              (KStr "family") mom_world Hreach eq_refl) as (l & Hrun & Hperm & Hs).
  exists l. split; [exact Hrun|]. split; [exact Hperm | exact Hs].
Defined.

(** X7. [importData] is all or nothing: either it resolves to [true], and
    every record that was stored is still stored, unchanged, or it
    rejects, with a BulkError (records of the file have an [id] that is
    in use) or with DataError (a record of the file has an [id] that is
    not a valid key), and the world is exactly as before the call.  The
    image store is untouched either way. *)
Theorem X7_import_atomic data w :
  (exists w', importData data w = (Ok true, w')
              /\ grown (db w) (db w')
              /\ userImages w' = userImages w)
  \/ (exists k, importData data w = (Threw (BulkError (S k)), w))
  \/ importData data w = (Threw DataError, w).
Proof.
  pose proof (inv_grown_importData (db w) data w) as Hgrown.
  set (body :=
         bind (import_into Emergencies (i_emergencies data)) (fun _ =>
         bind (import_into Foods (i_foods data)) (fun _ =>
         bind (import_into Contacts (i_contacts data)) (fun _ =>
         bind (import_into Phrases (i_phrases data)) (fun _ =>
         bind (import_into Orders (i_orders data)) (fun _ =>
         import_into Activities (i_activities data))))))).
  assert (Hbody : bulk_step body)
    by (repeat apply bulk_step_seq; apply bulk_step_import_into).
  assert (Himp : importData data w =
                 match body w with
                 | (Ok _, w') => (Ok true, w')
                 | (Threw e, w') => (Threw e, set_db (db w) w')
                 end).
  { change (importData data w)
      with (logged (bind (transaction body) (fun _ => ret true)) w).
    unfold logged, try_catch, transaction, bind, ret, throw.
    destruct (body w) as [[[]|e] w']; reflexivity. }
  destruct (Hbody w) as [(d & Hrun) | (e & d & He & Hrun)]; rewrite Hrun in Himp.
  - left. exists (set_db d w). split; [exact Himp|]. split; [|reflexivity].
    rewrite Himp in Hgrown. apply Hgrown. intros n. reflexivity.
  - right.
    assert (Hback : importData data w = (Threw e, w)).
    { rewrite Himp. f_equal.
      change (set_db (db w) (set_db d w)) with (set_db (db w) w). apply set_db_same. }
    destruct He as [->|[k ->]]; [right; exact Hback | left; exists k; exact Hback].
Qed.

(** X8. Importing one's own export into the database it was taken from,
    without clearing first, rejects as soon as a collection holds a
    record: every record of the file collides with itself, and nothing
    changes. *)
Theorem X8_reimport_rejects h w :
  reachable h w ->
  (exists n, records n w <> []) ->
  exists snapshot k,
    exportData w = (Ok snapshot, w)
    /\ importData (of_snapshot snapshot) w = (Threw (BulkError (S k)), w).
Proof.
  intros Hreach [n Hn].
  pose proof (reachable_wf h w Hreach) as Hwf.
  eexists. 
  assert (Hlen : forall m, length (toArray (tbl m (db w))) = O -> m <> n).
  { intros m Hm ->. rewrite length_toArray in Hm.
    destruct (records n w); [congruence | discriminate Hm]. }
  unfold exportData, logged, try_catch, bind, table_toArray, ret. 
  cut (exists k, importData (of_snapshot
         (Snapshot (toArray (tbl Emergencies (db w))) (toArray (tbl Foods (db w)))
                   (toArray (tbl Contacts (db w))) (toArray (tbl Phrases (db w)))
                   (toArray (tbl Orders (db w))) (toArray (tbl Activities (db w))))) w
       = (Threw (BulkError (S k)), w)).
  { intros [k Hk]. exists k. split; [reflexivity | exact Hk]. }
  unfold importData, logged, try_catch, transaction, of_snapshot, import_into.
  cbn [i_emergencies i_foods i_contacts i_phrases i_orders i_activities
       x_emergencies x_foods x_contacts x_phrases x_orders x_activities].
  unfold bind.
  rewrite (reimport_step Emergencies w (Hwf _)).
  destruct (length (toArray (tbl Emergencies (db w)))) as [|k] eqn:H1;
    [|exists k; unfold throw; rewrite set_db_same; reflexivity].
  rewrite (reimport_step Foods w (Hwf _)).
  destruct (length (toArray (tbl Foods (db w)))) as [|k] eqn:H2;
    [|exists k; unfold throw; rewrite set_db_same; reflexivity].
  rewrite (reimport_step Contacts w (Hwf _)).
  destruct (length (toArray (tbl Contacts (db w)))) as [|k] eqn:H3;
    [|exists k; unfold throw; rewrite set_db_same; reflexivity].
  rewrite (reimport_step Phrases w (Hwf _)).
  destruct (length (toArray (tbl Phrases (db w)))) as [|k] eqn:H4;
    [|exists k; unfold throw; rewrite set_db_same; reflexivity].
  rewrite (reimport_step Orders w (Hwf _)).
  destruct (length (toArray (tbl Orders (db w)))) as [|k] eqn:H5;
    [|exists k; unfold throw; rewrite set_db_same; reflexivity].
  rewrite (reimport_step Activities w (Hwf _)).
  destruct (length (toArray (tbl Activities (db w)))) as [|k] eqn:H6;
    [|exists k; unfold throw; rewrite set_db_same; reflexivity].
  exfalso. destruct n; [apply (Hlen _ H1) | apply (Hlen _ H2) | apply (Hlen _ H3)
                        | apply (Hlen _ H4) | apply (Hlen _ H5) | apply (Hlen _ H6)];
    reflexivity.
Qed.

(** X8 at work: the export of a database that holds Mom is imported into it. *)
Lemma X8_reimport_rejects_witness :
  exists snapshot k,
    exportData visited = (Ok snapshot, visited)
    /\ importData (of_snapshot snapshot) visited = (Threw (BulkError (S k)), visited).
Proof.
  apply (X8_reimport_rejects ticking visited).
  - apply (reach_exec ticking (UpdateContactUsageCount (KNum 1))).
    apply (reach_exec ticking (AddContact mom) initial); constructor.
  - exists Contacts. discriminate.
Defined.

(** X9. [clearAllData] resolves to [true] and empties every collection
    and every listing, while the image store and the key generators stay
    as they are: where the collection's key generator has not gone beyond
    2^53, the record added next gets an [id] that no record had before
    the clearing. *)
Theorem X9_clear_keeps_generators h n data w :
  reachable h w ->
  (next_key (tbl n (db w)) <= 2 ^ 53)%Z ->
  prop data "id" = VUndef ->
  exists w1 r w2,
    clearAllData w = (Ok true, w1)
    /\ (forall m, records m w1 = []
                  /\ getAll m w1 = (Ok [], w1)
                  /\ next_key (tbl m (db w1)) = next_key (tbl m (db w)))
    /\ userImages w1 = userImages w
    /\ adder h n data w1 = (Ok r, w2)
    /\ r !! "id" = Some (VNum (next_key (tbl n (db w))))
    /\ (forall k, is_Some (rows (tbl n (db w)) !! k) ->
                  k <> KNum (next_key (tbl n (db w)))).
Proof.
  intros Hreach _ Hid.
  pose proof (reachable_wf h w Hreach) as Hwf.
  assert (Hclear : clearAllData w
                   = (Ok true, set_db (Db (Dexie.clear (emergencies (db w)))
                                          (Dexie.clear (foods (db w)))
                                          (Dexie.clear (contacts (db w)))
                                          (Dexie.clear (phrases (db w)))
                                          (Dexie.clear (orders (db w)))
                                          (Dexie.clear (activities (db w)))) w))
    by reflexivity.
  set (w1 := set_db _ w) in Hclear.
  assert (Htbl : forall m, tbl m (db w1) = Dexie.clear (tbl m (db w)))
    by (intros []; reflexivity).
  destruct (adder_fresh h n data w1) as (r & w2 & Hadd & Hrid).
  { rewrite Htbl. apply wf_clear. apply Hwf. }
  { exact Hid. }
  exists w1, r, w2. split; [exact Hclear|].
  split.
  { intros m. split; [|split].
    - unfold records. rewrite Htbl. simpl. rewrite map_to_list_empty. reflexivity.
    - rewrite getAll_orderBy. rewrite Htbl.
      rewrite orderBy_empty by reflexivity. reflexivity.
    - rewrite Htbl. reflexivity. }
  split; [reflexivity|]. split; [exact Hadd|].
  split; [rewrite Hrid, Htbl; reflexivity|].
  intros k Hk ->. pose proof (wf_free _ (Hwf n)) as Hfree.
  rewrite Hfree in Hk. destruct Hk as [? Hk]. discriminate Hk.
Qed.

(** X9 at work: Mom is added, everything is cleared, and Mom is added again. *)
Lemma X9_clear_keeps_generators_witness :
  exists w1 r w2,
    clearAllData mom_world = (Ok true, w1)
    /\ records Contacts w1 = []
    /\ addContact ticking mom w1 = (Ok r, w2)
    /\ r !! "id" = Some (VNum 2).
Proof.
  assert (Hreach : reachable ticking mom_world).
  { apply (reach_exec ticking (AddContact mom) initial); constructor. }
  assert (Hgen : (next_key (tbl Contacts (db mom_world)) <= 2 ^ 53)%Z)
    by (vm_compute; discriminate).
  destruct (X9_clear_keeps_generators ticking Contacts mom mom_world Hreach Hgen eq_refl)
    as (w1 & r & w2 & Hclear & Hall & _ & Hadd & Hid & _).
  exists w1, r, w2. split; [exact Hclear|].
  split; [apply (Hall Contacts)|]. split; [exact Hadd | exact Hid].
Defined.

(** X10. [exportData] resolves, leaving the world as it is, to a file
    whose six arrays hold exactly the records of the six collections,
    each once, in ascending order of [id]; records that the listings
    pass over for want of a sort key are exported all the same. *)
Theorem X10_export_content h w :
  reachable h w ->
  exists snapshot,
    exportData w = (Ok snapshot, w)
    /\ forall n, exported n snapshot ≡ₚ records n w
                 /\ StronglySorted asc_id (exported n snapshot).
Proof.
  intros Hreach. pose proof (reachable_wf h w Hreach) as Hwf.
  eexists. split; [reflexivity|].
  intros n. split.
  - destruct n; apply toArray_records.
  - pose proof (Hwf n) as Hn. destruct n; apply toArray_sorted; exact Hn.
Qed.

(** X10 at work: Mom, who has no usage count, is exported though the
    listing passes her over. *)
Lemma X10_export_content_witness :
  exists snapshot,
    exportData mom_world = (Ok snapshot, mom_world)
    /\ x_contacts snapshot ≡ₚ [mom_stored]
    /\ getAllContacts mom_world = (Ok [], mom_world).
Proof.
  assert (Hreach : reachable ticking mom_world).
  { apply (reach_exec ticking (AddContact mom) initial); constructor. }
  destruct (X10_export_content ticking mom_world Hreach) as (s & Hrun & Hall).
  exists s. split; [exact Hrun|]. split; [apply (Hall Contacts) | reflexivity].
Defined.

End QueryProps.


(** ** [utils/initialDataLoader.js]: the check at start-up *)

Module LoaderFacts.

Import Dexie Database InitialDataLoader Machine Notions.
Import DexieFacts DatabaseFacts OrderFacts InvariantFacts SeedFacts EntityFacts
       QueryFacts.

Lemma checkAndLoadInitialData_run h w :
  checkAndLoadInitialData h w =
  (Ok tt, if nothing_listed w then (loadAllInitialData h w).2 else w).
Proof.
  unfold checkAndLoadInitialData, nothing_listed, listing, try_catch, bind,
    getAllEmergencies, getAllFoods, getAllContacts, getAllPhrases, getAllActivities,
    logged, try_catch, table_orderBy_reverse, sort_field.
  cbn [tbl].
  match goal with |- context [if ?c then _ else _] => destruct c end.
  - destruct (loadAllInitialData h w) as [[[]|e] w']; reflexivity.
  - reflexivity.
Qed.

Lemma insert_cases (m : gmap ikey obj) k' x k r :
  <[k' := x]> m !! k = Some r -> m !! k = Some r \/ r = x.
Proof.
  destruct (decide (k = k')) as [->|Hne].
  - rewrite lookup_insert_eq. intros [= <-]. tauto.
  - rewrite lookup_insert_ne by congruence. tauto.
Qed.

(** The rows of a table after [add]. *)
Lemma add_rows_cases o t k r :
  rows (Dexie.add o t).2 !! k = Some r ->
  rows t !! k = Some r \/ r = o \/ r = <["id" := VNum (next_key t)]> o.
Proof.
  unfold Dexie.add.
  assert (Hgen : rows
            (match rows t !! KNum (next_key t) with
             | Some _ => (Threw ConstraintError, t)
             | None =>
                 (Ok (KNum (next_key t)),
                  Table (<[KNum (next_key t) := <["id" := VNum (next_key t)]> o]> (rows t))
                        (next_key t + 1))
             end).2 !! k = Some r ->
          rows t !! k = Some r \/ r = o \/ r = <["id" := VNum (next_key t)]> o).
  { destruct (rows t !! KNum (next_key t)); simpl; [tauto|].
    intros H; apply insert_cases in H; tauto. }
  destruct (o !! "id") as [v|]; [|exact Hgen].
  destruct (as_key v) as [kk|] eqn:Hk.
  - destruct v; try discriminate Hk;
      (destruct (rows t !! kk); simpl; [tauto|];
       intros H; apply insert_cases in H; tauto).
  - destruct v; try exact Hgen; simpl; tauto.
Qed.

Lemma indexed_createdAt_stamp b t data : indexed "createdAt" (stamp b t data).
Proof. unfold indexed, prop. rewrite stamp_createdAt. simpl. eauto. Qed.

Lemma inv_listed_addEmergency h data : inv emergencies_listed (addEmergency h data).
Proof.
  unfold addEmergency. inv_steps.
  apply inv_table_add. intros d Hd k o. cbn [set_tbl emergencies tbl].
  intros Hrow. apply add_rows_cases in Hrow as [Hrow | [-> | ->]].
  - apply (Hd k). exact Hrow.
  - apply indexed_createdAt_stamp.
  - unfold indexed, prop. rewrite lookup_insert_ne by discriminate.
    rewrite stamp_createdAt. simpl. eauto.
Qed.

Lemma inv_listed_loadAllInitialData h : inv emergencies_listed (loadAllInitialData h).
Proof.
  unfold loadAllInitialData, loadInitialEmergencyData, getAllEmergencies,
    fetch_emergency_json, load_body_part, symptom_item.
  inv_steps; try (destruct (emergency_json h) as [e|ok json]; inv_steps);
    apply inv_listed_addEmergency.
Qed.

Lemma inv_others_addEmergency d0 h data :
  inv (fun d => forall n, n <> Emergencies -> tbl n d = tbl n d0) (addEmergency h data).
Proof.
  unfold addEmergency. inv_steps.
  apply inv_table_add. intros d Hd n Hn. rewrite tbl_set_tbl_ne by congruence.
  apply Hd. exact Hn.
Qed.

Lemma inv_others_loadAllInitialData d0 h :
  inv (fun d => forall n, n <> Emergencies -> tbl n d = tbl n d0) (loadAllInitialData h).
Proof.
  unfold loadAllInitialData, loadInitialEmergencyData, getAllEmergencies,
    fetch_emergency_json, load_body_part, symptom_item.
  inv_steps; try (destruct (emergency_json h) as [e|ok json]; inv_steps);
    apply inv_others_addEmergency.
Qed.

Lemma between_empty t : rows t = ∅ -> between (next_key t) t.
Proof.
  intros Hrows. split; [lia|]. intros k [o Ho]. rewrite Hrows in Ho.
  rewrite lookup_empty in Ho. discriminate Ho.
Qed.

(** Loading into an empty emergency collection from a healthy seed file. *)
Lemma loadAllInitialData_empty h parts w :
  emergency_json h = Response true (Ok parts) ->
  rows (emergencies (db w)) = ∅ ->
  exists w',
    loadAllInitialData h w = (Ok tt, w')
    /\ plain <$> toArray (emergencies (db w')) = seed_item <$> parts.
Proof.
  intros Hjson Hrows.
  destruct (for_of_load_run h parts (next_key (emergencies (db w))) w
              (between_empty _ Hrows)) as (w' & Hrun & _ & _ & Harr).
  exists w'. split.
  - unfold loadAllInitialData, loadInitialEmergencyData, getAllEmergencies,
      table_orderBy_reverse, logged, try_catch, bind.
    rewrite (orderBy_empty "createdAt" (tbl Emergencies (db w)) Hrows).
    cbn [Dexie.reverse List.rev length Nat.ltb Nat.leb].
    unfold fetch_emergency_json. rewrite Hjson. unfold lift. rewrite Hrun. reflexivity.
  - rewrite Harr. rewrite (toArray_empty _ Hrows). reflexivity.
Qed.

Lemma listing_nonempty w :
  emergencies_listed (db w) ->
  toArray (emergencies (db w)) <> [] ->
  nothing_listed w = false.
Proof.
  intros Hlisted Hne. unfold nothing_listed.
  destruct (toArray (emergencies (db w))) as [|o l] eqn:Harr; [congruence|].
  assert (Ho : o ∈ (map_to_list (rows (emergencies (db w)))).*2).
  { rewrite <- toArray_records, Harr. left. }
  assert (Hin : o ∈ listing Emergencies w).
  { unfold listing, Dexie.reverse.
    apply list_elem_of_In. rewrite <- in_rev. apply list_elem_of_In.
    change (sort_field Emergencies) with "createdAt".
    rewrite orderBy_records. apply list_elem_of_filter. split; [|exact Ho].
    apply list_elem_of_fmap in Ho as ([k o'] & -> & Hp).
    apply elem_of_map_to_list in Hp. apply (Hlisted k). exact Hp. }
  destruct (listing Emergencies w) as [|x xs]; [inversion Hin | reflexivity].
Qed.

End LoaderFacts.

Module LoaderProps.

Import Dexie Database InitialDataLoader Machine Examples Notions.
Import DexieFacts DatabaseFacts OrderFacts InvariantFacts SeedFacts StampFacts
       EntityFacts QueryFacts KeepFacts LoaderFacts.

(** X11. [checkAndLoadInitialData] never rejects, whatever the seed file
    and the database are: it resolves, every record that was stored is
    still stored, unchanged, only the emergency collection can have
    gained records, and the image store is untouched.  When one of the
    five listings it reads (orders are not among them) shows a record,
    nothing at all changes. *)
Theorem X11_check_and_load h w :
  exists w',
    checkAndLoadInitialData h w = (Ok tt, w')
    /\ grown (db w) (db w')
    /\ (forall n, n <> Emergencies -> tbl n (db w') = tbl n (db w))
    /\ userImages w' = userImages w
    /\ ((exists n, n <> Orders /\ listing n w <> []) -> w' = w).
Proof.
  rewrite checkAndLoadInitialData_run. eexists. split; [reflexivity|].
  split; [|split; [|split]].
  - destruct (nothing_listed w); [|intros n; reflexivity].
    apply (inv_grown_loadAllInitialData (db w) h w). intros n. reflexivity.
  - destruct (nothing_listed w); [|reflexivity].
    apply (inv_others_loadAllInitialData (db w) h w). reflexivity.
  - destruct (nothing_listed w); [|reflexivity].
    apply keeps_images_loadAllInitialData.
  - intros (n & Hn & Hl).
    replace (nothing_listed w) with false; [reflexivity|].
    symmetry. unfold nothing_listed.
    destruct n; try congruence;
      destruct (listing Emergencies w), (listing Foods w), (listing Contacts w),
               (listing Phrases w), (listing Activities w);
      try reflexivity; congruence.
Qed.

(** X11 at work: a database that lists a food is left alone, and a seed file that cannot be fetched does no harm. *)
Lemma X11_check_and_load_witness :
  checkAndLoadInitialData ticking soup_world = (Ok tt, soup_world)
  /\ exists w', checkAndLoadInitialData broken initial = (Ok tt, w')
                /\ grown (db initial) (db w').
Proof.
  split.
  - destruct (X11_check_and_load ticking soup_world) as (w' & Hrun & _ & _ & _ & Hnoop).
    rewrite Hrun. f_equal. apply Hnoop. exists Foods. split; discriminate.
  - destruct (X11_check_and_load broken initial) as (w' & Hrun & Hgrown & _).
    exists w'. split; [exact Hrun | exact Hgrown].
Defined.

(** X12. On a database whose emergency collection is empty and whose
    other four listings show nothing, with a seed file that loads,
    [checkAndLoadInitialData] stores the body parts of the seed file, in
    the file's order; every stored emergency is stamped with [createdAt];
    and when the file holds a body part, a second call changes nothing:
    the seed is loaded once. *)
Theorem X12_first_run h parts w :
  emergency_json h = Response true (Ok parts) ->
  rows (emergencies (db w)) = ∅ ->
  nothing_listed w = true ->
  exists w1,
    checkAndLoadInitialData h w = (Ok tt, w1)
    /\ plain <$> toArray (emergencies (db w1)) = seed_item <$> parts
    /\ emergencies_listed (db w1)
    /\ (parts <> [] -> checkAndLoadInitialData h w1 = (Ok tt, w1)).
Proof.
  intros Hjson Hrows Hnothing.
  destruct (loadAllInitialData_empty h parts w Hjson Hrows) as (w1 & Hload & Harr).
  assert (Hlisted : emergencies_listed (db w1)).
  { pose proof (inv_listed_loadAllInitialData h w) as Hinv. rewrite Hload in Hinv.
    apply Hinv. intros k o Ho. rewrite Hrows, lookup_empty in Ho. discriminate Ho. }
  exists w1. rewrite checkAndLoadInitialData_run, Hnothing, Hload.
  split; [reflexivity|]. split; [exact Harr|]. split; [exact Hlisted|].
  intros Hparts. rewrite checkAndLoadInitialData_run.
  rewrite (listing_nonempty w1 Hlisted); [reflexivity|].
  intros Hnil. rewrite Hnil in Harr. destruct parts; [congruence | discriminate Harr].
Qed.

(** X12 at work: the first start of a fresh installation, and the second. *)
Lemma X12_first_run_witness :
  exists w1,
    checkAndLoadInitialData ticking initial = (Ok tt, w1)
    /\ plain <$> toArray (emergencies (db w1)) = [seed_item head_part]
    /\ checkAndLoadInitialData ticking w1 = (Ok tt, w1).
Proof.
  destruct (X12_first_run ticking [head_part] initial eq_refl eq_refl eq_refl)
    as (w1 & Hrun & Harr & _ & Hagain).
  exists w1. split; [exact Hrun|]. split; [exact Harr|].
  apply Hagain. discriminate.
Defined.

End LoaderProps.

(** ** The enum helpers and the validators *)

Module EnumFacts.

Import Database EnumUtils Notions.

Lemma upper_underscore x : Ascii.eqb (upper x) "_" = Ascii.eqb x "_".
Proof. destruct x as [[] [] [] [] [] [] [] []]; reflexivity. Qed.

Lemma length_replace_first c d s :
  String.length (replace_first c d s) = String.length s.
Proof.
  induction s as [|x s IH]; simpl; [reflexivity|].
  destruct (Ascii.eqb x c); simpl; [reflexivity | rewrite IH; reflexivity].
Qed.

Lemma length_capitalize_words inside s :
  String.length (capitalize_words inside s) = String.length s.
Proof.
  revert inside. induction s as [|x s IH]; intros inside; simpl; [reflexivity|].
  rewrite IH. reflexivity.
Qed.

Lemma occurrences_capitalize_words inside s :
  occurrences "_" (capitalize_words inside s) = occurrences "_" s.
Proof.
  revert inside. induction s as [|x s IH]; intros inside; simpl; [reflexivity|].
  rewrite IH. destruct (is_word x && negb inside); [|reflexivity].
  rewrite upper_underscore. reflexivity.
Qed.

Lemma occurrences_replace_first s :
  occurrences "_" (replace_first "_" " " s) = Nat.pred (occurrences "_" s).
Proof.
  induction s as [|x s IH]; simpl; [reflexivity|].
  destruct (Ascii.eqb x "_") eqn:Hx; simpl.
  - reflexivity.
  - rewrite Hx. simpl. exact IH.
Qed.

Lemma filled_spec v :
  filled v <-> exists name, optional_trim v = Ok name /\ truthy name = true.
Proof.
  split.
  - intros (s & -> & Hs). exists (VStr (trim s)). split; [reflexivity|].
    simpl. destruct (String.eqb_spec (trim s) ""); [congruence | reflexivity].
  - intros (name & Ht & Hn). destruct v; simpl in Ht; inversion Ht; subst;
      simpl in Hn; try discriminate Hn.
    eexists. split; [reflexivity|].
    destruct (String.eqb_spec (trim s) ""); [discriminate Hn | assumption].
Qed.

Lemma push_if_nil c m errors : push_if c m errors = [] <-> c = false /\ errors = [].
Proof.
  unfold push_if. destruct c.
  - split; [|intros [H _]; discriminate H].
    intros H. apply app_eq_nil in H as [_ H]. discriminate H.
  - tauto.
Qed.

End EnumFacts.

Module EnumProps.

Import Database EnumUtils Notions EnumFacts.

(** X13. The entries that [getEnumOptions] builds for a select component
    carry the values of the enum, in the enum's order, after an empty
    first entry when one is asked for; every entry of the enum is
    labelled with the display name of its value; and a value passes
    [isValidEnumValue], which agrees with the validators' [validateEnum],
    exactly when it is the value of one of the entries. *)
Theorem X13_enum_options enumArray includeEmpty :
  o_value <$> getEnumOptions enumArray includeEmpty
  = (if includeEmpty then "" :: enumArray else enumArray)
  /\ o_label <$> getEnumOptions enumArray includeEmpty
     = (if includeEmpty then "Select..." :: (getDisplayName <$> enumArray)
        else getDisplayName <$> enumArray)
  /\ (forall v, isValidEnumValue v enumArray = true
                <-> exists opt, opt ∈ getEnumOptions enumArray false
                                /\ v = VStr (o_value opt))
  /\ (forall v, isValidEnumValue v enumArray = validateEnum v enumArray).
Proof.
  unfold getEnumOptions.
  assert (Hv : o_value <$> List.map (fun v => OptionEntry v (getDisplayName v)) enumArray
               = enumArray).
  { induction enumArray as [|x l IH]; [reflexivity|]. csimpl. rewrite IH. reflexivity. }
  assert (Hl : o_label <$> List.map (fun v => OptionEntry v (getDisplayName v)) enumArray
               = getDisplayName <$> enumArray).
  { clear Hv. induction enumArray as [|x l IH]; [reflexivity|]. csimpl.
    rewrite IH. reflexivity. }
  split; [destruct includeEmpty; csimpl; rewrite Hv; reflexivity|].
  split; [destruct includeEmpty; csimpl; rewrite Hl; reflexivity|].
  split; [|reflexivity].
  intros v. split.
  - destruct v; simpl; try discriminate. intros Hin. apply bool_decide_eq_true in Hin.
    exists (OptionEntry s (getDisplayName s)). split; [|reflexivity].
    apply list_elem_of_In. apply in_map_iff. exists s. split; [reflexivity|].
    apply list_elem_of_In. exact Hin.
  - intros (opt & Hopt & ->). simpl. apply bool_decide_eq_true.
    apply list_elem_of_In, in_map_iff in Hopt as (x & <- & Hx).
    simpl. apply list_elem_of_In. exact Hx.
Qed.

(** X14. [getDisplayName] keeps the length of the text and turns only the
    first underscore into a space: the display name has one underscore
    less than the value, so a value with two or more underscores keeps all
    but the first. *)
Theorem X14_display_name value :
  String.length (getDisplayName value) = String.length value
  /\ occurrences "_" (getDisplayName value) = Nat.pred (occurrences "_" value).
Proof.
  unfold getDisplayName. split.
  - rewrite length_capitalize_words. apply length_replace_first.
  - rewrite occurrences_capitalize_words. apply occurrences_replace_first.
Qed.

(** X15. What the five validators accept: the list of errors is empty
    exactly when the required text is a string that is not blank and each
    enum field holds a member of its enum; for an activity the frequency
    is looked at only when [isRecurring] is truthy. *)
Theorem X15_validators_accept data :
  (validateContactData data = Ok []
   <-> filled (prop data "name")
       /\ validateEnum (prop data "relationship") CONTACT_RELATIONSHIPS = true
       /\ validateEnum (prop data "gender") CONTACT_GENDER = true)
  /\ (validateFoodData data = Ok []
      <-> filled (prop data "name")
          /\ validateEnum (prop data "category") FOOD_CATEGORIES = true)
  /\ (validatePhraseData data = Ok []
      <-> filled (prop data "text")
          /\ validateEnum (prop data "category") PHRASE_CATEGORIES = true)
  /\ (validateOrderData data = Ok []
      <-> filled (prop data "orderNumber")
          /\ validateEnum (prop data "status") ORDER_STATUS = true)
  /\ (validateActivityData data = Ok []
      <-> filled (prop data "name")
          /\ validateEnum (prop data "category") ACTIVITY_CATEGORIES = true
          /\ (truthy (prop data "isRecurring") = true ->
              validateEnum (prop data "frequency") ACTIVITY_FREQUENCY = true)).
Proof.
  unfold validateContactData, validateFoodData, validatePhraseData, validateOrderData,
    validateActivityData. cbv zeta.
  split; [|split; [|split; [|split]]]; (split; [intros H | ]).
  all: try (match type of H with
            | match optional_trim ?v with _ => _ end = _ =>
                destruct (optional_trim v) as [name|e] eqn:Ht; [|discriminate H]
            end;
            injection H as H;
            repeat (apply push_if_nil in H as [? H]);
            repeat match goal with
                   | Hb : negb _ = false |- _ => apply negb_false_iff in Hb
                   end;
            repeat split; try assumption; try (apply filled_spec; eauto; fail)).
  - intros (Hf & Hr & Hg). apply filled_spec in Hf as (name & -> & Hn).
    rewrite Hn, Hr, Hg. reflexivity.
  - intros (Hf & Hc). apply filled_spec in Hf as (name & -> & Hn).
    rewrite Hn, Hc. reflexivity.
  - intros (Hf & Hc). apply filled_spec in Hf as (name & -> & Hn).
    rewrite Hn, Hc. reflexivity.
  - intros (Hf & Hc). apply filled_spec in Hf as (name & -> & Hn).
    rewrite Hn, Hc. reflexivity.
  - intros Hrec.
    match goal with
    | Hb : _ && _ = false |- _ =>
        rewrite Hrec in Hb; simpl in Hb; apply negb_false_iff in Hb; exact Hb
    end.
  - intros (Hf & Hc & Hq). apply filled_spec in Hf as (name & -> & Hn).
    rewrite Hn, Hc. simpl.
    destruct (truthy (prop data "isRecurring")); [rewrite Hq by reflexivity|]; reflexivity.
Qed.

End EnumProps.

(** ** The image store and the upload pipeline *)

Module ImageFacts.

Import Dexie Database IndexedDB ImageUpload Machine Queries ImageStore Components
       Notions.
Import DexieFacts DatabaseFacts OrderFacts EntityFacts QueryFacts KeepFacts.

(** [storeUserImage], step by step. *)
Lemma storeUserImage_run h imageData w :
  exists r,
    (forall f, f ∈ copied_fields -> r !! f = Some (prop imageData f))
    /\ r !! "uploadDate" = Some (VStr (stamp_of h w))
    /\ (forall f, f ∉ "uploadDate" :: copied_fields -> r !! f = None)
    /\ storeUserImage h imageData w =
       match idb_open h with
       | Some e => (Threw e, w)
       | None =>
           match as_key (prop imageData "id") with
           | None => (Threw DataError, tick w)
           | Some k =>
               match idb_put h r with
               | Some e => (Threw e, tick w)
               | None => (Ok (prop imageData "id"), put_world k r w)
               end
           end
       end.
Proof.
  unfold storeUserImage, logged, try_catch, bind, initDB, now, ret, throw.
  exists (<["id" := prop imageData "id"]>
          (<["type" := prop imageData "type"]>
          (<["base64Data" := prop imageData "base64Data"]>
          (<["originalName" := prop imageData "originalName"]>
          (<["uploadDate" := VStr (stamp_of h w)]>
          (<["size" := prop imageData "size"]>
          (<["bodyPartId" := prop imageData "bodyPartId"]>
          (<["symptomId" := prop imageData "symptomId"]>
          (<["contactId" := prop imageData "contactId"]>
          (<["foodId" := prop imageData "foodId"]>
          {[ "phraseId" := prop imageData "phraseId" ]})))))))))).
  unfold stamp_of.
  set (r := <["id" := prop imageData "id"]> _).
  assert (Hid : prop r "id" = prop imageData "id") by reflexivity.
  split; [|split; [|split]].
  - intros f Hf. unfold copied_fields in Hf.
    repeat (apply elem_of_cons in Hf as [-> | Hf]; [reflexivity|]).
    inversion Hf.
  - reflexivity.
  - intros f Hf. unfold r.
    repeat (rewrite lookup_insert_ne
             by (intros <-; apply Hf; unfold copied_fields; set_solver)).
    apply lookup_singleton_ne. intros <-; apply Hf; unfold copied_fields; set_solver.
  - destruct (idb_open h) as [e|]; [reflexivity|]. cbn [fst snd].
    match goal with |- context [store_put h ?R] => change R with r end.
    unfold store_put. rewrite Hid.
    destruct (as_key (prop imageData "id")) as [k|]; [|reflexivity].
    destruct (idb_put h r); reflexivity.
Qed.

Lemma getUserImage_run h k w :
  getUserImage h (key_value k) w =
  match idb_open h, idb_get h with
  | Some e, _ => (Threw e, w)
  | None, Some e => (Threw e, w)
  | None, None => (Ok (userImages w !! k), w)
  end.
Proof.
  unfold getUserImage, logged, try_catch, bind, initDB, store_get, throw, ret.
  destruct (idb_open h); [reflexivity|]. cbn [fst snd].
  rewrite as_key_key_value. destruct (idb_get h); reflexivity.
Qed.

(** Resolving an image id never rejects; the stored data URL is found
    when the store can be read and holds the id. *)
Lemma getImageSource_upload h p w :
  startsWith "user_upload_" p = true ->
  getImageSource h (VStr p) w =
  (Ok match idb_open h, idb_get h, userImages w !! KStr p with
      | None, None, Some record => prop record "base64Data"
      | _, _, _ => VNull
      end, w).
Proof.
  intros Hp. unfold getImageSource, isUserUploadedImage, bind, lift.
  assert (Hs : truthy (VStr p) = true).
  { destruct p; [discriminate Hp | reflexivity]. }
  rewrite Hs, Hp. cbn [truthy].
  unfold try_catch, bind, ret. rewrite (getUserImage_run h (KStr p)).
  destruct (idb_open h); [reflexivity|]. destruct (idb_get h); [reflexivity|].
  destruct (userImages w !! KStr p); reflexivity.
Qed.

Lemma getImageSource_direct h p w :
  startsWith "user_upload_" p = false ->
  getImageSource h (VStr p) w = (Ok (VStr p), w).
Proof.
  intros Hp. unfold getImageSource, isUserUploadedImage, bind, lift.
  destruct (truthy (VStr p)) eqn:Hs.
  - rewrite Hp. reflexivity.
  - rewrite Hs. reflexivity.
Qed.

Lemma generated_is_upload type identifier stamp random :
  startsWith "user_upload_"
    ("user_upload_" +:+ to_string type +:+ "_" +:+ to_string identifier
       +:+ "_" +:+ stamp +:+ "_" +:+ random) = true.
Proof.
  unfold startsWith. simpl.
  match goal with |- String.prefix "" ?x = true => destruct x; reflexivity end.
Qed.

Lemma total_bytes_nonneg images :
  Forall (fun o => exists n, prop o "size" = VNum n /\ (0 <= n)%Z) images ->
  (0 <= total_bytes images)%Z.
Proof.
  induction 1 as [|o l (n & Hn & Hpos) _ IH]; [simpl; lia|].
  cbn [total_bytes foldr]. rewrite Hn. unfold total_bytes in IH. lia.
Qed.

(** [(sum, img) => sum + (img.size || 0)] on sizes that add up without
    rounding. *)
Lemma sum_sizes_from a images :
  Forall (fun o => exists n, prop o "size" = VNum n /\ (0 <= n)%Z) images ->
  (0 <= a)%Z ->
  (a + total_bytes images <= 2 ^ 53)%Z ->
  fold_left (fun sum img => JS.add sum (JS.or (prop img "size") (VNum 0)))
            images (VNum a)
  = VNum (a + total_bytes images).
Proof.
  intros Hall. revert a. induction Hall as [|o l (n & Hn & Hpos) Hrest IH]; intros a Ha Hsum.
  - simpl. f_equal. lia.
  - pose proof (total_bytes_nonneg l Hrest) as Htail.
    cbn [fold_left total_bytes foldr] in *. rewrite Hn in *.
    fold (total_bytes l) in *.
    assert (Hor : JS.or (VNum n) (VNum 0) = VNum n).
    { unfold JS.or. simpl. destruct (Z.eqb_spec n 0) as [->|]; reflexivity. }
    rewrite Hor. change (JS.add (VNum a) (VNum n)) with (VNum (to_double (a + n))).
    rewrite to_double_small by lia.
    rewrite IH by lia. f_equal. lia.
Qed.

Lemma length_toArray_size (m : gmap ikey obj) : length (toArray (as_table m)) = size m.
Proof.
  rewrite toArray_records. simpl. rewrite length_fmap. apply length_map_to_list.
Qed.

Lemma deleteUserImage_run h f v w :
  deleteUserImage h f v w =
  match idb_open h with
  | Some e => (Threw e, w)
  | None =>
      match as_key v with
      | None => (Threw DataError, w)
      | Some k =>
          match idb_delete f with
          | Some e => (Threw e, w)
          | None => (Ok true, World (db w) (base.delete k (userImages w))
                                    (reads w) (draws w))
          end
      end
  end.
Proof.
  unfold deleteUserImage, logged, try_catch, bind, initDB, store_delete, throw, ret.
  destruct (idb_open h); [reflexivity|]. cbn [fst snd].
  destruct (as_key v); [|reflexivity]. destruct (idb_delete f); reflexivity.
Qed.

Lemma getAllUserImages_run h f w :
  getAllUserImages h f w =
  match idb_open h, idb_getAll f with
  | Some e, _ => (Threw e, w)
  | None, Some e => (Threw e, w)
  | None, None => (Ok (toArray (as_table (userImages w))), w)
  end.
Proof.
  unfold getAllUserImages, logged, try_catch, bind, initDB, store_getAll, throw, ret.
  destruct (idb_open h); [reflexivity|]. cbn [fst snd].
  destruct (idb_getAll f); reflexivity.
Qed.

Lemma getStorageInfo_run h f w :
  getStorageInfo h f w =
  match idb_open h, idb_getAll f with
  | Some e, _ => (Threw e, w)
  | None, Some e => (Threw e, w)
  | None, None =>
      (Ok (StorageInfo (length (toArray (as_table (userImages w))))
                       (sum_sizes (toArray (as_table (userImages w))))), w)
  end.
Proof.
  unfold getStorageInfo, logged, try_catch, bind, initDB, store_getAll, throw, ret.
  destruct (idb_open h); [reflexivity|]. cbn [fst snd].
  destruct (idb_getAll f); reflexivity.
Qed.

Lemma clearAllUserImages_run h f w :
  clearAllUserImages h f w =
  match idb_open h, idb_clear f with
  | Some e, _ => (Threw e, w)
  | None, Some e => (Threw e, w)
  | None, None => (Ok true, World (db w) ∅ (reads w) (draws w))
  end.
Proof.
  unfold clearAllUserImages, logged, try_catch, bind, initDB, store_clear, throw, ret.
  destruct (idb_open h); [reflexivity|]. cbn [fst snd].
  destruct (idb_clear f); reflexivity.
Qed.

Lemma same_world w : World (db w) (userImages w) (reads w) (draws w) = w.
Proof. destruct w; reflexivity. Qed.

(** A rejected [storeUserImage] has stored nothing. *)
Lemma storeUserImage_threw h imageData w e w' :
  storeUserImage h imageData w = (Threw e, w') -> userImages w' = userImages w.
Proof.
  destruct (storeUserImage_run h imageData w) as (r & _ & _ & _ & ->).
  destruct (idb_open h); [intros [= _ <-]; reflexivity|].
  destruct (as_key (prop imageData "id")); [|intros [= _ <-]; reflexivity].
  destruct (idb_put h r); [intros [= _ <-]; reflexivity | discriminate].
Qed.

(** A rejected [processAndStoreImage] has stored nothing. *)
Lemma processAndStoreImage_threw h file imageType identifier w e w' :
  processAndStoreImage h file imageType identifier w = (Threw e, w') ->
  userImages w' = userImages w.
Proof.
  unfold processAndStoreImage, logged, try_catch, bind.
  destruct (negb (startsWith "image/" (blob_type file))); cbn [throw ret fst snd];
    [intros [= _ <-]; reflexivity|].
  destruct (5 * 1024 * 1024 <? blob_size file)%Z; cbn [throw ret fst snd];
    [intros [= _ <-]; reflexivity|].
  destruct ((if (1 * 1024 * 1024 <? blob_size file)%Z
             then lift (compress h file) else ret file) w)
    as [[processed|e1] w1] eqn:Hprocessed.
  2: { assert (w1 = w) as ->
         by (destruct (1 * 1024 * 1024 <? blob_size file)%Z; inversion Hprocessed;
             reflexivity).
       intros [= _ <-]; reflexivity. }
  assert (w1 = w) as ->
    by (destruct (1 * 1024 * 1024 <? blob_size file)%Z; inversion Hprocessed;
        reflexivity).
  unfold lift at 1.
  destruct (readAsDataURL h processed) as [base64|e2]; [|intros [= _ <-]; reflexivity].
  unfold generateImageId, Date_now, random_suffix, bind, ret. cbn [fst snd].
  match goal with
  | |- context [storeUserImage h ?d ?w0] =>
      destruct (storeUserImage h d w0) as [[v|e3] w3] eqn:Hstore
  end.
  - discriminate.
  - intros [= _ <-]. apply storeUserImage_threw in Hstore. exact Hstore.
Qed.

(** A successful [processAndStoreImage], step by step. *)
Lemma processAndStoreImage_ok h file imageType identifier w processed base64 :
  startsWith "image/" (blob_type file) = true ->
  (blob_size file <= 5 * 1024 * 1024)%Z ->
  (if (1 * 1024 * 1024 <? blob_size file)%Z then compress h file else Ok file)
  = Ok processed ->
  readAsDataURL h processed = Ok base64 ->
  idb_open h = None ->
  (forall r, idb_put h r = None) ->
  exists id r,
    generateImageId h imageType identifier w = (Ok id, draw (tick w))
    /\ startsWith "user_upload_" id = true
    /\ processAndStoreImage h file imageType identifier w
       = (Ok (Stored id base64 (blob_size file) (blob_size processed)),
          put_world (KStr id) r (draw (tick w)))
    /\ r !! "id" = Some (VStr id)
    /\ r !! "type" = Some imageType
    /\ r !! "base64Data" = Some (VStr base64)
    /\ r !! "originalName" = Some (VStr (blob_name file))
    /\ r !! "size" = Some (VNum (blob_size processed))
    /\ r !! "uploadDate" = Some (VStr (stamp_of h (tick w)))
    /\ Forall (fun kf => r !! kf.2
                         = Some (if is_string imageType kf.1 then identifier else VNull))
              owner_fields.
Proof.
  intros Htype Hsize Hprocessed Hread Hopen Hput.
  unfold processAndStoreImage, logged, try_catch, bind.
  rewrite Htype. cbn [negb throw ret fst snd].
  destruct (Z.ltb_spec (5 * 1024 * 1024) (blob_size file)) as [Hbig|_]; [lia|].
  cbn [ret].
  assert (Hstep : (if (1 * 1024 * 1024 <? blob_size file)%Z
                   then lift (compress h file) else ret file) w = (Ok processed, w)).
  { destruct (1 * 1024 * 1024 <? blob_size file)%Z; unfold lift, ret; congruence. }
  rewrite Hstep. unfold lift at 1. rewrite Hread.
  unfold generateImageId, Date_now, random_suffix, bind, ret. cbn [fst snd].
  match goal with
  | |- context [storeUserImage h ?d ?w0] =>
      destruct (storeUserImage_run h d w0) as (r & Hcopied & Hdate & _ & Hrun);
      rewrite Hrun, Hopen;
      change (prop d "id") with (VStr ("user_upload_" +:+ to_string imageType +:+ "_"
                +:+ to_string identifier +:+ "_" +:+ pretty (clock h (reads w))
                +:+ "_" +:+ random36 h (draws w))) in *;
      pose (imageData := d); change d with imageData in Hcopied
  end.
  cbn [as_key]. rewrite Hput.
  eexists _, r. split; [reflexivity|].
  split; [apply generated_is_upload|].
  split; [reflexivity|].
  assert (Hin : forall f, f ∈ copied_fields -> r !! f = Some (prop imageData f))
    by exact Hcopied.
  split; [apply (Hin "id"); unfold copied_fields; set_solver|].
  split; [apply (Hin "type"); unfold copied_fields; set_solver|].
  split; [apply (Hin "base64Data"); unfold copied_fields; set_solver|].
  split; [apply (Hin "originalName"); unfold copied_fields; set_solver|].
  split; [apply (Hin "size"); unfold copied_fields; set_solver|].
  split; [exact Hdate|].
  unfold owner_fields. repeat constructor; cbn [fst snd].
  - apply (Hin "bodyPartId"); unfold copied_fields; set_solver.
  - apply (Hin "symptomId"); unfold copied_fields; set_solver.
  - apply (Hin "contactId"); unfold copied_fields; set_solver.
  - apply (Hin "foodId"); unfold copied_fields; set_solver.
  - apply (Hin "phraseId"); unfold copied_fields; set_solver.
Qed.

Lemma getImagesByBodyPart_run h f v w :
  idb_open h = None ->
  idb_getAll f = None ->
  getImagesByBodyPart h f v w =
  match v with
  | VUndef | VNull => (Ok (orderBy "bodyPartId" (as_table (userImages w))), w)
  | _ => match as_key v with
         | Some k => (Ok (where_equals "bodyPartId" k (as_table (userImages w))), w)
         | None => (Threw DataError, w)
         end
  end.
Proof.
  intros Hopen HgetAll.
  unfold getImagesByBodyPart, logged, try_catch, bind, initDB, index_getAll, throw, ret.
  rewrite Hopen. cbn [fst snd].
  destruct v; try (rewrite ?HgetAll; reflexivity);
    match goal with |- context [as_key ?x] => destruct (as_key x) end;
    rewrite ?HgetAll; reflexivity.
Qed.

End ImageFacts.

Module ImageProps.

Import Dexie Database IndexedDB ImageUpload Machine Queries ImageStore Components
       Examples Notions.
Import DexieFacts DatabaseFacts OrderFacts SeedFacts EntityFacts QueryFacts KeepFacts
       ImageFacts.

(** X16. On a host whose image store works, storing an image whose [id]
    is a key resolves to that [id], and [getUserImage] then resolves to
    the stored record: it replaces whatever was stored under the [id],
    carries the ten copied properties of the argument and the time stamp
    of the call as [uploadDate], and nothing else; the other images and
    the database of the entities are as before. *)
Theorem X16_store_then_get h imageData k w :
  idb_open h = None ->
  (forall r, idb_put h r = None) ->
  idb_get h = None ->
  as_key (prop imageData "id") = Some k ->
  exists r w',
    storeUserImage h imageData w = (Ok (key_value k), w')
    /\ getUserImage h (key_value k) w' = (Ok (Some r), w')
    /\ userImages w' = <[k := r]> (userImages w)
    /\ db w' = db w
    /\ (forall f, f ∈ copied_fields -> r !! f = Some (prop imageData f))
    /\ r !! "uploadDate" = Some (VStr (stamp_of h w))
    /\ (forall f, f ∉ "uploadDate" :: copied_fields -> r !! f = None).
Proof.
  intros Hopen Hput Hget Hk.
  destruct (storeUserImage_run h imageData w) as (r & Hcopied & Hdate & Hnone & Hrun).
  rewrite Hopen, Hk, Hput in Hrun.
  exists r, (put_world k r w).
  split; [rewrite Hrun; f_equal; f_equal; apply as_key_inv; exact Hk|].
  split; [rewrite getUserImage_run, Hopen, Hget; cbn [put_world userImages];
          rewrite lookup_insert_eq; reflexivity|].
  split; [reflexivity|]. split; [reflexivity|].
  split; [exact Hcopied|]. split; [exact Hdate | exact Hnone].
Qed.

(** X16 at work: an image of a food, stored and read back. *)
Lemma X16_store_then_get_witness :
  exists r w',
    storeUserImage ticking {[ "id" := VStr "user_upload_food_2_0_k0";
                              "type" := VStr "food" ]} initial
    = (Ok (VStr "user_upload_food_2_0_k0"), w')
    /\ getUserImage ticking (VStr "user_upload_food_2_0_k0") w' = (Ok (Some r), w')
    /\ r !! "type" = Some (VStr "food")
    /\ r !! "size" = Some VUndef
    /\ r !! "uploadDate" = Some (VStr "1970-01-01T00:00:00.000Z").
Proof.
  assert (Hk : as_key (prop ({[ "id" := VStr "user_upload_food_2_0_k0";
                               "type" := VStr "food" ]} : obj) "id")
               = Some (KStr "user_upload_food_2_0_k0")) by reflexivity.
  destruct (X16_store_then_get ticking
              {[ "id" := VStr "user_upload_food_2_0_k0"; "type" := VStr "food" ]}
              (KStr "user_upload_food_2_0_k0") initial
              eq_refl (fun _ => eq_refl) eq_refl Hk)
    as (r & w' & Hstore & Hget & _ & _ & Hcopied & Hdate & _).
  exists r, w'. split; [exact Hstore|]. split; [exact Hget|].
  split; [apply (Hcopied "type"); unfold copied_fields; set_solver|].
  split; [apply (Hcopied "size"); unfold copied_fields; set_solver|].
  exact Hdate.
Defined.

(** X17. A rejected [storeUserImage] has stored nothing and has left the
    database of the entities alone; it rejects because the store cannot be
    opened, because the [id] is not a key, or because the put request
    fails. *)
Theorem X17_store_rejected h imageData w e w' :
  storeUserImage h imageData w = (Threw e, w') ->
  userImages w' = userImages w
  /\ db w' = db w
  /\ (idb_open h = Some e
      \/ (e = DataError /\ as_key (prop imageData "id") = None)
      \/ exists r, idb_put h r = Some e).
Proof.
  destruct (storeUserImage_run h imageData w) as (r & _ & _ & _ & ->).
  destruct (idb_open h) as [e0|] eqn:Hopen.
  { intros [= <- <-]. split; [reflexivity|]. split; [reflexivity|]. left. reflexivity. }
  destruct (as_key (prop imageData "id")) eqn:Hk.
  2: { intros [= <- <-]. split; [reflexivity|]. split; [reflexivity|].
       right. left. split; reflexivity. }
  destruct (idb_put h r) as [e0|] eqn:Hput; [|discriminate].
  intros [= <- <-]. split; [reflexivity|]. split; [reflexivity|].
  right. right. exists r. exact Hput.
Qed.

(** X17 at work: a contact record, which has no [id], is refused by the image store. *)
Lemma X17_store_rejected_witness :
  userImages (tick image_world) = userImages image_world
  /\ db (tick image_world) = db image_world
  /\ (idb_open ticking = Some DataError
      \/ (DataError = DataError /\ as_key (prop mom "id") = None)
      \/ exists r, idb_put ticking r = Some DataError).
Proof.
  apply (X17_store_rejected ticking mom image_world DataError (tick image_world)).
  reflexivity.
Defined.

(** X18. On a host whose image store works, [deleteUserImage] with a
    value that is not a key rejects with DataError; with a key it resolves
    to [true] whether or not an image is stored under it: that image is
    gone and resolves to [null] from then on, the other images and the
    database of the entities are as before, and when no image was stored
    under the key nothing has changed. *)
Theorem X18_delete_image h f v w :
  idb_open h = None ->
  idb_delete f = None ->
  match as_key v with
  | None => deleteUserImage h f v w = (Threw DataError, w)
  | Some k =>
      exists w',
        deleteUserImage h f v w = (Ok true, w')
        /\ userImages w' = base.delete k (userImages w)
        /\ db w' = db w
        /\ (forall p, v = VStr p -> startsWith "user_upload_" p = true ->
                      getImageSource h v w' = (Ok VNull, w'))
        /\ (userImages w !! k = None -> w' = w)
  end.
Proof.
  intros Hopen Hdelete. rewrite deleteUserImage_run, Hopen, Hdelete.
  destruct (as_key v) as [k|] eqn:Hk; [|reflexivity].
  eexists. split; [reflexivity|]. split; [reflexivity|]. split; [reflexivity|].
  split.
  - intros p -> Hp. rewrite (getImageSource_upload h p _ Hp). cbn [userImages].
    simpl in Hk. injection Hk as <-. rewrite lookup_delete_eq.
    destruct (idb_open h), (idb_get h); reflexivity.
  - intros Hnone. rewrite delete_id by exact Hnone. apply same_world.
Qed.

(** X18 at work: [undefined] is refused; the one stored image is deleted. *)
Lemma X18_delete_image_witness :
  deleteUserImage ticking no_faults VUndef image_world = (Threw DataError, image_world)
  /\ exists w',
       deleteUserImage ticking no_faults (VStr "user_upload_contact_1_0_k0") image_world
       = (Ok true, w')
       /\ userImages w' = ∅
       /\ getImageSource ticking (VStr "user_upload_contact_1_0_k0") w' = (Ok VNull, w').
Proof.
  split.
  - apply (X18_delete_image ticking no_faults VUndef image_world eq_refl eq_refl).
  - destruct (X18_delete_image ticking no_faults (VStr "user_upload_contact_1_0_k0")
                image_world eq_refl eq_refl) as (w' & Hrun & Himgs & _ & Hsrc & _).
    exists w'. split; [exact Hrun|]. split; [rewrite Himgs; reflexivity|].
    apply (Hsrc _ eq_refl eq_refl).
Defined.

(** X19. On a host whose image store works, [getAllUserImages] resolves
    to the stored images, each once, and [getStorageInfo] counts exactly
    these; when every image has a nonnegative integer as its [size] and
    the sizes add up to at most 2^53, [totalSize] is their sum.  Both
    leave the world as it is. *)
Theorem X19_storage_info h f w :
  idb_open h = None ->
  idb_getAll f = None ->
  exists l total,
    getAllUserImages h f w = (Ok l, w)
    /\ l ≡ₚ (map_to_list (userImages w)).*2
    /\ getStorageInfo h f w = (Ok (StorageInfo (length l) total), w)
    /\ length l = size (userImages w)
    /\ (Forall (fun o => exists n, prop o "size" = VNum n /\ (0 <= n)%Z) l ->
        (total_bytes l <= 2 ^ 53)%Z ->
        total = VNum (total_bytes l)).
Proof.
  intros Hopen HgetAll.
  rewrite getAllUserImages_run, getStorageInfo_run, Hopen, HgetAll.
  eexists _, _. split; [reflexivity|].
  split; [apply (toArray_records (as_table (userImages w)))|].
  split; [reflexivity|]. split; [apply length_toArray_size|].
  intros Hall Hsum. unfold sum_sizes.
  rewrite (sum_sizes_from 0 _ Hall) by lia. reflexivity.
Qed.

(** X19 at work: the store that holds one image. *)
Lemma X19_storage_info_witness :
  exists l total,
    getAllUserImages ticking no_faults image_world = (Ok l, image_world)
    /\ getStorageInfo ticking no_faults image_world
       = (Ok (StorageInfo (length l) total), image_world)
    /\ length l = 1%nat.
Proof.
  destruct (X19_storage_info ticking no_faults image_world eq_refl eq_refl)
    as (l & total & Hall & _ & Hinfo & Hlen & _).
  exists l, total. split; [exact Hall|]. split; [exact Hinfo|].
  rewrite Hlen. reflexivity.
Defined.

(** X20. On a host whose image store works, [clearAllUserImages] resolves
    to [true] and leaves an empty image store beside an untouched database
    of the entities: the storage information then shows no image and no
    byte, and every id of an upload resolves to [null]. *)
Theorem X20_clear_images h f w :
  idb_open h = None ->
  idb_clear f = None ->
  exists w',
    clearAllUserImages h f w = (Ok true, w')
    /\ userImages w' = ∅
    /\ db w' = db w
    /\ (idb_getAll f = None ->
        getStorageInfo h f w' = (Ok (StorageInfo 0 (VNum 0)), w')
        /\ getAllUserImages h f w' = (Ok [], w'))
    /\ (forall p, startsWith "user_upload_" p = true ->
                  getImageSource h (VStr p) w' = (Ok VNull, w')).
Proof.
  intros Hopen Hclear. rewrite clearAllUserImages_run, Hopen, Hclear.
  eexists. split; [reflexivity|]. split; [reflexivity|]. split; [reflexivity|].
  split.
  - intros HgetAll.
    rewrite getStorageInfo_run, getAllUserImages_run, Hopen, HgetAll.
    cbn [userImages]. rewrite (toArray_empty (as_table ∅)) by reflexivity.
    split; reflexivity.
  - intros p Hp. rewrite (getImageSource_upload h p _ Hp). cbn [userImages].
    rewrite lookup_empty. destruct (idb_open h), (idb_get h); reflexivity.
Qed.

(** X20 at work: the store that holds one image is cleared. *)
Lemma X20_clear_images_witness :
  exists w',
    clearAllUserImages ticking no_faults image_world = (Ok true, w')
    /\ getStorageInfo ticking no_faults w' = (Ok (StorageInfo 0 (VNum 0)), w')
    /\ getImageSource ticking (VStr "user_upload_contact_1_0_k0") w' = (Ok VNull, w').
Proof.
  destruct (X20_clear_images ticking no_faults image_world eq_refl eq_refl)
    as (w' & Hrun & _ & _ & Hinfo & Hsrc).
  exists w'. split; [exact Hrun|]. split; [apply (Hinfo eq_refl)|].
  apply Hsrc. reflexivity.
Defined.

(** X21. An image file of at most 5 MB, on a host on which compression,
    reading and the image store work: [processAndStoreImage] resolves to
    the generated id and the data URL, the id is recognised as an upload,
    the data URL is stored under the id, and [getImageSource] of the id
    then resolves to that data URL.  The database of the entities is as
    before. *)
Theorem X21_upload_then_resolve h file imageType identifier w processed base64 :
  startsWith "image/" (blob_type file) = true ->
  (blob_size file <= 5 * 1024 * 1024)%Z ->
  (if (1 * 1024 * 1024 <? blob_size file)%Z then compress h file else Ok file)
  = Ok processed ->
  readAsDataURL h processed = Ok base64 ->
  idb_open h = None ->
  (forall r, idb_put h r = None) ->
  idb_get h = None ->
  exists id w',
    processAndStoreImage h file imageType identifier w
    = (Ok (Stored id base64 (blob_size file) (blob_size processed)), w')
    /\ generateImageId h imageType identifier w = (Ok id, draw (tick w))
    /\ isUserUploadedImage (VStr id) = Ok (VBool true)
    /\ getImageSource h (VStr id) w' = (Ok (VStr base64), w')
    /\ handleFile h file imageType identifier w
       = (if truthy imageType && truthy identifier
          then (Ok (inl id), w')
          else (Ok (inr "Missing image type or identifier"), w))
    /\ db w' = db w.
Proof.
  intros Htype Hsize Hprocessed Hread Hopen Hput Hget.
  destruct (processAndStoreImage_ok h file imageType identifier w processed base64
              Htype Hsize Hprocessed Hread Hopen Hput)
    as (id & r & Hid & Hupload & Hrun & _ & _ & Hdata & _).
  exists id, (put_world (KStr id) r (draw (tick w))).
  split; [exact Hrun|]. split; [exact Hid|].
  split.
  { unfold isUserUploadedImage.
    assert (Hs : truthy (VStr id) = true) by (destruct id; [discriminate | reflexivity]).
    rewrite Hs, Hupload. reflexivity. }
  split.
  { rewrite (getImageSource_upload h id _ Hupload), Hopen, Hget.
    cbn [put_world userImages]. rewrite lookup_insert_eq.
    unfold prop. rewrite Hdata. reflexivity. }
  split; [|reflexivity].
  unfold handleFile, try_catch, bind, validateImageFile. rewrite Htype.
  destruct (Z.ltb_spec (5 * 1024 * 1024) (blob_size file)) as [Hbig|_]; [lia|].
  cbn [negb push_if length Nat.eqb isValid ret fst snd].
  destruct (truthy imageType), (truthy identifier); cbn [negb orb andb throw ret];
    try reflexivity.
  rewrite Hrun. reflexivity.
Qed.

(** X21 at work: a picture of 2 MB is uploaded for contact 1 and resolved. *)
Lemma X21_upload_then_resolve_witness :
  exists id w',
    processAndStoreImage ticking small_png (VStr "contact") (VNum 1) initial
    = (Ok (Stored id "data:image/jpeg;base64,xyz" (2 * 1024 * 1024) (1024 * 1024)), w')
    /\ getImageSource ticking (VStr id) w' = (Ok (VStr "data:image/jpeg;base64,xyz"), w')
    /\ handleFile ticking small_png (VStr "contact") (VNum 1) initial = (Ok (inl id), w').
Proof.
  destruct (X21_upload_then_resolve ticking small_png (VStr "contact") (VNum 1) initial
              (Blob "mom.png" "image/jpeg" (1024 * 1024) "xyz")
              "data:image/jpeg;base64,xyz"
              eq_refl ltac:(vm_compute; discriminate) eq_refl eq_refl eq_refl
              (fun _ => eq_refl) eq_refl)
    as (id & w' & Hrun & _ & _ & Hsrc & Hfile & _).
  exists id, w'. split; [exact Hrun|]. split; [exact Hsrc | exact Hfile].
Defined.

(** X22. What the pipeline stores for an upload that goes through: a
    record under the generated id with the type, the name of the original
    file and the size of what was stored; a file of at most 1 MB is stored
    as it is, without compression; of the five properties that name an
    owner, the one of the image type holds the identifier and the others
    [null], so that an image whose type is none of the five has no owner
    at all. *)
Theorem X22_stored_record h file imageType identifier w processed base64 :
  startsWith "image/" (blob_type file) = true ->
  (blob_size file <= 5 * 1024 * 1024)%Z ->
  (if (1 * 1024 * 1024 <? blob_size file)%Z then compress h file else Ok file)
  = Ok processed ->
  readAsDataURL h processed = Ok base64 ->
  idb_open h = None ->
  (forall r, idb_put h r = None) ->
  exists id r w',
    processAndStoreImage h file imageType identifier w
    = (Ok (Stored id base64 (blob_size file) (blob_size processed)), w')
    /\ userImages w' = <[KStr id := r]> (userImages w)
    /\ r !! "id" = Some (VStr id)
    /\ r !! "type" = Some imageType
    /\ r !! "base64Data" = Some (VStr base64)
    /\ r !! "originalName" = Some (VStr (blob_name file))
    /\ r !! "size" = Some (VNum (blob_size processed))
    /\ ((blob_size file <= 1 * 1024 * 1024)%Z -> processed = file)
    /\ Forall (fun kf => r !! kf.2
                         = Some (if is_string imageType kf.1 then identifier else VNull))
              owner_fields
    /\ ((forall kind, kind ∈ owner_fields.*1 -> imageType <> VStr kind) ->
        Forall (fun kf => r !! kf.2 = Some VNull) owner_fields).
Proof.
  intros Htype Hsize Hprocessed Hread Hopen Hput.
  destruct (processAndStoreImage_ok h file imageType identifier w processed base64
              Htype Hsize Hprocessed Hread Hopen Hput)
    as (id & r & _ & _ & Hrun & Hid & Hty & Hdata & Hname & Hsz & _ & Howner).
  exists id, r, (put_world (KStr id) r (draw (tick w))).
  split; [exact Hrun|]. split; [reflexivity|].
  split; [exact Hid|]. split; [exact Hty|]. split; [exact Hdata|].
  split; [exact Hname|]. split; [exact Hsz|].
  split.
  { intros Hsmall.
    destruct (Z.ltb_spec (1 * 1024 * 1024) (blob_size file)) as [Hbig|_]; [lia|].
    congruence. }
  split; [exact Howner|].
  intros Hnone. rewrite Forall_forall in *. intros kf Hkf.
  rewrite (Howner kf Hkf).
  assert (Hk : imageType <> VStr kf.1).
  { apply Hnone. apply list_elem_of_fmap. exists kf. split; [reflexivity | exact Hkf]. }
  unfold is_string. destruct imageType; try reflexivity.
  destruct (String.eqb_spec s kf.1); [congruence | reflexivity].
Qed.

(** X22 at work: the record stored for a picture of contact 1. *)
Lemma X22_stored_record_witness :
  exists id r w',
    processAndStoreImage ticking small_png (VStr "contact") (VNum 1) initial
    = (Ok (Stored id "data:image/jpeg;base64,xyz" (2 * 1024 * 1024) (1024 * 1024)), w')
    /\ userImages w' = <[KStr id := r]> (userImages initial)
    /\ r !! "contactId" = Some (VNum 1)
    /\ r !! "foodId" = Some VNull
    /\ r !! "size" = Some (VNum (1024 * 1024)).
Proof.
  destruct (X22_stored_record ticking small_png (VStr "contact") (VNum 1) initial
              (Blob "mom.png" "image/jpeg" (1024 * 1024) "xyz")
              "data:image/jpeg;base64,xyz"
              eq_refl ltac:(vm_compute; discriminate) eq_refl eq_refl eq_refl
              (fun _ => eq_refl))
    as (id & r & w' & Hrun & Himgs & _ & _ & _ & _ & Hsz & _ & Howner & _).
  exists id, r, w'. split; [exact Hrun|]. split; [exact Himgs|].
  rewrite Forall_forall in Howner.
  split; [apply (Howner ("contact", "contactId")); unfold owner_fields; set_solver|].
  split; [apply (Howner ("food", "foodId")); unfold owner_fields; set_solver|].
  exact Hsz.
Defined.

(** X23. An upload that fails stores nothing: a rejected
    [processAndStoreImage] leaves both databases as they were, and the
    component's [handleFile] never rejects, leaves the database of the
    entities alone, and, when it ends in an error message, leaves the
    image store as it was. *)
Theorem X23_failed_upload h file imageType identifier w :
  (forall e w',
      processAndStoreImage h file imageType identifier w = (Threw e, w') ->
      userImages w' = userImages w /\ db w' = db w)
  /\ exists r w',
       handleFile h file imageType identifier w = (Ok r, w')
       /\ db w' = db w
       /\ (forall m, r = inr m -> userImages w' = userImages w).
Proof.
  split.
  - intros e w' Hrun. split; [apply (processAndStoreImage_threw _ _ _ _ _ _ _ Hrun)|].
    pose proof (keeps_db_processAndStoreImage h file imageType identifier w) as Hdb.
    rewrite Hrun in Hdb. exact Hdb.
  - pose proof (keeps_db_handleFile h file imageType identifier w) as Hdb.
    revert Hdb. unfold handleFile, try_catch, bind.
    destruct (negb (isValid (validateImageFile file))); cbn [throw ret fst snd].
    { intros _. eexists _, _. split; [reflexivity|]. split; reflexivity. }
    destruct (negb (truthy imageType) || negb (truthy identifier));
      cbn [throw ret fst snd].
    { intros _. eexists _, _. split; [reflexivity|]. split; reflexivity. }
    destruct (processAndStoreImage h file imageType identifier w) as [[s|e] w'] eqn:Hrun;
      cbn [fst snd]; intros Hdb.
    + eexists _, _. split; [reflexivity|]. split; [exact Hdb|]. discriminate.
    + eexists _, _. split; [reflexivity|]. split; [exact Hdb|]. intros _ _.
      apply (processAndStoreImage_threw _ _ _ _ _ _ _ Hrun).
Qed.

(** X23 at work: an upload on a host whose image store cannot be opened. *)
Lemma X23_failed_upload_witness :
  handleFile broken small_png (VStr "contact") (VNum 1) initial
  = (Ok (inr "IndexedDB is not available"), draw (tick initial))
  /\ userImages (draw (tick initial)) = userImages initial.
Proof.
  assert (Hc : handleFile broken small_png (VStr "contact") (VNum 1) initial
               = (Ok (inr "IndexedDB is not available"), draw (tick initial)))
    by reflexivity.
  destruct (X23_failed_upload broken small_png (VStr "contact") (VNum 1) initial)
    as (_ & r & w' & Hrun & _ & Hm).
  rewrite Hc in Hrun. injection Hrun as <- <-.
  split; [exact Hc | apply (Hm _ eq_refl)].
Defined.

(** X24. On a host whose image store works, [getImagesByBodyPart] with a
    key resolves to exactly the images that hold this key in
    [bodyPartId]; with [undefined] or [null] it resolves to the images
    that hold any key there, which leaves out every image that belongs to
    no body part; any other value is refused with DataError.  The world
    stays as it is. *)
Theorem X24_images_by_body_part h f w :
  idb_open h = None ->
  idb_getAll f = None ->
  (forall k, exists l,
        getImagesByBodyPart h f (key_value k) w = (Ok l, w)
        /\ l ≡ₚ filter (holds "bodyPartId" k) (map_to_list (userImages w)).*2)
  /\ (forall v, v = VUndef \/ v = VNull ->
                exists l,
                  getImagesByBodyPart h f v w = (Ok l, w)
                  /\ l ≡ₚ filter (indexed "bodyPartId") (map_to_list (userImages w)).*2)
  /\ (forall v, v <> VUndef -> v <> VNull -> as_key v = None ->
                getImagesByBodyPart h f v w = (Threw DataError, w)).
Proof.
  intros Hopen HgetAll. split; [|split].
  - intros k. rewrite (getImagesByBodyPart_run h f _ w Hopen HgetAll).
    exists (where_equals "bodyPartId" k (as_table (userImages w))).
    split.
    { pose proof (as_key_key_value k) as Hk.
      destruct k; cbn [key_value] in *; lazy beta iota; rewrite Hk; reflexivity. }
    apply (where_equals_records "bodyPartId" k (as_table (userImages w))).
  - intros v Hv. rewrite (getImagesByBodyPart_run h f _ w Hopen HgetAll).
    exists (orderBy "bodyPartId" (as_table (userImages w))).
    split; [destruct Hv as [-> | ->]; reflexivity|].
    apply (orderBy_records "bodyPartId" (as_table (userImages w))).
  - intros v Hu Hn Hk. rewrite (getImagesByBodyPart_run h f _ w Hopen HgetAll).
    destruct v; try congruence; try discriminate Hk; lazy beta iota; rewrite ?Hk;
      reflexivity.
Qed.

(** X24 at work: the image of a contact is listed under no body part. *)
Lemma X24_images_by_body_part_witness :
  (exists l, getImagesByBodyPart ticking no_faults (VNum 1) image_world
             = (Ok l, image_world)
             /\ l ≡ₚ [])
  /\ (exists l, getImagesByBodyPart ticking no_faults VUndef image_world
                = (Ok l, image_world)
                /\ l ≡ₚ [])
  /\ length (map_to_list (userImages image_world)) = 1%nat.
Proof.
  destruct (X24_images_by_body_part ticking no_faults image_world eq_refl eq_refl)
    as (Hkey & Hall & _).
  split; [|split].
  - destruct (Hkey (KNum 1)) as (l & Hrun & Hperm). exists l.
    split; [exact Hrun | exact Hperm].
  - destruct (Hall VUndef (or_introl eq_refl)) as (l & Hrun & Hperm). exists l.
    split; [exact Hrun | exact Hperm].
  - reflexivity.
Defined.

(** X25. The two databases are independent: no operation of the Entity
    Store, resolved or rejected, changes the image store, so deleting or
    clearing entities never removes an image; and no call of the image
    store or of the upload pipeline changes a collection. *)
Theorem X25_stores_independent h f :
  (forall o w, userImages (exec h o w) = userImages w)
  /\ (forall o w, db (image_exec h f o w) = db w).
Proof.
  split.
  - intros o w. apply keeps_images_exec.
  - intros o w. apply keeps_db_image_exec.
Qed.

End ImageProps.

(** ** The components around the image store *)

Module ComponentFacts.

Import Dexie Database IndexedDB ImageUpload Machine Queries ImageStore Components
       Notions.
Import EntityFacts QueryFacts ImageFacts.

Lemma getImageSource_resolves h imagePath w :
  (exists v, getImageSource h imagePath w = (Ok v, w))
  \/ (exists e, getImageSource h imagePath w = (Threw e, w)).
Proof.
  destruct (truthy imagePath) eqn:Ht.
  - destruct imagePath as [| | |b|n|p|l|ps]; try discriminate Ht.
    + right. unfold getImageSource, isUserUploadedImage, bind, lift. rewrite Ht.
      eexists. reflexivity.
    + right. unfold getImageSource, isUserUploadedImage, bind, lift. rewrite Ht.
      eexists. reflexivity.
    + destruct (startsWith "user_upload_" p) eqn:Hp.
      * left. eexists. apply (getImageSource_upload h p w Hp).
      * left. eexists. apply (getImageSource_direct h p w Hp).
    + right. eexists. reflexivity.
    + right. eexists. reflexivity.
  - left. exists imagePath.
    unfold getImageSource, isUserUploadedImage, bind, lift. rewrite Ht, Ht. reflexivity.
Qed.

Lemma loadImage_run h imagePath s w :
  truthy imagePath = true ->
  loadImage h imagePath s w =
  (Ok match getImageSource h imagePath w with
      | (Ok source, _) =>
          if truthy source then Display source false false
          else Display (imageSrc s) false true
      | (Threw _, _) => Display (imageSrc s) false true
      end, w).
Proof.
  intros Hpath. unfold loadImage. rewrite Hpath. cbn [negb].
  unfold try_catch, bind, ret.
  destruct (getImageSource_resolves h imagePath w) as [[v ->] | [e ->]].
  - destruct (truthy v); reflexivity.
  - reflexivity.
Qed.

Lemma accepted_is_image t : t ∈ acceptedTypes -> startsWith "image/" t = true.
Proof.
  unfold acceptedTypes. intros Ht.
  repeat (apply elem_of_cons in Ht as [-> | Ht]; [reflexivity|]).
  inversion Ht.
Qed.

End ComponentFacts.

Module ComponentProps.

Import Dexie Database IndexedDB ImageUpload Machine Queries ImageStore Components
       Examples Notions.
Import SeedFacts EntityFacts QueryFacts KeepFacts ImageFacts ComponentFacts.

(** X26. The effect of [ImageDisplay] never rejects and changes neither
    database; it always ends the loading state.  With a falsy path the
    image and the error flag stay as they were, so an image shown before
    stays on display; a path that is not the id of an upload is shown as
    it is; the id of an upload that is not in the store ends in the
    fallback, and one that is in a readable store shows the stored data
    URL. *)
Theorem X26_image_display h imagePath s w :
  exists s',
    loadImage h imagePath s w = (Ok s', w)
    /\ loading s' = false
    /\ (truthy imagePath = false -> s' = Display (imageSrc s) false (error s))
    /\ (forall p, imagePath = VStr p -> p <> "" ->
                  startsWith "user_upload_" p = false ->
                  render s' = Img (VStr p))
    /\ (forall p, imagePath = VStr p ->
                  startsWith "user_upload_" p = true ->
                  userImages w !! KStr p = None ->
                  imageSrc s' = imageSrc s /\ render s' = Fallback)
    /\ (forall p record,
           imagePath = VStr p ->
           startsWith "user_upload_" p = true ->
           idb_open h = None -> idb_get h = None ->
           userImages w !! KStr p = Some record ->
           truthy (prop record "base64Data") = true ->
           render s' = Img (prop record "base64Data")).
Proof.
  destruct (truthy imagePath) eqn:Hpath.
  - rewrite (loadImage_run h imagePath s w Hpath).
    eexists. split; [reflexivity|].
    split.
    { destruct (getImageSource h imagePath w) as [[v|e] w'];
        [destruct (truthy v)|]; reflexivity. }
    split; [discriminate|].
    split; [|split].
    + intros p -> Hp Hdirect. rewrite (getImageSource_direct h p w Hdirect).
      rewrite Hpath. unfold render. cbn [loading error imageSrc orb].
      rewrite Hpath. reflexivity.
    + intros p -> Hupload Hnone. rewrite (getImageSource_upload h p w Hupload), Hnone.
      destruct (idb_open h), (idb_get h); split; reflexivity.
    + intros p record -> Hupload Hopen Hget Hsome Htruthy.
      rewrite (getImageSource_upload h p w Hupload), Hopen, Hget, Hsome, Htruthy.
      unfold render. cbn [loading error imageSrc orb]. rewrite Htruthy. reflexivity.
  - unfold loadImage. rewrite Hpath. cbn [negb]. eexists. split; [reflexivity|].
    split; [reflexivity|]. split; [reflexivity|].
    split; [|split].
    + intros p -> Hp. simpl in Hpath.
      destruct (String.eqb_spec p ""); [congruence | discriminate Hpath].
    + intros p -> Hupload. destruct p; [discriminate Hupload | discriminate Hpath].
    + intros p record -> Hupload. destruct p; [discriminate Hupload | discriminate Hpath].
Qed.

(** X26 at work: a stored upload is shown, a missing one ends in the fallback, and an image on display stays when the path is emptied. *)
Lemma X26_image_display_witness :
  (exists s',
      loadImage ticking (VStr "user_upload_contact_1_0_k0") mounted image_world
      = (Ok s', image_world)
      /\ render s' = Img (VStr "data:image/jpeg;base64,xyz"))
  /\ (exists s',
         loadImage ticking (VStr "user_upload_contact_1_9_k9") mounted image_world
         = (Ok s', image_world)
         /\ render s' = Fallback)
  /\ (exists s',
         loadImage ticking VNull (Display (VStr "/image/head.png") false false) image_world
         = (Ok s', image_world)
         /\ render s' = Img (VStr "/image/head.png")).
Proof.
  split; [|split].
  - assert (Hrec : exists record,
               userImages image_world !! KStr "user_upload_contact_1_0_k0" = Some record
               /\ prop record "base64Data" = VStr "data:image/jpeg;base64,xyz")
      by (eexists; split; reflexivity).
    destruct Hrec as (record & Hrec & Hdata).
    destruct (X26_image_display ticking (VStr "user_upload_contact_1_0_k0") mounted
                image_world) as (s' & Hrun & _ & _ & _ & _ & Hfound).
    exists s'. split; [exact Hrun|]. rewrite <- Hdata.
    apply (Hfound _ record eq_refl eq_refl eq_refl eq_refl Hrec).
    rewrite Hdata. reflexivity.
  - assert (Hnone : userImages image_world !! KStr "user_upload_contact_1_9_k9" = None)
      by reflexivity.
    destruct (X26_image_display ticking (VStr "user_upload_contact_1_9_k9") mounted
                image_world) as (s' & Hrun & _ & _ & _ & Hmissing & _).
    exists s'. split; [exact Hrun|]. apply (Hmissing _ eq_refl eq_refl Hnone).
  - destruct (X26_image_display ticking VNull
                (Display (VStr "/image/head.png") false false) image_world)
      as (s' & Hrun & _ & Hfalsy & _).
    exists s'. split; [exact Hrun|]. rewrite (Hfalsy eq_refl). reflexivity.
Defined.

(** X27. The handlers of [StorageManager] never reject and leave the
    database of the entities alone.  When [handleDeleteImage] reports
    'Failed to delete image', nothing was deleted and the lists on display
    are the old ones; when it reports no problem, the value was a key, the
    image under it is gone, the list on display is the store's content and
    the count on display is the length of that list.  When
    [handleClearAllImages] reports no problem, the store and the list are
    empty and the information shows no image and no byte. *)
Theorem X27_storage_manager h f s w :
  (forall v, exists s' w',
      handleDeleteImage h f v s w = (Ok s', w')
      /\ db w' = db w
      /\ (problem s' = Some "Failed to delete image" ->
          w' = w /\ storageInfo s' = storageInfo s /\ images s' = images s)
      /\ (problem s' = None ->
          exists k info,
            as_key v = Some k
            /\ userImages w' = base.delete k (userImages w)
            /\ images s' ≡ₚ (map_to_list (userImages w')).*2
            /\ storageInfo s' = Some info
            /\ totalImages info = length (images s')))
  /\ exists s' w',
       handleClearAllImages h f s w = (Ok s', w')
       /\ db w' = db w
       /\ (problem s' = Some "Failed to clear images" ->
           w' = w /\ storageInfo s' = storageInfo s /\ images s' = images s)
       /\ (problem s' = None ->
           userImages w' = ∅
           /\ images s' = []
           /\ storageInfo s' = Some (StorageInfo 0 (VNum 0))).
Proof.
  split.
  - intros v. unfold handleDeleteImage, try_catch, bind.
    rewrite deleteUserImage_run.
    destruct (idb_open h) as [e|] eqn:Hopen.
    { eexists _, _. split; [reflexivity|]. split; [reflexivity|].
      split; [intros _; repeat split | discriminate]. }
    destruct (as_key v) as [k|] eqn:Hk.
    2: { eexists _, _. split; [reflexivity|]. split; [reflexivity|].
         split; [intros _; repeat split | discriminate]. }
    destruct (idb_delete f) as [e|] eqn:Hdelete.
    { eexists _, _. split; [reflexivity|]. split; [reflexivity|].
      split; [intros _; repeat split | discriminate]. }
    unfold loadStorageInfo.
    rewrite getStorageInfo_run, Hopen.
    destruct (idb_getAll f) as [e|] eqn:HgetAll.
    { eexists _, _. split; [reflexivity|]. split; [reflexivity|].
      split; discriminate. }
    rewrite getAllUserImages_run, Hopen, HgetAll.
    eexists _, _. split; [reflexivity|]. split; [reflexivity|].
    split; [discriminate|]. intros _. cbn [userImages images storageInfo].
    eexists k, _. split; [reflexivity|]. split; [reflexivity|].
    split; [apply (toArray_records (as_table _))|]. split; reflexivity.
  - unfold handleClearAllImages, try_catch, bind.
    rewrite clearAllUserImages_run.
    destruct (idb_open h) as [e|] eqn:Hopen.
    { eexists _, _. split; [reflexivity|]. split; [reflexivity|].
      split; [intros _; repeat split | discriminate]. }
    destruct (idb_clear f) as [e|] eqn:Hclear.
    { eexists _, _. split; [reflexivity|]. split; [reflexivity|].
      split; [intros _; repeat split | discriminate]. }
    unfold loadStorageInfo.
    rewrite getStorageInfo_run, Hopen.
    destruct (idb_getAll f) as [e|] eqn:HgetAll.
    { eexists _, _. split; [reflexivity|]. split; [reflexivity|].
      split; discriminate. }
    rewrite getAllUserImages_run, Hopen, HgetAll.
    cbn [userImages]. rewrite (toArray_empty (as_table ∅)) by reflexivity.
    eexists _, _. split; [reflexivity|]. split; [reflexivity|].
    split; [discriminate|]. intros _. repeat split.
Qed.

(** X27 at work: the one stored image is deleted from the manager, with a working store and with a broken one. *)
Lemma X27_storage_manager_witness :
  (exists s' w',
      handleDeleteImage ticking no_faults (VStr "user_upload_contact_1_0_k0")
                        (Manager None [] None) image_world = (Ok s', w')
      /\ userImages w' = ∅
      /\ exists info, storageInfo s' = Some info
                      /\ totalImages info = length (images s'))
  /\ (exists s' w',
         handleDeleteImage broken no_faults (VStr "user_upload_contact_1_0_k0")
                           (Manager None [] None) image_world = (Ok s', w')
         /\ w' = image_world
         /\ images s' = []).
Proof.
  split.
  - assert (Hc : exists s0 w0,
               handleDeleteImage ticking no_faults (VStr "user_upload_contact_1_0_k0")
                                 (Manager None [] None) image_world = (Ok s0, w0)
               /\ problem s0 = None)
      by (eexists _, _; split; reflexivity).
    destruct Hc as (s0 & w0 & Hc & Hproblem).
    destruct (X27_storage_manager ticking no_faults (Manager None [] None) image_world)
      as (Hdelete & _).
    destruct (Hdelete (VStr "user_upload_contact_1_0_k0"))
      as (s' & w' & Hrun & _ & _ & Hok).
    rewrite Hc in Hrun. injection Hrun as <- <-.
    destruct (Hok Hproblem) as (k & info & Hk & Himgs & _ & Hinfo & Hcount).
    injection Hk as <-.
    exists s0, w0. split; [exact Hc|]. split; [rewrite Himgs; reflexivity|].
    exists info. split; [exact Hinfo | exact Hcount].
  - assert (Hc : exists s0 w0,
               handleDeleteImage broken no_faults (VStr "user_upload_contact_1_0_k0")
                                 (Manager None [] None) image_world = (Ok s0, w0)
               /\ problem s0 = Some "Failed to delete image")
      by (eexists _, _; split; reflexivity).
    destruct Hc as (s0 & w0 & Hc & Hproblem).
    destruct (X27_storage_manager broken no_faults (Manager None [] None) image_world)
      as (Hdelete & _).
    destruct (Hdelete (VStr "user_upload_contact_1_0_k0"))
      as (s' & w' & Hrun & _ & Hfailed & _).
    rewrite Hc in Hrun. injection Hrun as <- <-.
    destruct (Hfailed Hproblem) as (Hw & _ & Himgs).
    exists s0, w0. split; [exact Hc|]. split; [exact Hw | exact Himgs].
Defined.

(** X28. [ImageUpload] with its default parameters: a file that it hands
    on has one of the thirteen accepted types and at most 5 MB, so that
    the validation of the upload pipeline accepts it as well, and what is
    handed on is the file's data URL; a file that it refuses gets one of
    two messages, the one about the size naming 5MB; and when the reader
    fails, the file is dropped without a message. *)
Theorem X28_pick_defaults h file :
  match pick h acceptedTypes (5 * 1024 * 1024) file with
  | Chosen url =>
      readAsDataURL h file = Ok url
      /\ blob_type file ∈ acceptedTypes
      /\ isValid (validateImageFile file) = true
  | Refused m =>
      ((blob_type file ∉ acceptedTypes)
       /\ m = "Please select a valid image file (JPG, PNG, GIF, BMP, WebP, SVG, TIFF, ICO, HEIC, AVIF, etc.)")
      \/ ((5 * 1024 * 1024 < blob_size file)%Z
          /\ m = "File size must be less than 5MB")
  | Nothing => exists e, readAsDataURL h file = Threw e
  end.
Proof.
  unfold pick.
  destruct (decide (blob_type file ∈ acceptedTypes)) as [Hin|Hout].
  - rewrite bool_decide_eq_true_2 by exact Hin. cbn [negb].
    destruct (Z.ltb_spec (5 * 1024 * 1024) (blob_size file)) as [Hbig|Hsmall].
    + right. split; [exact Hbig | reflexivity].
    + destruct (readAsDataURL h file) as [url|e]; [|eauto].
      split; [reflexivity|]. split; [exact Hin|].
      unfold validateImageFile. rewrite (accepted_is_image _ Hin).
      destruct (Z.ltb_spec (5 * 1024 * 1024) (blob_size file)); [lia | reflexivity].
  - rewrite bool_decide_eq_false_2 by exact Hout. cbn [negb].
    left. split; [exact Hout | reflexivity].
Qed.

End ComponentProps.

(** ** [updateEmergency], and the two validations of an upload *)

Module MoreProps.

Import Dexie Database IndexedDB ImageUpload Machine Examples Notions.
Import DexieFacts DatabaseFacts EntityFacts.

(** X29. [updateEmergency] with changes under plain names (no name has
    a period in it, none is [id] or [__proto__], none comes twice)
    resolves to the record as [getEmergencyById] then finds it.  On a
    stored record every property of the changes is assigned, a property
    changed to [undefined] is removed (one that holds [undefined] already
    stays as it is), and the other properties stay, so that no time
    stamp is written unless the changes bring one; the other records,
    the other collections and the image store are as before.  With an id
    that is not in use the call resolves to [undefined] and changes
    nothing. *)
Theorem X29_updateEmergency id cs w :
  plain_changes cs ->
  "id" ∉ cs.*1 ->
  exists w',
    updateEmergency id cs w = (Ok (rows (emergencies (db w')) !! id), w')
    /\ getEmergencyById id w' = (Ok (rows (emergencies (db w')) !! id), w')
    /\ (forall n, n <> Emergencies -> tbl n (db w') = tbl n (db w))
    /\ userImages w' = userImages w
    /\ (forall k, k <> id ->
                  rows (emergencies (db w')) !! k = rows (emergencies (db w)) !! k)
    /\ match rows (emergencies (db w)) !! id with
       | None => w' = w /\ rows (emergencies (db w')) !! id = None
       | Some o =>
           exists o',
             rows (emergencies (db w')) !! id = Some o'
             /\ o' !! "id" = o !! "id"
             /\ forall f, o' !! f = match (list_to_map cs : obj) !! f with
                                    | Some VUndef =>
                                        match o !! f with
                                        | Some VUndef => Some VUndef
                                        | _ => None
                                        end
                                    | Some v => Some v
                                    | None => o !! f
                                    end
       end.
Proof.
  intros Hplain Hid. rewrite updateEmergency_run.
  rewrite (update_plain id cs _ Hplain Hid).
  set (patch := list_to_map cs : obj).
  exists (updated Emergencies id patch w).
  split; [reflexivity|]. split; [apply getEmergencyById_run|].
  split; [intros n Hn; rewrite tbl_updated, decide_False by congruence; reflexivity|].
  split; [reflexivity|].
  split.
  { intros k Hk. change (emergencies (db (updated Emergencies id patch w)))
      with (tbl Emergencies (db (updated Emergencies id patch w))).
    rewrite tbl_updated, decide_True by reflexivity. apply rows_patched_ne. congruence. }
  destruct (rows (emergencies (db w)) !! id) as [o|] eqn:Hrow.
  - exists (apply_patch patch o).
    split; [apply (rows_updated_eq Emergencies id patch w o Hrow)|].
    split.
    + apply lookup_apply_patch_None. apply not_elem_of_list_to_map_1. exact Hid.
    + intros f. apply lookup_apply_patch.
  - rewrite (updated_absent Emergencies id patch w Hrow). split; [reflexivity | exact Hrow].
Qed.

(** X29 at work: the seeded emergency is backdated and loses its icon. *)
Lemma X29_updateEmergency_witness :
  exists w',
    updateEmergency (KNum 1) (("icon", VUndef) :: backdate) seeded
    = (Ok (rows (emergencies (db w')) !! KNum 1), w')
    /\ exists o',
         rows (emergencies (db w')) !! KNum 1 = Some o'
         /\ o' !! "icon" = None
         /\ o' !! "createdAt" = Some (VStr "2000-01-01T00:00:00.000Z")
         /\ o' !! "name" = Some (VStr "Head").
Proof.
  assert (Hplain : plain_changes (("icon", VUndef) :: backdate)).
  { split; [apply (bool_decide_unpack _); vm_compute; reflexivity|].
    repeat constructor; discriminate. }
  assert (Hid : "id" ∉ (("icon", VUndef) :: backdate).*1)
    by (apply (bool_decide_unpack _); vm_compute; reflexivity).
  assert (Hrow : exists o, rows (emergencies (db seeded)) !! KNum 1 = Some o
                           /\ o !! "name" = Some (VStr "Head")
                           /\ o !! "icon" = Some (VStr "head"))
    by (eexists; repeat split; reflexivity).
  destruct Hrow as (o & Hrow & Hname & Hicon).
  destruct (X29_updateEmergency (KNum 1) (("icon", VUndef) :: backdate) seeded Hplain Hid)
    as (w' & Hrun & _ & _ & _ & _ & Hcase).
  rewrite Hrow in Hcase. destruct Hcase as (o' & Hrow' & _ & Hfields).
  exists w'. split; [exact Hrun|]. exists o'. split; [exact Hrow'|].
  split; [rewrite Hfields; cbn; rewrite Hicon; reflexivity|].
  split; [rewrite Hfields; reflexivity|].
  rewrite Hfields. exact Hname.
Defined.

(** X30. The two validations of an upload agree: [validateImageFile]
    accepts a file exactly when its type starts with 'image/' and its size
    is at most 5 MB, and a file that it does not accept is the one on
    which [processAndStoreImage] rejects before doing anything, with the
    first of the validation's messages, and on which the component's
    [handleFile] reports all of them, joined by commas. *)
Theorem X30_validations_agree h file imageType identifier w :
  (isValid (validateImageFile file) = true
   <-> startsWith "image/" (blob_type file) = true
       /\ (blob_size file <= 5 * 1024 * 1024)%Z)
  /\ (isValid (validateImageFile file) = false ->
      exists m rest,
        errors (validateImageFile file) = m :: rest
        /\ processAndStoreImage h file imageType identifier w = (Threw (Error m), w)
        /\ handleFile h file imageType identifier w
           = (Ok (inr (join ", " (m :: rest))), w)).
Proof.
  unfold processAndStoreImage, handleFile, logged, try_catch, bind, validateImageFile.
  cbv zeta.
  destruct (startsWith "image/" (blob_type file)) eqn:Htype;
    destruct (Z.ltb_spec (5 * 1024 * 1024) (blob_size file)) as [Hbig|Hsmall];
    cbn [negb push_if app length Nat.eqb isValid errors throw ret fst snd].
  - split; [split; [discriminate | intros [_ H]; lia]|].
    intros _. eexists _, _. split; [reflexivity|].
    split; [|reflexivity].
    destruct (Z.ltb_spec (5 * 1024 * 1024) (blob_size file)); [reflexivity | lia].
  - split; [split; [intros _; split; [reflexivity | lia] | reflexivity]|].
    discriminate.
  - split; [split; [discriminate | intros [H _]; discriminate H]|].
    intros _. eexists _, _. split; [reflexivity|]. split; reflexivity.
  - split; [split; [discriminate | intros [H _]; discriminate H]|].
    intros _. eexists _, _. split; [reflexivity|]. split; reflexivity.
Qed.

(** X30 at work: a picture of 6 MB. *)
Lemma X30_validations_agree_witness :
  exists m rest,
    errors (validateImageFile six_megabytes) = m :: rest
    /\ processAndStoreImage ticking six_megabytes (VStr "contact") (VNum 1) initial
       = (Threw (Error m), initial)
    /\ handleFile ticking six_megabytes (VStr "contact") (VNum 1) initial
       = (Ok (inr (join ", " (m :: rest))), initial).
Proof.
  destruct (X30_validations_agree ticking six_megabytes (VStr "contact") (VNum 1) initial)
    as (_ & Hrejects).
  apply Hrejects. reflexivity.
Defined.

End MoreProps.
